(** * Web-Audio-Mastering: the DSP core, embedded in Rocq

    A shallow embedding of the loudness meter (lufs.js), the true-peak
    detector (true-peak.js), the normalizer (normalizer.js), the two-stage
    lookahead limiter and the M/S stereo processor (limiter.js, stereo.js),
    the soft-knee gain computer (dynamic-processor.js) and the helpers of
    utils.js they call.

    Number model.  A JavaScript number that the code stores in a sample
    buffer or uses in arithmetic is a real number ([R]): rounding to
    IEEE-754 binary32/binary64 is abstracted away, so every equation below
    is the exact-arithmetic reading of the code.  A number a function
    *returns* as a measurement may also be [-Infinity], so measurement
    results are [jsnum]s.  Array reads go through [aget]; every read made
    by the loops below is in range when all channels of a buffer hold
    [length] samples ([wfBuffer]).  Loop counters, lengths and indices are
    [nat]. *)

From Stdlib Require Import Reals Lra Lia List ZArith String Bool Arith.
Import ListNotations.
Local Open Scope R_scope.

(** ** JavaScript numbers and the [Math] functions the code calls *)

Inductive jsnum : Type :=
| Num (r : R)
| PosInfinity
| NegInfinity
| NaN.

(** [isFinite(x)] *)
Definition isFinite (x : jsnum) : bool :=
  match x with Num _ => true | _ => false end.

(** [a + b] where [b] is a finite number (used for [currentPeakDB + lufsGainDB]). *)
Definition jsAddNum (a : jsnum) (b : R) : jsnum :=
  match a with Num x => Num (x + b) | other => other end.

(** [a > b] where [b] is a finite number: false for [-Infinity] and [NaN]. *)
Definition jsGtNum (a : jsnum) (b : R) : bool :=
  match a with
  | Num x => if Rgt_dec x b then true else false
  | PosInfinity => true
  | NegInfinity | NaN => false
  end.

(** [Math.pow(10, x)] *)
Definition pow10 (x : R) : R := Rpower 10 x.

(** [Math.log10(x)], for [x > 0]. *)
Definition log10 (x : R) : R := ln x / ln 10.

(** [Math.sign(x)] *)
Definition sign (x : R) : R :=
  if Rlt_dec 0 x then 1 else if Rlt_dec x 0 then -1 else 0.

(** [Math.floor(x)] as a sample count, for [x >= 0]. *)
Definition floor (x : R) : nat := Z.to_nat (Int_part x).

(** [a[i]] on a typed array. *)
Definition aget (a : list R) (i : nat) : R := nth i a 0.

(** [a[i] = v] on a typed array: a write past the end is ignored. *)
Fixpoint aset (a : list R) (i : nat) (v : R) : list R :=
  match a, i with
  | [], _ => []
  | _ :: rest, O => v :: rest
  | x :: rest, S i' => x :: aset rest i' v
  end.

(** ** AudioBuffer *)

Record AudioBuffer : Type := mkAudioBuffer {
  sampleRate : R;
  length : nat;
  channels : list (list R)
}.

Definition numberOfChannels (b : AudioBuffer) : nat := List.length (channels b).
Definition duration (b : AudioBuffer) : R := INR (length b) / sampleRate b.
Definition getChannelData (b : AudioBuffer) (ch : nat) : list R := nth ch (channels b) [].

(** The invariant of the Web Audio type: a positive sample rate, and every
    channel holds [length] samples. *)
Definition wfBuffer (b : AudioBuffer) : Prop :=
  0 < sampleRate b /\ Forall (fun c => List.length c = length b) (channels b).

(** ** constants.js *)

Module K_WEIGHTING.
Definition HIGH_SHELF_FREQ : R := 1681.97.
Definition HIGH_SHELF_GAIN : R := 4.0.
Definition HIGH_SHELF_Q : R := 0.71.
Definition HIGH_PASS_FREQ : R := 38.14.
Definition HIGH_PASS_Q : R := 0.5.
End K_WEIGHTING.

Module LUFS_CONSTANTS.
Definition BLOCK_SIZE_SEC : R := 0.4.
Definition BLOCK_OVERLAP : R := 0.75.
Definition ABSOLUTE_GATE_LUFS : R := -70.
Definition ABSOLUTE_GATE_LINEAR : R := 1e-7.
Definition RELATIVE_GATE_OFFSET : R := 0.1.
Definition LOUDNESS_OFFSET : R := -0.691.
End LUFS_CONSTANTS.

Module LIMITER_DEFAULTS.
Definition CEILING_DB : R := -1.
Definition CEILING_LINEAR : R := 0.891.
Definition LOOKAHEAD_MS : R := 3.
Definition RELEASE_MS : R := 100.
Definition KNEE_DB : R := 3.
Definition PRESERVE_TRANSIENTS : bool := true.
End LIMITER_DEFAULTS.

Module AUDIO_DEFAULTS.
Definition SAMPLE_RATE : R := 48000.
Definition BIT_DEPTH : R := 24.
Definition TARGET_LUFS : R := -14.
End AUDIO_DEFAULTS.

(** ** utils.js *)

Record BiquadCoeffs : Type := mkCoeffs {
  b0 : R; b1 : R; b2 : R; a1 : R; a2 : R
}.

(** The direct-form-I recurrence of [applyBiquadFilter], with the filter
    memory [(x1, x2, y1, y2)] as loop state. *)
Fixpoint biquadLoop (c : BiquadCoeffs) (x1 x2 y1 y2 : R) (samples : list R) : list R :=
  match samples with
  | [] => []
  | x0 :: rest =>
      let y0 := b0 c * x0 + b1 c * x1 + b2 c * x2 - a1 c * y1 - a2 c * y2 in
      y0 :: biquadLoop c x0 x1 y0 y1 rest
  end.

Definition applyBiquadFilter (samples : list R) (coeffs : BiquadCoeffs) : list R :=
  biquadLoop coeffs 0 0 0 0 samples.

Definition calcHighShelfCoeffs (sampleRate frequency gainDB Q : R) : BiquadCoeffs :=
  let A := Rpower 10 (gainDB / 40) in
  let w0 := 2 * PI * frequency / sampleRate in
  let cosW0 := cos w0 in
  let sinW0 := sin w0 in
  let alpha := sinW0 / (2 * Q) in
  let b0 := A * ((A + 1) + (A - 1) * cosW0 + 2 * sqrt A * alpha) in
  let b1 := -2 * A * ((A - 1) + (A + 1) * cosW0) in
  let b2 := A * ((A + 1) + (A - 1) * cosW0 - 2 * sqrt A * alpha) in
  let a0 := (A + 1) - (A - 1) * cosW0 + 2 * sqrt A * alpha in
  let a1 := 2 * ((A - 1) - (A + 1) * cosW0) in
  let a2 := (A + 1) - (A - 1) * cosW0 - 2 * sqrt A * alpha in
  mkCoeffs (b0 / a0) (b1 / a0) (b2 / a0) (a1 / a0) (a2 / a0).

Definition calcHighPassCoeffs (sampleRate frequency Q : R) : BiquadCoeffs :=
  let w0 := 2 * PI * frequency / sampleRate in
  let cosW0 := cos w0 in
  let sinW0 := sin w0 in
  let alpha := sinW0 / (2 * Q) in
  let b0 := (1 + cosW0) / 2 in
  let b1 := - (1 + cosW0) in
  let b2 := (1 + cosW0) / 2 in
  let a0 := 1 + alpha in
  let a1 := -2 * cosW0 in
  let a2 := 1 - alpha in
  mkCoeffs (b0 / a0) (b1 / a0) (b2 / a0) (a1 / a0) (a2 / a0).

Definition dbToLinear (db : R) : R := pow10 (db / 20).

Definition linearToDb (linear : R) : jsnum :=
  if Rlt_dec 0 linear then Num (20 * log10 linear) else NegInfinity.

Definition interpolateCatmullRom (y0 y1 y2 y3 t : R) : R :=
  let a0 := -0.5 * y0 + 1.5 * y1 - 1.5 * y2 + 0.5 * y3 in
  let a1 := y0 - 2.5 * y1 + 2 * y2 - 0.5 * y3 in
  let a2 := -0.5 * y0 + 0.5 * y2 in
  let a3 := y1 in
  let t2 := t * t in
  let t3 := t2 * t in
  a0 * t3 + a1 * t2 + a2 * t + a3.

(** ** true-peak.js *)

(** The four-sample history [prevSamples = [y0, y1, y2, y3]]. *)
Definition Window : Type := (R * R * R * R)%type.

Definition emptyWindow : Window := (0, 0, 0, 0).

(** The shift [prevSamples[0] = prevSamples[1]; ...; prevSamples[3] = x]. *)
Definition shiftIn (prevSamples : Window) (x : R) : Window :=
  let '(_, p1, p2, p3) := prevSamples in (p1, p2, p3, x).

(** The nominal point of a window is its third sample [y2]. *)
Definition nominal (w : Window) : R := let '(_, _, y2, _) := w in y2.

Definition calculateTruePeakSample (prevSamples : Window) : R :=
  let '(y0, y1, y2, y3) := prevSamples in
  let peak := Rabs y2 in
  let a0 := -0.5 * y0 + 1.5 * y1 - 1.5 * y2 + 0.5 * y3 in
  let a1 := y0 - 2.5 * y1 + 2 * y2 - 0.5 * y3 in
  let a2 := -0.5 * y0 + 0.5 * y2 in
  let a3 := y1 in
  fold_left
    (fun peak i =>
       let t := INR i * 0.25 in
       let t2 := t * t in
       let t3 := t2 * t in
       let interpolated := a0 * t3 + a1 * t2 + a2 * t + a3 in
       Rmax peak (Rabs interpolated))
    [1; 2; 3]%nat peak.

(** The inner loop of [findTruePeak] over one channel, from index [i]:
    [prevSamples] and [maxPeak] are the loop state. *)
Fixpoint truePeakLoop (prevSamples : Window) (maxPeak : R) (i : nat)
    (channelData : list R) : R :=
  match channelData with
  | [] => maxPeak
  | x :: rest =>
      let prevSamples' := shiftIn prevSamples x in
      let maxPeak' :=
        if (3 <=? i)%nat then
          let truePeak := calculateTruePeakSample prevSamples' in
          if Rgt_dec truePeak maxPeak then truePeak else maxPeak
        else maxPeak in
      truePeakLoop prevSamples' maxPeak' (S i) rest
  end.

(** The windows on which the loop calls [calculateTruePeakSample], each
    with the iteration [i] that evaluates it. *)
Fixpoint evaluatedWindows (prevSamples : Window) (i : nat) (channelData : list R)
  : list (nat * Window) :=
  match channelData with
  | [] => []
  | x :: rest =>
      let prevSamples' := shiftIn prevSamples x in
      (if (3 <=? i)%nat then [(i, prevSamples')] else [])
        ++ evaluatedWindows prevSamples' (S i) rest
  end.

Definition findTruePeakLinear (chans : list (list R)) : R :=
  fold_left (fun maxPeak channelData => truePeakLoop emptyWindow maxPeak 0 channelData)
            chans 0.

Definition findTruePeak (audioBuffer : AudioBuffer) : jsnum :=
  let maxPeak := findTruePeakLinear (channels audioBuffer) in
  if Rgt_dec maxPeak 0 then Num (20 * log10 maxPeak) else NegInfinity.

Definition findChannelTruePeak (channelData : list R) : R :=
  truePeakLoop emptyWindow 0 0 channelData.

(** ** lufs.js *)

Definition blockSizeOf (sampleRate : R) : nat :=
  floor (sampleRate * LUFS_CONSTANTS.BLOCK_SIZE_SEC).

Definition hopSizeOf (sampleRate : R) : nat :=
  floor (sampleRate * LUFS_CONSTANTS.BLOCK_SIZE_SEC * (1 - LUFS_CONSTANTS.BLOCK_OVERLAP)).

(** [for (i = start; i < start + blockSize; i++) sumSquares += d[i] * d[i]] *)
Definition addSquares (channelData : list R) (start blockSize : nat) (sumSquares : R) : R :=
  fold_left (fun s i => s + aget channelData i * aget channelData i)
            (seq start blockSize) sumSquares.

(** The body of the block loop: the mean square of the block at [start]. *)
Definition blockMeanSquare (filteredChannels : list (list R))
    (numChannels blockSize start : nat) : R :=
  let sumSquares :=
    fold_left (fun s ch => addSquares (nth ch filteredChannels []) start blockSize s)
              (seq 0 numChannels) 0 in
  sumSquares / (INR blockSize * INR numChannels).

(** [for (start = 0; start + blockSize <= length; start += hopSize)].
    With [hopSize = 0] the source loop never ends; the model runs on fuel
    and answers [None] when it runs out. *)
Fixpoint blockLoop (fuel : nat) (filteredChannels : list (list R))
    (numChannels blockSize hopSize len start : nat) : option (list R) :=
  if (start + blockSize <=? len)%nat then
    match fuel with
    | O => None
    | S fuel' =>
        match blockLoop fuel' filteredChannels numChannels blockSize hopSize len
                        (start + hopSize) with
        | Some blocks =>
            Some (blockMeanSquare filteredChannels numChannels blockSize start :: blocks)
        | None => None
        end
    end
  else Some [].

Definition kWeight (sampleRate : R) (ch : list R) : list R :=
  let highShelfCoeffs :=
    calcHighShelfCoeffs sampleRate K_WEIGHTING.HIGH_SHELF_FREQ
                        K_WEIGHTING.HIGH_SHELF_GAIN K_WEIGHTING.HIGH_SHELF_Q in
  let highPassCoeffs :=
    calcHighPassCoeffs sampleRate K_WEIGHTING.HIGH_PASS_FREQ K_WEIGHTING.HIGH_PASS_Q in
  let filtered := applyBiquadFilter ch highShelfCoeffs in
  applyBiquadFilter filtered highPassCoeffs.

(** [arr.reduce((a, b) => a + b, 0)] *)
Definition sumOf (arr : list R) : R := fold_left Rplus arr 0.

Definition gtb (threshold : R) (ms : R) : bool :=
  if Rgt_dec ms threshold then true else false.

(** The two gates and the final logarithm, on the list of block energies. *)
Definition gateBlocks (blocks : list R) : jsnum :=
  match blocks with
  | [] => NegInfinity
  | _ =>
      let gatedBlocks := filter (gtb LUFS_CONSTANTS.ABSOLUTE_GATE_LINEAR) blocks in
      match gatedBlocks with
      | [] => NegInfinity
      | _ =>
          let ungatedMean := sumOf gatedBlocks / INR (List.length gatedBlocks) in
          let gatedBlocks' :=
            filter (gtb (ungatedMean * LUFS_CONSTANTS.RELATIVE_GATE_OFFSET)) gatedBlocks in
          match gatedBlocks' with
          | [] => NegInfinity
          | _ =>
              let gatedMean := sumOf gatedBlocks' / INR (List.length gatedBlocks') in
              Num (LUFS_CONSTANTS.LOUDNESS_OFFSET + 10 * log10 gatedMean)
          end
      end
  end.

(** [measureLUFS(audioBuffer, fallbackLufs)]; [None] stands for a block
    loop that does not terminate. *)
Definition measureLUFS (audioBuffer : AudioBuffer) (fallbackLufs : jsnum) : option jsnum :=
  let sampleRate := sampleRate audioBuffer in
  let numChannels := numberOfChannels audioBuffer in
  let len := length audioBuffer in
  if Rlt_dec (duration audioBuffer) LUFS_CONSTANTS.BLOCK_SIZE_SEC then
    Some fallbackLufs
  else
    let filteredChannels := map (kWeight sampleRate) (channels audioBuffer) in
    let blockSize := blockSizeOf sampleRate in
    let hopSize := hopSizeOf sampleRate in
    match blockLoop (S len) filteredChannels numChannels blockSize hopSize len 0 with
    | Some blocks => Some (gateBlocks blocks)
    | None => None
    end.

(** ** limiter.js *)

Definition applySoftKneeCurve (sample ceiling kneeDB : R) : R :=
  let absSample := Rabs sample in
  if Rle_dec absSample (ceiling * 0.9) then sample
  else
    let kneeRatio := pow10 (kneeDB / 20) in
    let kneeStart := ceiling / kneeRatio in
    if Rle_dec absSample kneeStart then sample
    else if Rle_dec absSample ceiling then
      let t := (absSample - kneeStart) / (ceiling - kneeStart) in
      let blend := t * t * (3 - 2 * t) in
      let output := absSample + (ceiling - absSample) * blend * 0.5 in
      sign sample * output
    else
      let excess := absSample - ceiling in
      let normalized := excess / ceiling in
      let compression := 1 - tanh (normalized * 2) * 0.1 in
      let output := Rmin ceiling (absSample * compression) in
      sign sample * output.

(** The largest of the three inter-sample points between [y1] and [y2]. *)
Definition maxInterpolatedOf (w : Window) : R :=
  let '(y0, y1, y2, y3) := w in
  fold_left
    (fun maxInterpolated j =>
       let t := INR j * 0.25 in
       let interpolated := Rabs (interpolateCatmullRom y0 y1 y2 y3 t) in
       if Rgt_dec interpolated maxInterpolated then interpolated else maxInterpolated)
    [1; 2; 3]%nat 0.

(** The loop of [applySoftKneeOversampled], from index [i]. *)
Fixpoint softKneeLoop (ceiling kneeDB : R) (prevSamples : Window) (i : nat)
    (input : list R) : list R :=
  match input with
  | [] => []
  | x :: rest =>
      let prevSamples' := shiftIn prevSamples x in
      let out :=
        if (i <? 3)%nat then applySoftKneeCurve x ceiling kneeDB
        else
          let maxInterpolated := maxInterpolatedOf prevSamples' in
          if Rgt_dec maxInterpolated ceiling then
            let gainReduction := ceiling / maxInterpolated in
            applySoftKneeCurve (x * gainReduction) ceiling kneeDB
          else applySoftKneeCurve x ceiling kneeDB in
      out :: softKneeLoop ceiling kneeDB prevSamples' (S i) rest
  end.

Definition applySoftKneeOversampled (input : list R) (ceiling kneeDB : R) : list R :=
  softKneeLoop ceiling kneeDB emptyWindow 0 input.

(** [sum over ch of channels[ch][i] * channels[ch][i]] *)
Definition sumSquaresAt (chans : list (list R)) (numChannels i : nat) : R :=
  fold_left (fun s ch => s + aget (nth ch chans []) i * aget (nth ch chans []) i)
            (seq 0 numChannels) 0.

(** Stage 0, the RMS envelope: [n] more iterations from index [i]. *)
Fixpoint rmsLoop (chans : list (list R)) (numChannels windowSamples : nat)
    (rmsSum : R) (i n : nat) : list R :=
  match n with
  | O => []
  | S n' =>
      let sampleSum := sumSquaresAt chans numChannels i / INR numChannels in
      let rmsSum1 := rmsSum + sampleSum in
      let rmsSum2 :=
        if (windowSamples <=? i)%nat then
          rmsSum1 - sumSquaresAt chans numChannels (i - windowSamples) / INR numChannels
        else rmsSum1 in
      let windowSize := Nat.min (i + 1) windowSamples in
      sqrt (rmsSum2 / INR windowSize)
        :: rmsLoop chans numChannels windowSamples rmsSum2 (S i) n'
  end.

(** [max over ch of |channels[ch][i]|], starting from 0. *)
Definition peakAt (chans : list (list R)) (numChannels i : nat) : R :=
  fold_left (fun peak ch => Rmax peak (Rabs (aget (nth ch chans []) i)))
            (seq 0 numChannels) 0.

(** Stage 0, the peak envelope. *)
Fixpoint peakLoop (chans : list (list R)) (numChannels : nat)
    (peakAttack peakRelease peakLevel : R) (i n : nat) : list R :=
  match n with
  | O => []
  | S n' =>
      let peak := peakAt chans numChannels i in
      let peakLevel' :=
        if Rgt_dec peak peakLevel then peakAttack * peakLevel + (1 - peakAttack) * peak
        else peakRelease * peakLevel + (1 - peakRelease) * peak in
      peakLevel' :: peakLoop chans numChannels peakAttack peakRelease peakLevel' (S i) n'
  end.

(** One entry of the transient map.  When the peak envelope is 0 the
    source takes [log10(0) = -Infinity] and clamps to 0; [ln 0 = 0] in
    [R] gives the same entry. *)
Definition transientEntry (rmsEnv peakEnv : R) : R :=
  let transientThresholdDB := 10 in
  if Rgt_dec rmsEnv 0.0001 then
    let crestFactorDB := 20 * log10 (peakEnv / rmsEnv) in
    Rmin 1 (Rmax 0 ((crestFactorDB - 6) / (transientThresholdDB - 6)))
  else 0.

Definition computeTransientMap (chans : list (list R)) (numChannels len : nat)
    (sampleRate : R) : list R :=
  let windowMs := 10 in
  let windowSamples := floor (sampleRate * windowMs / 1000) in
  let rmsEnvelope := rmsLoop chans numChannels windowSamples 0 0 len in
  let peakAttack := exp (-1 / (0.001 * sampleRate)) in
  let peakRelease := exp (-1 / (0.050 * sampleRate)) in
  let peakEnvelope := peakLoop chans numChannels peakAttack peakRelease 0 0 len in
  map (fun i => transientEntry (aget rmsEnvelope i) (aget peakEnvelope i)) (seq 0 len).

(** The lookahead ramp written at iteration [i]:
    [targetIndex = Math.max(0, i - lookaheadSamples)] is the truncated
    subtraction on [nat]. *)
Definition lookaheadSpread (gainEnvelope : list R) (i lookaheadSamples : nat)
    (requiredGain : R) : list R :=
  let targetIndex := (i - lookaheadSamples)%nat in
  if Rlt_dec requiredGain (aget gainEnvelope targetIndex) then
    fold_left
      (fun env j =>
         let progress := INR (j - targetIndex) / INR lookaheadSamples in
         let smoothedGain :=
           aget env targetIndex + (requiredGain - aget env targetIndex) * progress in
         aset env j (Rmin (aget env j) smoothedGain))
      (seq targetIndex (i - targetIndex + 1)) gainEnvelope
  else gainEnvelope.

(** The state of the stage-1 loop. *)
Record Stage1State : Type := mkStage1 {
  prevSamplesL : Window;
  prevSamplesR : Window;
  gainEnvelope : list R
}.

(** One iteration of the stage-1 loop; [transientMap] is [None] when
    [preserveTransients] is off. *)
Definition stage1Step (chans : list (list R)) (numChannels : nat)
    (ceilingLinear : R) (lookaheadSamples : nat) (transientMap : option (list R))
    (st : Stage1State) (i : nat) : Stage1State :=
  let prevL := shiftIn (prevSamplesL st) (aget (nth 0 chans []) i) in
  let truePeakL := if (3 <=? i)%nat then calculateTruePeakSample prevL else 0 in
  let prevR :=
    if (1 <? numChannels)%nat then shiftIn (prevSamplesR st) (aget (nth 1 chans []) i)
    else prevSamplesR st in
  let truePeak :=
    if ((1 <? numChannels) && (3 <=? i))%nat
    then Rmax truePeakL (calculateTruePeakSample prevR)
    else truePeakL in
  let effectiveCeiling :=
    match transientMap with
    | Some tm =>
        if Rgt_dec (aget tm i) 0.5
        then ceilingLinear * pow10 (aget tm i * 0.5 / 20)
        else ceilingLinear
    | None => ceilingLinear
    end in
  let requiredGain :=
    if Rgt_dec truePeak effectiveCeiling then effectiveCeiling / truePeak else 1.0 in
  mkStage1 prevL prevR (lookaheadSpread (gainEnvelope st) i lookaheadSamples requiredGain).

Definition stage1 (chans : list (list R)) (numChannels len : nat)
    (ceilingLinear : R) (lookaheadSamples : nat) (transientMap : option (list R)) : list R :=
  gainEnvelope
    (fold_left (stage1Step chans numChannels ceilingLinear lookaheadSamples transientMap)
               (seq 0 len)
               (mkStage1 emptyWindow emptyWindow (repeat 1.0 len))).

(** Stage 1b, the release smoothing, with [currentGain] as loop state. *)
Fixpoint releaseLoop (releaseCoef currentGain : R) (gainEnvelope : list R) : list R :=
  match gainEnvelope with
  | [] => []
  | g :: rest =>
      let currentGain' :=
        if Rlt_dec g currentGain then g
        else Rmin (releaseCoef * currentGain + (1 - releaseCoef) * 1.0) 1.0 in
      currentGain' :: releaseLoop releaseCoef currentGain' rest
  end.

(** The gain envelope after stages 1 and 1b. *)
Definition limiterGainEnvelope (audioBuffer : AudioBuffer)
    (ceilingLinear lookaheadMs releaseMs : R) (preserveTransients : bool) : list R :=
  let sampleRate := sampleRate audioBuffer in
  let numChannels := numberOfChannels audioBuffer in
  let len := length audioBuffer in
  let lookaheadSamples := floor (sampleRate * lookaheadMs / 1000) in
  let releaseCoef := exp (-1 / (releaseMs * sampleRate / 1000)) in
  let chans := channels audioBuffer in
  let transientMap :=
    if preserveTransients
    then Some (computeTransientMap chans numChannels len sampleRate)
    else None in
  releaseLoop releaseCoef 1.0
    (stage1 chans numChannels len ceilingLinear lookaheadSamples transientMap).

(** Stage 2 on one channel: apply the envelope, then the oversampled knee. *)
Definition limitChannel (gainEnvelope : list R) (len : nat) (ceilingLinear kneeDB : R)
    (input : list R) : list R :=
  let output := map (fun i => aget input i * aget gainEnvelope i) (seq 0 len) in
  applySoftKneeOversampled output ceilingLinear kneeDB.

Definition applyLookaheadLimiter (audioBuffer : AudioBuffer)
    (ceilingLinear lookaheadMs releaseMs kneeDB : R) (preserveTransients : bool)
  : AudioBuffer :=
  let gainEnvelope :=
    limiterGainEnvelope audioBuffer ceilingLinear lookaheadMs releaseMs preserveTransients in
  mkAudioBuffer (sampleRate audioBuffer) (length audioBuffer)
    (map (limitChannel gainEnvelope (length audioBuffer) ceilingLinear kneeDB)
         (channels audioBuffer)).

(** ** normalizer.js *)

(** [new AudioBuffer({...})] with the same shape, filled by
    [output[i] = input[i] * gainLinear] on every channel. *)
Definition gainedCopy (audioBuffer : AudioBuffer) (gainLinear : R) : AudioBuffer :=
  mkAudioBuffer (sampleRate audioBuffer) (length audioBuffer)
    (map (map (fun x => x * gainLinear)) (channels audioBuffer)).

Definition applyGain (audioBuffer : AudioBuffer) (gainDB : R) : AudioBuffer :=
  let gainLinear := pow10 (gainDB / 20) in
  gainedCopy audioBuffer gainLinear.

Record NormalizeOptions : Type := mkOptions { skipLimiter : bool }.

(** [normalizeToLUFS]; [None] when a loudness measurement does not
    terminate.  The console output is left out. *)
Definition normalizeToLUFS (audioBuffer : AudioBuffer) (targetLUFS ceilingDB : R)
    (options : NormalizeOptions) : option AudioBuffer :=
  match measureLUFS audioBuffer (Num targetLUFS) with
  | None => None
  | Some currentLUFS =>
      let currentPeakDB := findTruePeak audioBuffer in
      match currentLUFS with
      | Num current =>
          let lufsGainDB := targetLUFS - current in
          let gainLinear := pow10 (lufsGainDB / 20) in
          let projectedPeakDB := jsAddNum currentPeakDB lufsGainDB in
          let ceilingLinear := pow10 (ceilingDB / 20) in
          let gainedBuffer := gainedCopy audioBuffer gainLinear in
          if skipLimiter options then Some gainedBuffer
          else if jsGtNum projectedPeakDB ceilingDB then
            let limitedBuffer :=
              applyLookaheadLimiter gainedBuffer ceilingLinear 3 100
                LIMITER_DEFAULTS.KNEE_DB LIMITER_DEFAULTS.PRESERVE_TRANSIENTS in
            match measureLUFS limitedBuffer (Num (-14)) with
            | None => None
            | Some _ => Some limitedBuffer
            end
          else Some gainedBuffer
      | _ => Some audioBuffer
      end
  end.

(** ** stereo.js *)

(** What a call leaves behind besides its result: console warnings and
    progress reports. *)
Inductive Event : Type :=
| Warn (message : string)
| Progress (fraction : R) (status : string).

Record StereoProcessor : Type := mkStereoProcessor {
  width : R;
  bassMono : bool;
  bassFreq : R;
  balance : R;
  midGain : R;
  sideGain : R
}.

Module STEREO_DEFAULTS.
Definition WIDTH : R := 1.0.
Definition BASS_MONO : bool := true.
Definition BASS_FREQ : R := 200.
Definition BALANCE : R := 0.0.
Definition MID_GAIN : R := 0.
Definition SIDE_GAIN : R := 0.
End STEREO_DEFAULTS.

(** The local [calcHighpassCoeffs] of stereo.js (Q fixed at 0.7071). *)
Definition calcHighpassCoeffs (sampleRate frequency : R) : BiquadCoeffs :=
  let omega := 2 * PI * frequency / sampleRate in
  let cos_ := cos omega in
  let sin_ := sin omega in
  let alpha := sin_ / (2 * 0.7071) in
  let b0 := (1 + cos_) / 2 in
  let b1 := - (1 + cos_) in
  let b2 := (1 + cos_) / 2 in
  let a0 := 1 + alpha in
  let a1 := -2 * cos_ in
  let a2 := 1 - alpha in
  mkCoeffs (b0 / a0) (b1 / a0) (b2 / a0) (a1 / a0) (a2 / a0).

Definition applyFilter (samples : list R) (coeffs : BiquadCoeffs) : list R :=
  biquadLoop coeffs 0 0 0 0 samples.

Definition encodeMS (left right : list R) : list R * list R :=
  let n := List.length left in
  (map (fun i => (aget left i + aget right i) * 0.5) (seq 0 n),
   map (fun i => (aget left i - aget right i) * 0.5) (seq 0 n)).

Definition decodeMS (mid side : list R) : list R * list R :=
  let n := List.length mid in
  (map (fun i => aget mid i + aget side i) (seq 0 n),
   map (fun i => aget mid i - aget side i) (seq 0 n)).

(** The width stage of [process]: [mid * midGainLin] and
    [side * sideGainLin], with [sideGainLin = dbToLinear(sideGain) * width]. *)
Definition applyWidth (this : StereoProcessor) (mid processedSide : list R)
  : list R * list R :=
  let midGainLin := dbToLinear (midGain this) in
  let sideGainLin := dbToLinear (sideGain this) * width this in
  let n := List.length mid in
  (map (fun i => aget mid i * midGainLin) (seq 0 n),
   map (fun i => aget processedSide i * sideGainLin) (seq 0 n)).

(** [StereoProcessor.process(buffer, onProgress)]; [onProgress] says
    whether a callback was passed. *)
Definition process (this : StereoProcessor) (buffer : AudioBuffer) (onProgress : bool)
  : AudioBuffer * list Event :=
  if negb (numberOfChannels buffer =? 2)%nat then
    (buffer, [Warn "[Stereo] Input is not stereo, returning unchanged"%string])
  else
    let report fraction := if onProgress then [Progress fraction EmptyString] else [] in
    let left := getChannelData buffer 0 in
    let right := getChannelData buffer 1 in
    let '(mid, side) := encodeMS left right in
    let processedSide :=
      if bassMono this && (if Rgt_dec (bassFreq this) 0 then true else false) then
        applyFilter side (calcHighpassCoeffs (sampleRate buffer) (bassFreq this))
      else side in
    let '(processedMid, processedSideFinal) := applyWidth this mid processedSide in
    let '(decodedLeft, decodedRight) := decodeMS processedMid processedSideFinal in
    let balanceL := if Rlt_dec (balance this) 0 then 1 else 1 - balance this in
    let balanceR := if Rgt_dec (balance this) 0 then 1 else 1 + balance this in
    let outLeft := map (fun x => x * balanceL) decodedLeft in
    let outRight := map (fun x => x * balanceR) decodedRight in
    (mkAudioBuffer (sampleRate buffer) (length buffer) [outLeft; outRight],
     report 0.2 ++ report 0.4 ++ report 0.6 ++ report 1.0).

(** The worker's copy, [applyStereoProcessingToChannels]. *)
Record StereoOptions : Type := mkStereoOptions {
  opt_width : option R;
  opt_bassMono : option bool;
  opt_bassFreq : option R;
  opt_balance : option R;
  opt_midGain : option R;
  opt_sideGain : option R
}.

(** [value ?? fallback] *)
Definition orElse {A : Type} (value : option A) (fallback : A) : A :=
  match value with Some v => v | None => fallback end.

Definition applyStereoProcessingToChannels (chans : list (list R)) (sampleRate : R)
    (id : option nat) (options : StereoOptions) : list (list R) * list Event :=
  if negb (List.length chans =? 2)%nat then
    (chans, [Warn "[Worker Stereo] Not stereo, returning unchanged"%string])
  else
    let report fraction (status : string) :=
      match id with None => [] | Some _ => [Progress fraction status] end in
    let this :=
      mkStereoProcessor (orElse (opt_width options) 1.0)
                        (orElse (opt_bassMono options) true)
                        (orElse (opt_bassFreq options) 200)
                        (orElse (opt_balance options) 0.0)
                        (orElse (opt_midGain options) 0)
                        (orElse (opt_sideGain options) 0) in
    let left := nth 0 chans [] in
    let right := nth 1 chans [] in
    let '(mid, side) := encodeMS left right in
    let processedSide :=
      if bassMono this && (if Rgt_dec (bassFreq this) 0 then true else false) then
        applyFilter side (calcHighpassCoeffs sampleRate (bassFreq this))
      else side in
    let '(processedMid, processedSideFinal) := applyWidth this mid processedSide in
    let '(outLeft, outRight) := decodeMS processedMid processedSideFinal in
    let balanceL := if Rlt_dec (balance this) 0 then 1 else 1 - balance this in
    let balanceR := if Rgt_dec (balance this) 0 then 1 else 1 + balance this in
    ([map (fun x => x * balanceL) outLeft; map (fun x => x * balanceR) outRight],
     report 0.2 "M/S encoding..."%string ++ report 0.4 "Bass mono filter..."%string
       ++ report 0.6 "Applying width..."%string ++ report 1.0 "Complete"%string).

(** ** dynamic-processor.js: the gain computer *)

Record GainComputer : Type := mkGainComputer {
  thresholdDb : R;
  ratio : R;
  kneeDb : R;
  kneeStart : R;
  kneeEnd : R
}.

(** [new GainComputer(thresholdDb, ratio, kneeDb)] *)
Definition newGainComputer (thresholdDb ratio kneeDb : R) : GainComputer :=
  mkGainComputer thresholdDb ratio kneeDb
                 (thresholdDb - kneeDb / 2) (thresholdDb + kneeDb / 2).

Definition computeGainDb (this : GainComputer) (inputDb : R) : R :=
  if Rle_dec inputDb (kneeStart this) then 0
  else if Rge_dec inputDb (kneeEnd this) then
    let excess := inputDb - thresholdDb this in
    let compressed := excess / ratio this in
    compressed - excess
  else
    let kneeProgress := (inputDb - kneeStart this) / kneeDb this in
    let fullReduction := (inputDb - thresholdDb this) * (1 - 1 / ratio this) in
    - fullReduction * kneeProgress * kneeProgress.

(** ** Vocabulary of the statements and example buffers *)

(** A channel of silence. *)
Definition allZero (samples : list R) : Prop := Forall (fun x => x = 0) samples.

(** The history after the samples [pre] have been shifted in. *)
Definition historyAfter (pre : list R) : Window := fold_left shiftIn pre emptyWindow.

(** The [j]-th most recent sample of [pre], 0 before the start. *)
Definition recent (pre : list R) (j : nat) : R :=
  if (j <=? List.length pre)%nat then aget pre (List.length pre - j) else 0.

(** Pointwise order on envelopes. *)
Definition envLe (e1 e2 : list R) : Prop := forall j, aget e1 j <= aget e2 j.

(** The normalizer's gain as the specification words it, read with the
    IEEE-754 rules for a non-finite measurement:
    [gain = targetLUFS - measuredLUFS]. *)
Definition specifiedGainDb (targetLUFS : R) (measuredLUFS : jsnum) : jsnum :=
  match measuredLUFS with
  | Num measured => Num (targetLUFS - measured)
  | PosInfinity => NegInfinity
  | NegInfinity => PosInfinity
  | NaN => NaN
  end.

(** [10^(gain/20)] *)
Definition specifiedGainLinear (gainDb : jsnum) : jsnum :=
  match gainDb with
  | Num g => Num (pow10 (g / 20))
  | PosInfinity => PosInfinity
  | NegInfinity => Num 0
  | NaN => NaN
  end.

(** [sample * 10^(gain/20)] *)
Definition specifiedSample (sample : R) (gainLinear : jsnum) : jsnum :=
  match gainLinear with
  | Num g => Num (sample * g)
  | PosInfinity =>
      if Rlt_dec 0 sample then PosInfinity
      else if Rlt_dec sample 0 then NegInfinity else NaN
  | NegInfinity =>
      if Rlt_dec 0 sample then NegInfinity
      else if Rlt_dec sample 0 then PosInfinity else NaN
  | NaN => NaN
  end.

(** Half a second of silence at 8 kHz that ends in one full-scale sample:
    3999 samples, so that only the block [0, 3200) is measured. *)
Definition clickAtEnd : AudioBuffer := mkAudioBuffer 8000 3999 [repeat 0 3998 ++ [1]].

(** Four samples at 48 kHz, each at 88% of the ceiling [c], shaped so that
    the curve through them peaks between the two middle samples. *)
Definition burst (c : R) : list R := [- (0.88 * c); 0.88 * c; 0.88 * c; - (0.88 * c)].
Definition burstBuffer (c : R) : AudioBuffer := mkAudioBuffer 48000 4 [burst c].

(** Decide the real comparisons left in the goal, closing the branches
    that contradict the arithmetic at hand. *)
Ltac rcase :=
  match goal with
  | |- context [Rcase_abs ?a] => destruct (Rcase_abs a); try (exfalso; lra)
  | H : context [Rcase_abs ?a] |- _ => destruct (Rcase_abs a); try (exfalso; lra)
  | H : context [Rle_dec ?a ?b] |- _ => destruct (Rle_dec a b); try (exfalso; lra)
  | H : context [Rlt_dec ?a ?b] |- _ => destruct (Rlt_dec a b); try (exfalso; lra)
  | H : context [Rgt_dec ?a ?b] |- _ => destruct (Rgt_dec a b); try (exfalso; lra)
  | H : context [Rge_dec ?a ?b] |- _ => destruct (Rge_dec a b); try (exfalso; lra)
  | |- context [Rle_dec ?a ?b] => destruct (Rle_dec a b); try (exfalso; lra)
  | |- context [Rlt_dec ?a ?b] => destruct (Rlt_dec a b); try (exfalso; lra)
  | |- context [Rgt_dec ?a ?b] => destruct (Rgt_dec a b); try (exfalso; lra)
  | |- context [Rge_dec ?a ?b] => destruct (Rge_dec a b); try (exfalso; lra)
  end.

Ltac rcases := unfold Rmax, Rmin, Rabs; repeat rcase.

(** Equality of two lists of reals, entry by entry. *)
Ltac list_lra := repeat (apply (f_equal2 (@cons R)); [lra|]); reflexivity.

(** ** More of utils.js, normalizer.js and lufs.js *)

(** [findPeak(samples)] *)
Definition findPeak (samples : list R) : R :=
  fold_left (fun peak x => let abs := Rabs x in if Rgt_dec abs peak then abs else peak)
            samples 0.

(** [calculateLufsGain(audioBuffer, targetLUFS)]: the measurement takes
    the default fallback -14; [None] when it does not terminate. *)
Definition calculateLufsGain (audioBuffer : AudioBuffer) (targetLUFS : R) : option R :=
  match measureLUFS audioBuffer (Num (-14)) with
  | None => None
  | Some currentLUFS =>
      match currentLUFS with
      | Num current => Some (targetLUFS - current)
      | _ => Some 0
      end
  end.

(** [x * Infinity] for a finite [x]. *)
Definition timesInfinity (x : R) : jsnum :=
  if Rlt_dec 0 x then PosInfinity else if Rlt_dec x 0 then NegInfinity else NaN.

(** [normalizeToPeak(audioBuffer, targetPeakDB)].  With a measurable peak
    the gain is finite and the result is [applyGain]'s buffer ([inl]).  A
    peak of [-Infinity] makes [gainDB = +Infinity] and [gainLinear =
    Infinity]: the result holds [x * Infinity] for every sample [x]
    ([inr], the channels of the returned buffer).  [findTruePeak] returns
    neither [+Infinity] nor [NaN]; those arms follow the same arithmetic
    (a gain of [-Infinity] dB is the linear gain 0). *)
Definition normalizeToPeak (audioBuffer : AudioBuffer) (targetPeakDB : R)
  : AudioBuffer + list (list jsnum) :=
  match findTruePeak audioBuffer with
  | Num currentPeakDB => inl (applyGain audioBuffer (targetPeakDB - currentPeakDB))
  | NegInfinity => inr (map (map timesInfinity) (channels audioBuffer))
  | PosInfinity => inl (gainedCopy audioBuffer 0)
  | NaN => inr (map (map (fun _ => NaN)) (channels audioBuffer))
  end.

(** [array.subarray(start, end)] *)
Definition subarray (a : list R) (startSample endSample : nat) : list R :=
  firstn (endSample - startSample) (skipn startSample a).

(** [measureMomentaryLUFS(audioBuffer, position)], for [position >= 0].
    With no channel or an empty window nothing is summed and the mean
    square is [0 / 0 = NaN], which passes the [<= 0] test and comes out of
    the logarithm as [NaN]. *)
Definition measureMomentaryLUFS (audioBuffer : AudioBuffer) (position : R) : jsnum :=
  let sampleRate := sampleRate audioBuffer in
  let windowMs := 400 in
  let windowSamples := floor (sampleRate * windowMs / 1000) in
  let startSample := floor (position * sampleRate) in
  let endSample := Nat.min (startSample + windowSamples) (length audioBuffer) in
  if Rlt_dec (INR endSample - INR startSample) (INR windowSamples * 0.5) then NegInfinity
  else
    let numChannels := numberOfChannels audioBuffer in
    let chans := map (fun ch => subarray ch startSample endSample) (channels audioBuffer) in
    let sumSquares :=
      fold_left
        (fun s ch =>
           let filtered := kWeight sampleRate (nth ch chans []) in
           fold_left (fun s x => s + x * x) filtered s)
        (seq 0 numChannels) 0 in
    if (((endSample - startSample) * numChannels)%nat =? 0)%nat then NaN
    else
      let meanSquare := sumSquares / ((INR endSample - INR startSample) * INR numChannels) in
      if Rle_dec meanSquare 0 then NegInfinity
      else Num (LUFS_CONSTANTS.LOUDNESS_OFFSET + 10 * log10 meanSquare).

(** [measureShortTermLUFS(audioBuffer, position)], for [position >= 0]
    and channels that hold [length] samples; [None] when the inner
    [measureLUFS] does not terminate. *)
Definition measureShortTermLUFS (audioBuffer : AudioBuffer) (position : R) : option jsnum :=
  let sampleRate := sampleRate audioBuffer in
  let windowMs := 3000 in
  let windowSamples := floor (sampleRate * windowMs / 1000) in
  let startSample := floor (position * sampleRate) in
  let endSample := Nat.min (startSample + windowSamples) (length audioBuffer) in
  if Rlt_dec (INR endSample - INR startSample) (INR windowSamples * 0.5) then
    Some NegInfinity
  else
    let tempBuffer :=
      mkAudioBuffer sampleRate (endSample - startSample)
        (map (fun source =>
                map (fun i => aget source (startSample + i))
                    (seq 0 (endSample - startSample)))
             (channels audioBuffer)) in
    measureLUFS tempBuffer (Num (-14)).

(** ** dynamic-processor.js: the envelope follower and the resonance detector *)

Record EnvelopeFollower : Type := mkEnvelopeFollower {
  ef_sampleRate : R;
  envelope : R;
  attackCoef : R;
  releaseCoef : R
}.

(** [new EnvelopeFollower(sampleRate, attackMs, releaseMs)] *)
Definition newEnvelopeFollower (sampleRate attackMs releaseMs : R) : EnvelopeFollower :=
  mkEnvelopeFollower sampleRate 0
    (exp (-1 / (sampleRate * attackMs / 1000)))
    (exp (-1 / (sampleRate * releaseMs / 1000))).

(** [follower.process(input)]: the updated follower and the value returned. *)
Definition followerProcess (this : EnvelopeFollower) (input : R) : EnvelopeFollower * R :=
  let abs := Rabs input in
  let envelope' :=
    if Rgt_dec abs (envelope this)
    then attackCoef this * envelope this + (1 - attackCoef this) * abs
    else releaseCoef this * envelope this + (1 - releaseCoef this) * abs in
  (mkEnvelopeFollower (ef_sampleRate this) envelope' (attackCoef this) (releaseCoef this),
   envelope').

(** [follower.reset()] *)
Definition followerReset (this : EnvelopeFollower) : EnvelopeFollower :=
  mkEnvelopeFollower (ef_sampleRate this) 0 (attackCoef this) (releaseCoef this).

(** The values [process] returns on a stream of inputs. *)
Fixpoint followerRun (this : EnvelopeFollower) (inputs : list R) : list R :=
  match inputs with
  | [] => []
  | x :: rest =>
      let '(this', out) := followerProcess this x in
      out :: followerRun this' rest
  end.

Record ResonanceDetector : Type := mkResonanceDetector {
  numBins : nat;
  smoothingFactor : R;
  averageSpectrum : list R;
  peakSpectrum : list R;
  initialized : bool
}.

(** [new ResonanceDetector(numBins, smoothingFactor)] *)
Definition newResonanceDetector (numBins : nat) (smoothingFactor : R) : ResonanceDetector :=
  mkResonanceDetector numBins smoothingFactor (repeat 0 numBins) (repeat 0 numBins) false.

(** The body of the update loop of [analyze] for bin [i]: the new average,
    the new peak and the resonance of the bin. *)
Definition analyzeBin (this : ResonanceDetector) (magnitudes : list R) (i : nat)
  : R * R * R :=
  let mag := aget magnitudes i in
  let avg := smoothingFactor this * mag
             + (1 - smoothingFactor this) * aget (averageSpectrum this) i in
  let peak :=
    if Rgt_dec mag (aget (peakSpectrum this) i) then mag
    else aget (peakSpectrum this) i * 0.999 in
  let resonance :=
    if Rgt_dec avg 1e-10 then
      if Rgt_dec mag (avg * 1.5) then
        let excess := mag / avg in
        Rmin 1 ((excess - 1.5) / 2)
      else 0
    else 0 in
  (avg, peak, resonance).

(** [detector.analyze(magnitudes)]: the updated detector and the
    resonance array. *)
Definition analyze (this : ResonanceDetector) (magnitudes : list R)
  : ResonanceDetector * list R :=
  let bins := seq 0 (numBins this) in
  if negb (initialized this) then
    (mkResonanceDetector (numBins this) (smoothingFactor this)
       (fold_left (fun a i => aset a i (aget magnitudes i)) bins (averageSpectrum this))
       (fold_left (fun a i => aset a i (aget magnitudes i)) bins (peakSpectrum this))
       true,
     repeat 0 (numBins this))
  else
    (mkResonanceDetector (numBins this) (smoothingFactor this)
       (fold_left (fun a i => aset a i (fst (fst (analyzeBin this magnitudes i))))
                  bins (averageSpectrum this))
       (fold_left (fun a i => aset a i (snd (fst (analyzeBin this magnitudes i))))
                  bins (peakSpectrum this))
       true,
     map (fun i => snd (analyzeBin this magnitudes i)) bins).

(** ** stereo.js: presets and convenience functions *)

(** [STEREO_PRESETS[presetName]]: width, bassMono, bassFreq.  The six
    presets of the table; a name the object inherits from
    [Object.prototype] is not modelled. *)
Definition STEREO_PRESETS (presetName : string) : option (R * bool * R) :=
  if String.eqb presetName "mono" then Some (0, false, 200)
  else if String.eqb presetName "narrow" then Some (0.5, true, 200)
  else if String.eqb presetName "normal" then Some (1.0, true, 200)
  else if String.eqb presetName "wide" then Some (1.3, true, 150)
  else if String.eqb presetName "extraWide" then Some (1.6, true, 120)
  else if String.eqb presetName "superWide" then Some (2.0, true, 100)
  else None.

(** [new StereoProcessor()] with no options. *)
Definition defaultStereoProcessor : StereoProcessor :=
  mkStereoProcessor STEREO_DEFAULTS.WIDTH STEREO_DEFAULTS.BASS_MONO
    STEREO_DEFAULTS.BASS_FREQ STEREO_DEFAULTS.BALANCE
    STEREO_DEFAULTS.MID_GAIN STEREO_DEFAULTS.SIDE_GAIN.

(** [processor.applyPreset(presetName)] *)
Definition applyPreset (this : StereoProcessor) (presetName : string) : StereoProcessor :=
  match STEREO_PRESETS presetName with
  | Some (presetWidth, presetBassMono, presetBassFreq) =>
      mkStereoProcessor presetWidth presetBassMono presetBassFreq
                        (balance this) (midGain this) (sideGain this)
  | None => this
  end.

(** [adjustStereoWidth(buffer, width, bassMono, bassFreq, onProgress)] *)
Definition adjustStereoWidth (buffer : AudioBuffer) (width : R) (bassMono : bool)
    (bassFreq : R) (onProgress : bool) : AudioBuffer * list Event :=
  let processor :=
    mkStereoProcessor width bassMono bassFreq STEREO_DEFAULTS.BALANCE
                      STEREO_DEFAULTS.MID_GAIN STEREO_DEFAULTS.SIDE_GAIN in
  process processor buffer onProgress.

(** [applyStereoPreset(buffer, preset, onProgress)] *)
Definition applyStereoPreset (buffer : AudioBuffer) (preset : string) (onProgress : bool)
  : AudioBuffer * list Event :=
  let processor := applyPreset defaultStereoProcessor preset in
  process processor buffer onProgress.

(** [stereoToMono(buffer, onProgress)] *)
Definition stereoToMono (buffer : AudioBuffer) (onProgress : bool)
  : AudioBuffer * list Event :=
  applyStereoPreset buffer "mono" onProgress.

(** [widenStereo(buffer, amount, onProgress)] *)
Definition widenStereo (buffer : AudioBuffer) (amount : R) (onProgress : bool)
  : AudioBuffer * list Event :=
  adjustStereoWidth buffer amount true 200 onProgress.

(** [applyBassMono(buffer, frequency, onProgress)] *)
Definition applyBassMono (buffer : AudioBuffer) (frequency : R) (onProgress : bool)
  : AudioBuffer * list Event :=
  adjustStereoWidth buffer 1.0 true frequency onProgress.

(** ** The worker's mastering soft clipper and glue compressor *)

(** The lookahead ramp of the soft clipper at sample [i]: the ramp is
    normalised by the distance to [startIdx], [Math.max(1, i - startIdx)]. *)
Definition softClipSpread (gainEnvelope : list R) (i lookaheadSamples : nat)
    (requiredGain : R) : list R :=
  let startIdx := (i - lookaheadSamples)%nat in
  fold_left
    (fun env j =>
       let t := INR (j - startIdx) / INR (Nat.max 1 (i - startIdx)) in
       let interpolatedGain := 1.0 + (requiredGain - 1.0) * t in
       aset env j (Rmin (aget env j) interpolatedGain))
    (seq startIdx (i - startIdx + 1)) gainEnvelope.

(** One iteration of the detection loop on sample [i] of [input]. *)
Definition softClipStep (input : list R) (ceilingLin thresholdLin drive : R)
    (lookaheadSamples : nat) (gainEnvelope : list R) (i : nat) : list R :=
  let abs := Rabs (aget input i) in
  if Rgt_dec abs thresholdLin then
    let excess := abs - thresholdLin in
    let range := ceilingLin - thresholdLin in
    let normalized := excess / Rmax range 0.001 in
    let saturated := tanh (normalized * drive) in
    let targetLevel := thresholdLin + saturated * range in
    let requiredGain := targetLevel / abs in
    softClipSpread gainEnvelope i lookaheadSamples requiredGain
  else gainEnvelope.

(** The final safety clip of one sample. *)
Definition softClipFinal (ceilingLin sample : R) : R :=
  let abs := Rabs sample in
  if Rgt_dec abs ceilingLin then
    let excess := (abs - ceilingLin) / ceilingLin in
    let reduction := 1 - tanh (excess * 2) * 0.1 in
    sign sample * Rmin (abs * reduction) ceilingLin
  else sample.

(** The gain envelope of the soft clipper after detection and release. *)
Definition softClipEnvelope (chans : list (list R)) (len : nat) (sampleRate : R)
    (ceilingDB lookaheadMs releaseMs drive : R) : list R :=
  let ceilingLin := pow10 (ceilingDB / 20) in
  let thresholdLin := pow10 ((ceilingDB + 3) / 20) in
  let lookaheadSamples := floor (sampleRate * lookaheadMs / 1000) in
  let releaseCoef := exp (-1 / (releaseMs * sampleRate / 1000)) in
  let detected :=
    fold_left
      (fun env input =>
         fold_left (softClipStep input ceilingLin thresholdLin drive lookaheadSamples)
                   (seq 0 len) env)
      chans (repeat 1.0 len) in
  releaseLoop releaseCoef 1.0 detected.

(** [applyMasteringSoftClipToChannels(channels, sampleRate, ceilingDB,
    lookaheadMs, releaseMs, drive)]; [None] is the TypeError of
    [channels[0].length] on an empty channel list. *)
Definition applyMasteringSoftClipToChannels (chans : list (list R)) (sampleRate : R)
    (ceilingDB lookaheadMs releaseMs drive : R) : option (list (list R)) :=
  match chans with
  | [] => None
  | first :: _ =>
      let len := List.length first in
      let ceilingLin := pow10 (ceilingDB / 20) in
      let gainEnvelope :=
        softClipEnvelope chans len sampleRate ceilingDB lookaheadMs releaseMs drive in
      Some (map (fun input =>
                   map (fun i => softClipFinal ceilingLin (aget input i * aget gainEnvelope i))
                       (seq 0 len))
                chans)
  end.

Record GlueOptions : Type := mkGlueOptions {
  glue_threshold : R;
  glue_ratio : R;
  glue_attack : R;
  glue_release : R;
  glue_knee : R
}.

(** The detection loop of the glue compressor: [envelope] is the loop
    state, the result is the gain curve. *)
Fixpoint glueGainLoop (thresholdLin ratio attackCoef releaseCoef envelope : R)
    (sidechain : list R) : list R :=
  match sidechain with
  | [] => []
  | s :: rest =>
      let inputAbs := Rabs s in
      let envelope' :=
        if Rgt_dec inputAbs envelope
        then attackCoef * envelope + (1 - attackCoef) * inputAbs
        else releaseCoef * envelope + (1 - releaseCoef) * inputAbs in
      let gain :=
        if Rgt_dec envelope' thresholdLin then
          let overDB := 20 * log10 (envelope' / thresholdLin) in
          let reductionDB := overDB * (1 - 1 / ratio) in
          pow10 (- reductionDB / 20)
        else 1.0 in
      gain :: glueGainLoop thresholdLin ratio attackCoef releaseCoef envelope' rest
  end.

(** The stereo-linked sidechain: the average of the first two channels,
    or the only channel. *)
Definition glueSidechain (chans : list (list R)) (len : nat) : list R :=
  if (2 <=? List.length chans)%nat then
    map (fun i => (aget (nth 0 chans []) i + aget (nth 1 chans []) i) * 0.5) (seq 0 len)
  else map (fun i => aget (nth 0 chans []) i) (seq 0 len).

(** [applyGlueCompressor(buffer, options)]; [None] is the TypeError of
    [channels[0].length] on a buffer without channels. *)
Definition applyGlueCompressor (buffer : AudioBuffer) (options : GlueOptions)
  : option AudioBuffer :=
  match channels buffer with
  | [] => None
  | first :: _ =>
      let sampleRate := sampleRate buffer in
      let len := List.length first in
      let sidechain := glueSidechain (channels buffer) len in
      let thresholdLin := pow10 (glue_threshold options / 20) in
      let attackCoef := exp (-1 / (glue_attack options * sampleRate)) in
      let releaseCoef := exp (-1 / (glue_release options * sampleRate)) in
      let gainCurve :=
        glueGainLoop thresholdLin (glue_ratio options) attackCoef releaseCoef 0 sidechain in
      Some (mkAudioBuffer sampleRate len
              (map (fun input => map (fun i => aget input i * aget gainCurve i) (seq 0 len))
                   (channels buffer)))
  end.

(** All four samples of a window are within [M] in magnitude. *)
Definition windowWithin (M : R) (w : Window) : Prop :=
  let '(y0, y1, y2, y3) := w in
  Rabs y0 <= M /\ Rabs y1 <= M /\ Rabs y2 <= M /\ Rabs y3 <= M.

(** * Properties *)

(** ** Arrays and arithmetic helpers *)

Lemma map_aget_seq (l : list R) : map (aget l) (seq 0 (List.length l)) = l.
Proof.
  induction l as [|x l IH]; simpl; [reflexivity|].
  f_equal. rewrite <- seq_shift, map_map. exact IH.
Qed.

Lemma map_seq_eq (l : list R) (f : nat -> R) (n : nat) :
  n = List.length l ->
  (forall i, (i < n)%nat -> f i = aget l i) ->
  map f (seq 0 n) = l.
Proof.
  intros -> H. transitivity (map (aget l) (seq 0 (List.length l))).
  - apply map_ext_in; intros i Hi. apply in_seq in Hi. apply H; lia.
  - apply map_aget_seq.
Qed.

Lemma aget_map_seq (n : nat) (f : nat -> R) (i : nat) :
  (i < n)%nat -> aget (map f (seq 0 n)) i = f i.
Proof.
  intros Hi. unfold aget.
  rewrite (nth_indep _ 0 (f 0%nat)) by (rewrite length_map, length_seq; lia).
  rewrite map_nth, seq_nth by lia. reflexivity.
Qed.

Lemma pow10_add (x y : R) : pow10 (x + y) = pow10 x * pow10 y.
Proof. unfold pow10. apply Rpower_plus. Qed.

Lemma pow10_0 : pow10 0 = 1.
Proof. unfold pow10. apply Rpower_O. lra. Qed.

Lemma pow10_1 : pow10 1 = 10.
Proof. unfold pow10. apply Rpower_1. lra. Qed.

Lemma pow10_pos (x : R) : 0 < pow10 x.
Proof. unfold pow10, Rpower. apply exp_pos. Qed.

Lemma dbToLinear_0 : dbToLinear 0 = 1.
Proof. unfold dbToLinear. replace (0 / 20) with 0 by lra. apply pow10_0. Qed.

(** ** Gain linearity (normalizer.js, applyGain) *)

(** C7. Applying [applyGain] with [g1] and then with [g2] gives the very
    buffer that one [applyGain] with [g1 + g2] gives: over exact arithmetic
    [10^(g1/20) * 10^(g2/20) = 10^((g1+g2)/20)]. *)
Theorem applyGain_additive (audioBuffer : AudioBuffer) (g1 g2 : R) :
  applyGain (applyGain audioBuffer g1) g2 = applyGain audioBuffer (g1 + g2).
Proof.
  unfold applyGain, gainedCopy; simpl. f_equal.
  rewrite map_map. apply map_ext; intros ch.
  rewrite map_map. apply map_ext; intros x.
  replace ((g1 + g2) / 20) with (g1 / 20 + g2 / 20) by lra.
  rewrite pow10_add. ring.
Qed.

(** ** The stereo processor (stereo.js and the worker's copy) *)

(** C9. On a buffer whose channel count is not 2, [process] returns the
    input buffer itself, with one warning and nothing else, whatever the
    width, bass-mono, gain and balance settings; the worker's
    [applyStereoProcessingToChannels] does the same on the channel list.
    Both models are total functions: no setting makes them fail. *)
Theorem process_non_stereo_passthrough (this : StereoProcessor) (buffer : AudioBuffer)
    (onProgress : bool) (id : option nat) (options : StereoOptions) :
  numberOfChannels buffer <> 2%nat ->
  process this buffer onProgress
    = (buffer, [Warn "[Stereo] Input is not stereo, returning unchanged"%string])
  /\ applyStereoProcessingToChannels (channels buffer) (sampleRate buffer) id options
    = (channels buffer, [Warn "[Worker Stereo] Not stereo, returning unchanged"%string]).
Proof.
  intros Hn. unfold process, applyStereoProcessingToChannels, numberOfChannels in *.
  apply Nat.eqb_neq in Hn. rewrite Hn. simpl. split; reflexivity.
Qed.

Lemma process_non_stereo_passthrough_mono :
  fst (process (mkStereoProcessor 2.0 true 100 0.3 1 (-2))
               (mkAudioBuffer 48000 3 [[0.5; -0.25; 1]]) true)
    = mkAudioBuffer 48000 3 [[0.5; -0.25; 1]]
  /\ fst (applyStereoProcessingToChannels [[0.5; -0.25; 1]] 48000 (Some 7%nat)
            (mkStereoOptions (Some 2.0) None None None None None))
    = [[0.5; -0.25; 1]].
Proof.
  destruct (process_non_stereo_passthrough
              (mkStereoProcessor 2.0 true 100 0.3 1 (-2))
              (mkAudioBuffer 48000 3 [[0.5; -0.25; 1]]) true (Some 7%nat)
              (mkStereoOptions (Some 2.0) None None None None None)) as [H1 H2].
  - unfold numberOfChannels; simpl; lia.
  - rewrite H1. simpl in H2. rewrite H2. split; reflexivity.
Defined.

(** C6. For equal-length channels [L] and [R], decoding the M/S encoding
    gives back [L] and [R]; the same holds with the width stage of
    [process] in between when width = 1 and both gains are 0 dB; and
    [process] itself, with bass mono off and balance 0 besides, returns the
    two input channels. *)
Theorem decodeMS_encodeMS_roundtrip (L R_ : list R) :
  List.length L = List.length R_ ->
  (let '(mid, side) := encodeMS L R_ in decodeMS mid side = (L, R_))
  /\ (forall this : StereoProcessor,
        width this = 1 -> midGain this = 0 -> sideGain this = 0 ->
        (let '(mid, side) := encodeMS L R_ in
         let '(processedMid, processedSide) := applyWidth this mid side in
         decodeMS processedMid processedSide = (L, R_))
        /\ (bassMono this = false -> balance this = 0 ->
            forall (sr : R) (onProgress : bool),
              channels (fst (process this (mkAudioBuffer sr (List.length L) [L; R_])
                               onProgress)) = [L; R_])).
Proof.
  intros Hlen.
  assert (Hdec : forall f g : R -> R -> R,
             (forall a b, f a b + g a b = a) -> (forall a b, f a b - g a b = b) ->
             decodeMS (map (fun i => f (aget L i) (aget R_ i)) (seq 0 (List.length L)))
                      (map (fun i => g (aget L i) (aget R_ i)) (seq 0 (List.length L)))
             = (L, R_)).
  { intros f g Hl Hr. unfold decodeMS. rewrite length_map, length_seq. f_equal.
    - apply map_seq_eq; [reflexivity|]; intros i Hi.
      rewrite !aget_map_seq by lia. apply Hl.
    - apply map_seq_eq; [exact Hlen|]; intros i Hi.
      rewrite !aget_map_seq by lia. apply Hr. }
  split.
  - unfold encodeMS.
    apply (Hdec (fun a b => (a + b) * 0.5) (fun a b => (a - b) * 0.5)); intros; lra.
  - intros this Hw Hm Hs.
    assert (Hwidth : applyWidth this (fst (encodeMS L R_)) (snd (encodeMS L R_))
                     = encodeMS L R_).
    { unfold applyWidth, encodeMS; simpl. rewrite Hw, Hm, Hs, dbToLinear_0.
      rewrite length_map, length_seq.
      f_equal; apply map_ext_in; intros i Hi; apply in_seq in Hi;
        rewrite aget_map_seq by lia; lra. }
    assert (Hround : (let '(mid, side) := encodeMS L R_ in
                      let '(processedMid, processedSide) := applyWidth this mid side in
                      decodeMS processedMid processedSide = (L, R_))).
    { destruct (encodeMS L R_) as [mid side] eqn:E. simpl in Hwidth. rewrite Hwidth.
      unfold encodeMS in E. inversion E; subst.
      apply (Hdec (fun a b => (a + b) * 0.5) (fun a b => (a - b) * 0.5)); intros; lra. }
    split; [exact Hround|].
    intros Hb Hbal sr onProgress. unfold process.
    cbn -[encodeMS applyWidth decodeMS Rlt_dec Rgt_dec].
    rewrite Hb, Hbal. cbn -[encodeMS applyWidth decodeMS Rlt_dec Rgt_dec].
    revert Hround. clear.
    destruct (encodeMS L R_) as [mid side].
    destruct (applyWidth this mid side) as [pm ps].
    intros ->.
    destruct (Rlt_dec 0 0); [lra|]. destruct (Rgt_dec 0 0); [lra|].
    cbn -[encodeMS applyWidth decodeMS].
    f_equal; [|f_equal]; rewrite <- map_id; apply map_ext; intros; lra.
Qed.

Lemma decodeMS_encodeMS_roundtrip_example :
  let '(mid, side) := encodeMS [1; 0.5; -0.25] [-1; 0.25; 0.75] in
  decodeMS mid side = ([1; 0.5; -0.25], [-1; 0.25; 0.75]).
Proof.
  exact (proj1 (decodeMS_encodeMS_roundtrip [1; 0.5; -0.25] [-1; 0.25; 0.75] eq_refl)).
Defined.

(** ** [Math.floor] on non-negative reals *)

Lemma Int_part_nonneg (x : R) : 0 <= x -> (0 <= Int_part x)%Z.
Proof.
  intros Hx. destruct (base_Int_part x) as [_ H].
  assert (H1 : IZR (-1) < IZR (Int_part x)) by lra.
  apply lt_IZR in H1. lia.
Qed.

Lemma INR_floor (x : R) : 0 <= x -> INR (floor x) = IZR (Int_part x).
Proof.
  intros Hx. unfold floor. rewrite INR_IZR_INZ, Z2Nat.id; [reflexivity|].
  now apply Int_part_nonneg.
Qed.

Lemma floor_le (x : R) : 0 <= x -> INR (floor x) <= x.
Proof. intros Hx. rewrite INR_floor by assumption. apply base_Int_part. Qed.

Lemma floor_gt (x : R) : 0 <= x -> x < INR (floor x) + 1.
Proof.
  intros Hx. rewrite INR_floor by assumption.
  destruct (base_Int_part x) as [_ H]. lra.
Qed.

Lemma floor_ge_nat (x : R) (n : nat) : INR n <= x -> (n <= floor x)%nat.
Proof.
  intros Hn. assert (Hx : 0 <= x) by (pose proof (pos_INR n); lra).
  pose proof (floor_gt x Hx) as Hg.
  assert (H : INR n < INR (S (floor x))) by (rewrite S_INR; lra).
  apply INR_lt in H. lia.
Qed.

Lemma floor_unique (x : R) (n : nat) : INR n <= x < INR n + 1 -> floor x = n.
Proof.
  intros [Hlo Hhi]. assert (Hx : 0 <= x) by (pose proof (pos_INR n); lra).
  pose proof (floor_ge_nat x n Hlo) as H1.
  pose proof (floor_le x Hx) as H2.
  assert (H : INR (floor x) < INR (S n)) by (rewrite S_INR; lra).
  apply INR_lt in H. lia.
Qed.

Lemma INR_of_Z (z : Z) : (0 <= z)%Z -> INR (Z.to_nat z) = IZR z.
Proof. intros Hz. rewrite INR_IZR_INZ, Z2Nat.id by assumption. reflexivity. Qed.

(** ** Loudness measurement (lufs.js) *)

Lemma short_of_blockSize (audioBuffer : AudioBuffer) :
  0 < sampleRate audioBuffer ->
  S (length audioBuffer) = blockSizeOf (sampleRate audioBuffer) ->
  duration audioBuffer < LUFS_CONSTANTS.BLOCK_SIZE_SEC.
Proof.
  intros Hsr Hlen. unfold duration, blockSizeOf, LUFS_CONSTANTS.BLOCK_SIZE_SEC in *.
  assert (H : INR (S (length audioBuffer)) <= sampleRate audioBuffer * 0.4).
  { rewrite Hlen. apply floor_le. lra. }
  rewrite S_INR in H.
  apply (Rmult_lt_reg_r (sampleRate audioBuffer)); [assumption|].
  unfold Rdiv. rewrite Rmult_assoc, Rinv_l by lra. lra.
Qed.

(** C2. A buffer (of positive sample rate) whose duration is below the
    400 ms block makes [measureLUFS] return the caller's fallback: the
    block loop never runs, no failure is possible, and the result is
    [-Infinity] only if the caller passed that.  A buffer of exactly
    [blockSize - 1] samples is such a buffer. *)
Theorem measureLUFS_short_returns_fallback (audioBuffer : AudioBuffer)
    (fallbackLufs : jsnum) :
  0 < sampleRate audioBuffer ->
  (duration audioBuffer < LUFS_CONSTANTS.BLOCK_SIZE_SEC ->
   measureLUFS audioBuffer fallbackLufs = Some fallbackLufs)
  /\ (S (length audioBuffer) = blockSizeOf (sampleRate audioBuffer) ->
      measureLUFS audioBuffer fallbackLufs = Some fallbackLufs
      /\ (isFinite fallbackLufs = true ->
          measureLUFS audioBuffer fallbackLufs <> Some NegInfinity)).
Proof.
  intros Hsr.
  assert (H : duration audioBuffer < LUFS_CONSTANTS.BLOCK_SIZE_SEC ->
              measureLUFS audioBuffer fallbackLufs = Some fallbackLufs).
  { intros Hd. unfold measureLUFS.
    destruct (Rlt_dec (duration audioBuffer) LUFS_CONSTANTS.BLOCK_SIZE_SEC);
      [reflexivity|contradiction]. }
  split; [exact H|].
  intros Hlen. rewrite H by now apply short_of_blockSize.
  split; [reflexivity|].
  intros Hfin Heq. inversion Heq; subst. discriminate.
Qed.

Lemma blockSizeOf_8000 : blockSizeOf 8000 = 3200%nat.
Proof.
  unfold blockSizeOf, LUFS_CONSTANTS.BLOCK_SIZE_SEC. apply floor_unique.
  rewrite INR_IZR_INZ. simpl Z.of_nat. lra.
Qed.

Lemma measureLUFS_short_returns_fallback_example :
  measureLUFS (mkAudioBuffer 8000 3199 [repeat 0.5 3199]) (Num (-14)) = Some (Num (-14)).
Proof.
  apply (measureLUFS_short_returns_fallback
           (mkAudioBuffer 8000 3199 [repeat 0.5 3199]) (Num (-14))).
  - simpl. lra.
  - simpl. rewrite blockSizeOf_8000. reflexivity.
Defined.

Lemma aget_allZero (l : list R) (i : nat) : allZero l -> aget l i = 0.
Proof.
  unfold aget, allZero. intros H. revert i.
  induction H as [|x l Hx _ IH]; intros [|i]; simpl; auto.
Qed.

Lemma biquadLoop_zero_prefix (c : BiquadCoeffs) (n : nat) (l : list R) :
  biquadLoop c 0 0 0 0 (repeat 0 n ++ l) = repeat 0 n ++ biquadLoop c 0 0 0 0 l.
Proof.
  induction n as [|n IH]; simpl; [reflexivity|].
  replace (b0 c * 0 + b1 c * 0 + b2 c * 0 - a1 c * 0 - a2 c * 0) with 0 by ring.
  now rewrite IH.
Qed.

Lemma biquadLoop_allZero (c : BiquadCoeffs) (l : list R) :
  allZero l -> biquadLoop c 0 0 0 0 l = l.
Proof.
  unfold allZero. induction 1 as [|x l Hx _ IH]; simpl; [reflexivity|]. subst x.
  replace (b0 c * 0 + b1 c * 0 + b2 c * 0 - a1 c * 0 - a2 c * 0) with 0 by ring.
  now rewrite IH.
Qed.

Lemma kWeight_allZero (sr : R) (l : list R) : allZero l -> kWeight sr l = l.
Proof.
  intros H. unfold kWeight, applyBiquadFilter.
  rewrite (biquadLoop_allZero _ l H). now apply biquadLoop_allZero.
Qed.

Lemma addSquares_zero_range (d : list R) (blockSize start : nat) (acc : R) :
  (forall i, (start <= i < start + blockSize)%nat -> aget d i = 0) ->
  addSquares d start blockSize acc = acc.
Proof.
  unfold addSquares. revert start acc.
  induction blockSize as [|n IH]; intros start acc H; simpl; [reflexivity|].
  rewrite (H start) by lia. rewrite IH; [lra|]. intros i Hi. apply H. lia.
Qed.

Lemma blockMeanSquare_zero_range (fc : list (list R)) (numChannels blockSize start : nat) :
  (forall ch i, (start <= i < start + blockSize)%nat -> aget (nth ch fc []) i = 0) ->
  blockMeanSquare fc numChannels blockSize start = 0.
Proof.
  intros H. unfold blockMeanSquare.
  assert (E : forall k n,
             fold_left (fun s ch => addSquares (nth ch fc []) start blockSize s)
                       (seq k n) 0 = 0).
  { intros k n. revert k. induction n as [|n IH]; intros k; simpl; [reflexivity|].
    rewrite addSquares_zero_range by (intros; now apply H). apply IH. }
  rewrite E. unfold Rdiv. apply Rmult_0_l.
Qed.

(** With a hop of at least one sample the block loop ends within
    [len + 1 - start] iterations, and every block it pushes is the mean
    square at a start [start + j * hopSize] it visited. *)
Lemma blockLoop_terminates (fc : list (list R)) (numChannels blockSize hopSize len : nat) :
  (1 <= hopSize)%nat ->
  forall fuel start, (len < start + fuel)%nat ->
  exists blocks,
    blockLoop fuel fc numChannels blockSize hopSize len start = Some blocks
    /\ Forall (fun e => exists j, (start + j * hopSize + blockSize <= len)%nat
                                  /\ e = blockMeanSquare fc numChannels blockSize
                                                         (start + j * hopSize)) blocks.
Proof.
  intros Hhop. induction fuel as [|fuel IH]; intros start Hlt.
  - simpl. destruct (start + blockSize <=? len)%nat eqn:E.
    + apply Nat.leb_le in E. lia.
    + exists []. split; [reflexivity|constructor].
  - simpl. destruct (start + blockSize <=? len)%nat eqn:E.
    + destruct (IH (start + hopSize)%nat) as [blocks [Hb Hall]]; [lia|].
      rewrite Hb. eexists; split; [reflexivity|].
      constructor.
      * exists 0%nat. apply Nat.leb_le in E. rewrite Nat.mul_0_l, Nat.add_0_r.
        now split.
      * eapply Forall_impl; [|exact Hall]. intros e [j [Hj ->]].
        exists (S j). replace (start + S j * hopSize)%nat
          with (start + hopSize + j * hopSize)%nat by lia.
        now split.
    + exists []. split; [reflexivity|constructor].
Qed.

(** Whether the loop ends depends on the shape of the buffer only. *)
Lemma blockLoop_None_shape (fc fc' : list (list R)) (nc nc' blockSize hopSize len : nat) :
  forall fuel start,
    blockLoop fuel fc nc blockSize hopSize len start = None ->
    blockLoop fuel fc' nc' blockSize hopSize len start = None.
Proof.
  induction fuel as [|fuel IH]; intros start; simpl;
    destruct (start + blockSize <=? len)%nat; try congruence.
  specialize (IH (start + hopSize)%nat).
  destruct (blockLoop fuel fc nc blockSize hopSize len (start + hopSize)).
  - discriminate.
  - intros _. now rewrite IH.
Qed.

Lemma filter_gate_zero (threshold : R) (blocks : list R) :
  0 <= threshold -> allZero blocks -> filter (gtb threshold) blocks = [].
Proof.
  intros Ht. unfold allZero. induction 1 as [|x l Hx _ IH]; simpl; [reflexivity|].
  subst x. unfold gtb at 1. destruct (Rgt_dec 0 threshold); [lra|exact IH].
Qed.

Lemma gateBlocks_allZero (blocks : list R) : allZero blocks -> gateBlocks blocks = NegInfinity.
Proof.
  intros H. unfold gateBlocks. destruct blocks as [|e rest]; [reflexivity|].
  rewrite filter_gate_zero; [reflexivity| |exact H].
  unfold LUFS_CONSTANTS.ABSOLUTE_GATE_LINEAR. lra.
Qed.

Lemma hopSizeOf_ge_1 (sr : R) : 10 <= sr -> (1 <= hopSizeOf sr)%nat.
Proof.
  intros H. unfold hopSizeOf. apply floor_ge_nat.
  unfold LUFS_CONSTANTS.BLOCK_SIZE_SEC, LUFS_CONSTANTS.BLOCK_OVERLAP. simpl. lra.
Qed.

(** A buffer at least one block long whose K-weighted samples vanish on
    every block the loop measures reads [-Infinity]. *)
Lemma measureLUFS_zero_blocks (audioBuffer : AudioBuffer) (fallbackLufs : jsnum) :
  10 <= sampleRate audioBuffer ->
  LUFS_CONSTANTS.BLOCK_SIZE_SEC <= duration audioBuffer ->
  (forall j ch i,
      (j * hopSizeOf (sampleRate audioBuffer) + blockSizeOf (sampleRate audioBuffer)
       <= length audioBuffer)%nat ->
      (j * hopSizeOf (sampleRate audioBuffer) <= i
       < j * hopSizeOf (sampleRate audioBuffer) + blockSizeOf (sampleRate audioBuffer))%nat ->
      aget (nth ch (map (kWeight (sampleRate audioBuffer)) (channels audioBuffer)) []) i = 0) ->
  measureLUFS audioBuffer fallbackLufs = Some NegInfinity.
Proof.
  intros Hsr Hdur Hzero. unfold measureLUFS.
  destruct (Rlt_dec (duration audioBuffer) LUFS_CONSTANTS.BLOCK_SIZE_SEC) as [Hlt|_];
    [lra|].
  destruct (blockLoop_terminates
              (map (kWeight (sampleRate audioBuffer)) (channels audioBuffer))
              (numberOfChannels audioBuffer) (blockSizeOf (sampleRate audioBuffer))
              (hopSizeOf (sampleRate audioBuffer)) (length audioBuffer)
              (hopSizeOf_ge_1 _ Hsr) (S (length audioBuffer)) 0%nat)
    as [blocks [Hb Hall]]; [lia|].
  rewrite Hb. f_equal. apply gateBlocks_allZero.
  unfold allZero. eapply Forall_impl; [|exact Hall].
  intros e [j [Hj ->]]. apply blockMeanSquare_zero_range.
  intros ch i Hi. now apply (Hzero j).
Qed.

Lemma measureLUFS_silent (audioBuffer : AudioBuffer) (fallbackLufs : jsnum) :
  10 <= sampleRate audioBuffer ->
  LUFS_CONSTANTS.BLOCK_SIZE_SEC <= duration audioBuffer ->
  Forall allZero (channels audioBuffer) ->
  measureLUFS audioBuffer fallbackLufs = Some NegInfinity.
Proof.
  intros Hsr Hdur Hz. apply measureLUFS_zero_blocks; try assumption.
  intros j ch i _ _. apply aget_allZero.
  destruct (Nat.lt_ge_cases ch (List.length (channels audioBuffer))) as [Hch|Hch].
  - rewrite (nth_indep _ [] (kWeight (sampleRate audioBuffer) []))
      by (rewrite length_map; exact Hch).
    rewrite map_nth. rewrite Forall_forall in Hz.
    rewrite kWeight_allZero; apply Hz; apply nth_In; exact Hch.
  - rewrite nth_overflow by (rewrite length_map; exact Hch). constructor.
Qed.

(** C1, as the code has it. For every all-zero buffer that is at least
    one 400 ms block long (sample rate of 10 Hz or more, so that the hop is
    at least one sample), [measureLUFS] terminates and returns [-Infinity],
    whatever fallback the caller supplied: the fallback is used for short
    buffers only. *)
Theorem measureLUFS_silence_is_NegInfinity (audioBuffer : AudioBuffer)
    (fallbackLufs : jsnum) :
  10 <= sampleRate audioBuffer ->
  LUFS_CONSTANTS.BLOCK_SIZE_SEC <= duration audioBuffer ->
  Forall allZero (channels audioBuffer) ->
  measureLUFS audioBuffer fallbackLufs = Some NegInfinity.
Proof. exact (measureLUFS_silent audioBuffer fallbackLufs). Qed.

Lemma allZero_repeat (n : nat) : allZero (repeat 0 n).
Proof. unfold allZero. apply Forall_forall. intros x Hx. now apply repeat_spec in Hx. Qed.

Lemma duration_8000_3200 (chans : list (list R)) :
  duration (mkAudioBuffer 8000 3200 chans) = 0.4.
Proof. unfold duration. simpl sampleRate. simpl length. rewrite INR_IZR_INZ. simpl Z.of_nat. lra. Qed.

Lemma measureLUFS_silence_is_NegInfinity_example :
  measureLUFS (mkAudioBuffer 8000 3200 [repeat 0 3200; repeat 0 3200]) PosInfinity
  = Some NegInfinity.
Proof.
  apply measureLUFS_silence_is_NegInfinity.
  - simpl. lra.
  - rewrite duration_8000_3200. unfold LUFS_CONSTANTS.BLOCK_SIZE_SEC. lra.
  - constructor; [apply allZero_repeat|].
    constructor; [apply allZero_repeat|constructor].
Defined.

(** C1, as stated, fails: 400 ms of stereo silence at 8 kHz, measured with
    the default fallback -14, reads [-Infinity] and not the fallback. *)
Lemma measureLUFS_silence_not_fallback :
  measureLUFS (mkAudioBuffer 8000 3200 [repeat 0 3200; repeat 0 3200]) (Num (-14))
  = Some NegInfinity
  /\ measureLUFS (mkAudioBuffer 8000 3200 [repeat 0 3200; repeat 0 3200]) (Num (-14))
     <> Some (Num (-14)).
Proof.
  assert (H : measureLUFS (mkAudioBuffer 8000 3200 [repeat 0 3200; repeat 0 3200])
                          (Num (-14)) = Some NegInfinity).
  { apply measureLUFS_silent.
    - simpl. lra.
    - rewrite duration_8000_3200. unfold LUFS_CONSTANTS.BLOCK_SIZE_SEC. lra.
    - constructor; [apply allZero_repeat|].
      constructor; [apply allZero_repeat|constructor]. }
  split; [exact H|]. rewrite H. discriminate.
Qed.

(** ** True-peak detection (true-peak.js) *)

Lemma truePeakLoop_short (channelData : list R) :
  forall prevSamples maxPeak i,
    (i + List.length channelData <= 3)%nat ->
    truePeakLoop prevSamples maxPeak i channelData = maxPeak.
Proof.
  induction channelData as [|x rest IH]; intros prevSamples maxPeak i Hi;
    [reflexivity|].
  cbn [truePeakLoop]. cbn [List.length] in Hi.
  destruct (3 <=? i)%nat eqn:E; [apply Nat.leb_le in E; lia|].
  apply IH. lia.
Qed.

(** The loop takes its maximum over exactly the evaluated windows. *)
Lemma truePeakLoop_evaluatedWindows (channelData : list R) :
  forall prevSamples maxPeak i,
    truePeakLoop prevSamples maxPeak i channelData
    = fold_left (fun m kw =>
                   if Rgt_dec (calculateTruePeakSample (snd kw)) m
                   then calculateTruePeakSample (snd kw) else m)
                (evaluatedWindows prevSamples i channelData) maxPeak.
Proof.
  induction channelData as [|x rest IH]; intros prevSamples maxPeak i;
    [reflexivity|].
  cbn [truePeakLoop evaluatedWindows].
  rewrite fold_left_app, IH. destruct (3 <=? i)%nat; reflexivity.
Qed.

Lemma recent_snoc_S (pre : list R) (x : R) (j : nat) :
  (1 <= j)%nat -> recent (pre ++ [x]) (S j) = recent pre j.
Proof.
  intros Hj. unfold recent. rewrite length_app. simpl List.length.
  replace (S j <=? List.length pre + 1)%nat with (j <=? List.length pre)%nat
    by (destruct (j <=? List.length pre)%nat eqn:E1;
        destruct (S j <=? List.length pre + 1)%nat eqn:E2; try reflexivity;
        [apply Nat.leb_le in E1; apply Nat.leb_gt in E2
        |apply Nat.leb_gt in E1; apply Nat.leb_le in E2]; lia).
  destruct (j <=? List.length pre)%nat eqn:E; [|reflexivity].
  apply Nat.leb_le in E. unfold aget.
  replace (List.length pre + 1 - S j)%nat with (List.length pre - j)%nat by lia.
  apply app_nth1. lia.
Qed.

Lemma recent_snoc_1 (pre : list R) (x : R) : recent (pre ++ [x]) 1 = x.
Proof.
  unfold recent. rewrite length_app. simpl List.length.
  replace (1 <=? List.length pre + 1)%nat with true by (symmetry; apply Nat.leb_le; lia).
  unfold aget. replace (List.length pre + 1 - 1)%nat with (List.length pre) by lia.
  rewrite app_nth2 by lia. now rewrite Nat.sub_diag.
Qed.

Lemma historyAfter_recent (pre : list R) :
  historyAfter pre = (recent pre 4, recent pre 3, recent pre 2, recent pre 1).
Proof.
  induction pre as [|x pre IH] using rev_ind.
  - reflexivity.
  - unfold historyAfter in *. rewrite fold_left_app. simpl. rewrite IH. simpl.
    now rewrite !recent_snoc_S, recent_snoc_1 by lia.
Qed.

Lemma evaluatedWindows_spec (post : list R) :
  forall pre k w,
    In (k, w) (evaluatedWindows (historyAfter pre) (List.length pre) post) ->
    (3 <= k)%nat /\ (List.length pre <= k < List.length pre + List.length post)%nat
    /\ w = (aget (pre ++ post) (k - 3), aget (pre ++ post) (k - 2),
            aget (pre ++ post) (k - 1), aget (pre ++ post) k).
Proof.
  induction post as [|x rest IH]; intros pre k w Hin; cbn [evaluatedWindows] in Hin;
    [destruct Hin|].
  apply in_app_or in Hin. destruct Hin as [Hin|Hin].
  - destruct (3 <=? List.length pre)%nat eqn:E; [|destruct Hin].
    apply Nat.leb_le in E. destruct Hin as [Hin|[]]. inversion Hin; subst k w; clear Hin.
    split; [exact E|]. split; [simpl; lia|].
    change (shiftIn (historyAfter pre) x) with (fold_left shiftIn [x] (historyAfter pre)).
    unfold historyAfter. rewrite <- fold_left_app. fold (historyAfter (pre ++ [x])).
    rewrite historyAfter_recent. unfold recent. rewrite length_app. simpl List.length.
    repeat match goal with
           | |- context [(?a <=? ?b)%nat] =>
               replace (a <=? b)%nat with true by (symmetry; apply Nat.leb_le; lia)
           end.
    unfold aget.
    replace (pre ++ x :: rest) with ((pre ++ [x]) ++ rest)
      by (rewrite <- app_assoc; reflexivity).
    rewrite !(app_nth1 (pre ++ [x]) rest) by (rewrite length_app; simpl; lia).
    replace (List.length pre + 1 - 4)%nat with (List.length pre - 3)%nat by lia.
    replace (List.length pre + 1 - 3)%nat with (List.length pre - 2)%nat by lia.
    replace (List.length pre + 1 - 2)%nat with (List.length pre - 1)%nat by lia.
    replace (List.length pre + 1 - 1)%nat with (List.length pre) by lia.
    reflexivity.
  - replace (S (List.length pre)) with (List.length (pre ++ [x])) in Hin
      by (rewrite length_app; simpl; lia).
    change (shiftIn (historyAfter pre) x) with (fold_left shiftIn [x] (historyAfter pre)) in Hin.
    unfold historyAfter in Hin. rewrite <- fold_left_app in Hin.
    fold (historyAfter (pre ++ [x])) in Hin.
    apply IH in Hin. rewrite length_app in Hin. simpl List.length in Hin.
    rewrite <- app_assoc in Hin. simpl in Hin.
    destruct Hin as [H3 [Hk Hw]]. split; [exact H3|]. split; [simpl; lia|exact Hw].
Qed.

Lemma findTruePeakLinear_short (chans : list (list R)) :
  Forall (fun c => (List.length c < 4)%nat) chans -> findTruePeakLinear chans = 0.
Proof.
  unfold findTruePeakLinear. induction 1 as [|c chans Hc _ IH]; simpl; [reflexivity|].
  rewrite truePeakLoop_short by (simpl; lia). exact IH.
Qed.

(** C10. A buffer whose channels all hold fewer than four samples reads
    [-Infinity], whatever the samples are.  More generally the maximum of a
    channel is taken over the windows [evaluatedWindows] lists, and the
    nominal point of the window evaluated at iteration [k] is sample
    [k - 1] with [2 <= k - 1 <= length - 2]: the first two samples and the
    last one are never a nominal point. *)
Theorem findTruePeak_nominal_points (audioBuffer : AudioBuffer) :
  (Forall (fun c => (List.length c < 4)%nat) (channels audioBuffer) ->
   findTruePeak audioBuffer = NegInfinity)
  /\ (forall channelData maxPeak,
        truePeakLoop emptyWindow maxPeak 0 channelData
        = fold_left (fun m kw =>
                       if Rgt_dec (calculateTruePeakSample (snd kw)) m
                       then calculateTruePeakSample (snd kw) else m)
                    (evaluatedWindows emptyWindow 0 channelData) maxPeak)
  /\ (forall channelData k w,
        In (k, w) (evaluatedWindows emptyWindow 0 channelData) ->
        nominal w = aget channelData (k - 1)
        /\ (2 <= k - 1 <= List.length channelData - 2)%nat).
Proof.
  split; [|split].
  - intros Hshort. unfold findTruePeak.
    rewrite findTruePeakLinear_short by assumption.
    destruct (Rgt_dec 0 0); [lra|reflexivity].
  - intros. apply truePeakLoop_evaluatedWindows.
  - intros channelData k w Hin.
    apply (evaluatedWindows_spec channelData [] k w) in Hin.
    simpl in Hin. destruct Hin as [H3 [Hk ->]]. simpl. split; [reflexivity|lia].
Qed.

Lemma findTruePeak_nominal_points_example :
  findTruePeak (mkAudioBuffer 48000 3 [[1; -1; 1]; [0.5; 0.5; 0.5]]) = NegInfinity.
Proof.
  apply (findTruePeak_nominal_points (mkAudioBuffer 48000 3 [[1; -1; 1]; [0.5; 0.5; 0.5]])).
  repeat constructor; simpl; lia.
Defined.

(** ** The lookahead limiter (limiter.js): the gain envelope *)

Lemma length_aset (a : list R) (i : nat) (v : R) : List.length (aset a i v) = List.length a.
Proof.
  revert i. induction a as [|x a IH]; intros [|i]; simpl; auto.
Qed.

Lemma aget_aset (a : list R) (i j : nat) (v : R) :
  aget (aset a i v) j
  = if ((i =? j) && (i <? List.length a))%nat then v else aget a j.
Proof.
  unfold aget. revert i j. induction a as [|x a IH]; intros i j; simpl.
  - rewrite andb_false_r. reflexivity.
  - destruct i as [|i], j as [|j]; simpl; try reflexivity.
    rewrite IH. reflexivity.
Qed.

Lemma envLe_refl (e : list R) : envLe e e.
Proof. intros j. lra. Qed.

Lemma envLe_trans (e1 e2 e3 : list R) : envLe e1 e2 -> envLe e2 e3 -> envLe e1 e3.
Proof. intros H1 H2 j. specialize (H1 j). specialize (H2 j). lra. Qed.

Lemma aset_min_envLe (e : list R) (j : nat) (s : R) :
  envLe (aset e j (Rmin (aget e j) s)) e.
Proof.
  intros k. rewrite aget_aset.
  destruct ((j =? k) && (j <? List.length e))%nat eqn:E; [|lra].
  apply andb_true_iff in E. destruct E as [E _]. apply Nat.eqb_eq in E. subst k.
  apply Rmin_l.
Qed.

Lemma fold_min_envLe (f : list R -> nat -> R) (js : list nat) :
  forall e,
    envLe (fold_left (fun env j => aset env j (Rmin (aget env j) (f env j))) js e) e
    /\ List.length (fold_left (fun env j => aset env j (Rmin (aget env j) (f env j))) js e)
       = List.length e.
Proof.
  induction js as [|j js IH]; intros e; simpl.
  - split; [apply envLe_refl|reflexivity].
  - destruct (IH (aset e j (Rmin (aget e j) (f e j)))) as [H1 H2]. split.
    + eapply envLe_trans; [exact H1|apply aset_min_envLe].
    + rewrite H2. apply length_aset.
Qed.

(** The ramp only lowers entries: combining by minimum never weakens a
    reduction already scheduled. *)
Lemma lookaheadSpread_envLe (env : list R) (i lookaheadSamples : nat) (requiredGain : R) :
  envLe (lookaheadSpread env i lookaheadSamples requiredGain) env
  /\ List.length (lookaheadSpread env i lookaheadSamples requiredGain) = List.length env.
Proof.
  unfold lookaheadSpread.
  destruct (Rlt_dec requiredGain (aget env (i - lookaheadSamples))).
  - apply (fold_min_envLe
             (fun env j =>
                aget env (i - lookaheadSamples)
                + (requiredGain - aget env (i - lookaheadSamples))
                  * (INR (j - (i - lookaheadSamples)) / INR lookaheadSamples))).
  - split; [apply envLe_refl|reflexivity].
Qed.

Lemma gainEnvelope_stage1Step (chans : list (list R)) (numChannels : nat)
    (ceilingLinear : R) (lookaheadSamples : nat) (transientMap : option (list R))
    (st : Stage1State) (i : nat) :
  exists requiredGain,
    gainEnvelope (stage1Step chans numChannels ceilingLinear lookaheadSamples
                             transientMap st i)
    = lookaheadSpread (gainEnvelope st) i lookaheadSamples requiredGain.
Proof. unfold stage1Step. cbn [gainEnvelope]. eexists. reflexivity. Qed.

Lemma stage1_fold_envLe (chans : list (list R)) (numChannels : nat) (ceilingLinear : R)
    (lookaheadSamples : nat) (transientMap : option (list R)) (idxs : list nat) :
  forall st,
    envLe (gainEnvelope
             (fold_left (stage1Step chans numChannels ceilingLinear lookaheadSamples
                                    transientMap) idxs st))
          (gainEnvelope st)
    /\ List.length (gainEnvelope
                      (fold_left (stage1Step chans numChannels ceilingLinear
                                             lookaheadSamples transientMap) idxs st))
       = List.length (gainEnvelope st).
Proof.
  induction idxs as [|i idxs IH]; intros st; cbn [fold_left].
  - split; [apply envLe_refl|reflexivity].
  - destruct (IH (stage1Step chans numChannels ceilingLinear lookaheadSamples
                             transientMap st i)) as [H1 H2].
    destruct (gainEnvelope_stage1Step chans numChannels ceilingLinear lookaheadSamples
                                      transientMap st i) as [req Hreq].
    rewrite Hreq in H1, H2.
    destruct (lookaheadSpread_envLe (gainEnvelope st) i lookaheadSamples req) as [H3 H4].
    split.
    + eapply envLe_trans; [exact H1|exact H3].
    + rewrite H2. exact H4.
Qed.

Lemma aget_repeat_le (v : R) (n j : nat) : 0 <= v -> aget (repeat v n) j <= v.
Proof.
  intros Hv. unfold aget. revert j. induction n as [|n IH]; intros [|j]; simpl;
    try lra. apply IH.
Qed.

Lemma Forall_of_aget (P : R -> Prop) (l : list R) :
  (forall j, (j < List.length l)%nat -> P (aget l j)) -> Forall P l.
Proof.
  intros H. apply Forall_forall. intros x Hx.
  destruct (In_nth l x 0 Hx) as [j [Hj E]]. rewrite <- E. now apply H.
Qed.

Lemma stage1_le_1 (chans : list (list R)) (numChannels len : nat) (ceilingLinear : R)
    (lookaheadSamples : nat) (transientMap : option (list R)) :
  Forall (fun g => g <= 1)
         (stage1 chans numChannels len ceilingLinear lookaheadSamples transientMap)
  /\ List.length (stage1 chans numChannels len ceilingLinear lookaheadSamples transientMap)
     = len.
Proof.
  unfold stage1.
  destruct (stage1_fold_envLe chans numChannels ceilingLinear lookaheadSamples
              transientMap (seq 0 len)
              (mkStage1 emptyWindow emptyWindow (repeat 1.0 len))) as [H1 H2].
  simpl in H1, H2. split.
  - apply Forall_of_aget. intros j _. specialize (H1 j).
    pose proof (aget_repeat_le 1.0 len j). lra.
  - rewrite H2. apply repeat_length.
Qed.

Lemma releaseLoop_le_1 (releaseCoef : R) (env : list R) :
  forall currentGain,
    currentGain <= 1 ->
    Forall (fun g => g <= 1) (releaseLoop releaseCoef currentGain env)
    /\ List.length (releaseLoop releaseCoef currentGain env) = List.length env.
Proof.
  induction env as [|g rest IH]; intros currentGain Hc; simpl.
  - split; [constructor|reflexivity].
  - assert (Hnew : (if Rlt_dec g currentGain then g
                    else Rmin (releaseCoef * currentGain + (1 - releaseCoef) * 1.0) 1.0)
                   <= 1).
    { destruct (Rlt_dec g currentGain); [lra|].
      eapply Rle_trans; [apply Rmin_r|lra]. }
    destruct (IH _ Hnew) as [H1 H2]. split.
    + constructor; assumption.
    + now rewrite H2.
Qed.

(** C5. The gain envelope the limiter applies, after the lookahead ramps
    of stage 1 and the release smoothing of stage 1b, has one entry per
    sample and no entry above 1, for every buffer and every setting.  The
    same holds after stage 1 alone, and a ramp written by stage 1 only
    lowers the entries it touches. *)
Theorem limiterGainEnvelope_at_most_unity (audioBuffer : AudioBuffer)
    (ceilingLinear lookaheadMs releaseMs : R) (preserveTransients : bool) :
  (Forall (fun g => g <= 1)
          (limiterGainEnvelope audioBuffer ceilingLinear lookaheadMs releaseMs
                               preserveTransients)
   /\ List.length (limiterGainEnvelope audioBuffer ceilingLinear lookaheadMs releaseMs
                                       preserveTransients) = length audioBuffer)
  /\ (forall transientMap lookaheadSamples,
        Forall (fun g => g <= 1)
               (stage1 (channels audioBuffer) (numberOfChannels audioBuffer)
                       (length audioBuffer) ceilingLinear lookaheadSamples transientMap))
  /\ (forall env i lookaheadSamples requiredGain j,
        aget (lookaheadSpread env i lookaheadSamples requiredGain) j <= aget env j).
Proof.
  split; [|split].
  - unfold limiterGainEnvelope.
    match goal with
    | |- context [releaseLoop ?rc 1.0 ?env] =>
        destruct (releaseLoop_le_1 rc env 1.0) as [H1 H2]; [lra|]
    end.
    split; [exact H1|]. rewrite H2. apply stage1_le_1.
  - intros. apply stage1_le_1.
  - intros. apply lookaheadSpread_envLe.
Qed.

(** ** The soft-knee gain computer (dynamic-processor.js) *)

Section SoftKnee.
Variables T r k : R.
Hypothesis Hr : 1 < r.
Hypothesis Hk : 0 < k.

Local Abbreviation gain := (computeGainDb (newGainComputer T r k)).
Local Abbreviation c := (1 - 1 / r).

Lemma slope_bounds : 0 < c < 1.
Proof.
  assert (H1 : 0 < / r) by (apply Rinv_0_lt_compat; lra).
  assert (H2 : / r < 1).
  { rewrite <- Rinv_1. apply Rinv_lt_contravar; lra. }
  unfold Rdiv. lra.
Qed.

Lemma gain_below (x : R) : x <= T - k / 2 -> gain x = 0.
Proof.
  intros H. unfold computeGainDb. simpl.
  destruct (Rle_dec x (T - k / 2)); [reflexivity|contradiction].
Qed.

Lemma gain_above (x : R) : T + k / 2 <= x -> gain x = - ((x - T) * c).
Proof.
  intros H. unfold computeGainDb. simpl.
  destruct (Rle_dec x (T - k / 2)); [lra|].
  destruct (Rge_dec x (T + k / 2)); [|lra].
  unfold Rdiv. ring.
Qed.

Lemma gain_knee (x : R) :
  T - k / 2 < x < T + k / 2 ->
  gain x = - ((x - T) * c) * ((x - (T - k / 2)) / k) * ((x - (T - k / 2)) / k).
Proof.
  intros H. unfold computeGainDb. simpl.
  destruct (Rle_dec x (T - k / 2)); [lra|].
  destruct (Rge_dec x (T + k / 2)); [lra|]. reflexivity.
Qed.

(** Difference quotients at the upper knee boundary. *)
Lemma quotient_above (h : R) :
  0 < h -> (gain (T + k / 2 + h) - gain (T + k / 2)) / h = - c.
Proof.
  intros Hh. rewrite !gain_above by lra. field. split; lra.
Qed.

Lemma quotient_below (h : R) :
  - k < h < 0 ->
  (gain (T + k / 2 + h) - gain (T + k / 2)) / h
  = - c * (2 + 5 * h / (2 * k) + h * h / (k * k)).
Proof.
  intros Hh. rewrite gain_knee by lra. rewrite gain_above by lra.
  field. repeat split; lra.
Qed.

Lemma quotient_lower (h : R) :
  0 < h < k ->
  (gain (T - k / 2 + h) - gain (T - k / 2)) / h = - c * (h - k / 2) * h / (k * k).
Proof.
  intros Hh. rewrite gain_knee by lra. rewrite gain_below by lra.
  field. repeat split; lra.
Qed.

Lemma derivable_at_kneeStart : derivable_pt_lim gain (T - k / 2) 0.
Proof.
  pose proof slope_bounds as Hc.
  intros eps Heps.
  assert (Hd : 0 < Rmin k (eps * k)).
  { apply Rmin_pos; [lra|]. apply Rmult_lt_0_compat; lra. }
  exists (mkposreal _ Hd). simpl. intros h Hh0 Hh.
  rewrite Rminus_0_r.
  destruct (Rlt_dec h 0) as [Hneg|Hpos].
  - rewrite !gain_below by lra.
    replace ((0 - 0) / h) with 0 by (field; lra). rewrite Rabs_R0. lra.
  - assert (Hh' : 0 < h) by lra.
    rewrite Rabs_right in Hh by lra.
    assert (Hhk : h < k) by (eapply Rlt_le_trans; [exact Hh|apply Rmin_l]).
    assert (Hhe : h < eps * k) by (eapply Rlt_le_trans; [exact Hh|apply Rmin_r]).
    rewrite quotient_lower by lra.
    assert (E : - c * (h - k / 2) * h / (k * k) = c * ((k / 2 - h) / k) * (h / k))
      by (field; lra).
    rewrite E.
    assert (B1 : -1 < (k / 2 - h) / k < 1).
    { split.
      - apply (Rmult_lt_reg_r k); [lra|]. unfold Rdiv at 1.
        rewrite Rmult_assoc, Rinv_l by lra. lra.
      - apply (Rmult_lt_reg_r k); [lra|]. unfold Rdiv at 1.
        rewrite Rmult_assoc, Rinv_l by lra. lra. }
    assert (B2 : 0 < h / k < eps).
    { split.
      - apply Rdiv_lt_0_compat; lra.
      - apply (Rmult_lt_reg_r k); [lra|]. unfold Rdiv.
        rewrite Rmult_assoc, Rinv_l by lra. lra. }
    assert (B3 : 0 < c * (h / k) < eps) by nra.
    replace (c * ((k / 2 - h) / k) * (h / k)) with (c * (h / k) * ((k / 2 - h) / k))
      by ring.
    apply Rabs_def1; nra.
Qed.

Lemma continuous_at_kneeStart : continuity_pt gain (T - k / 2).
Proof.
  apply derivable_continuous_pt. exists 0. exact derivable_at_kneeStart.
Qed.

Lemma increment_at_kneeEnd (h : R) :
  - k < h -> Rabs (gain (T + k / 2 + h) - gain (T + k / 2)) <= 2 * Rabs h.
Proof.
  pose proof slope_bounds as Hc. intros Hh.
  destruct (Rtotal_order h 0) as [Hneg|[Hz|Hpos]].
  - pose proof (quotient_below h (conj Hh Hneg)) as Hq.
    assert (E : gain (T + k / 2 + h) - gain (T + k / 2)
                = - c * (2 + 5 * h / (2 * k) + h * h / (k * k)) * h).
    { rewrite <- Hq. field. lra. }
    rewrite E.
    assert (Hu : -1 < h / k < 0).
    { split.
      - apply (Rmult_lt_reg_r k); [lra|]. unfold Rdiv.
        rewrite Rmult_assoc, Rinv_l by lra. lra.
      - apply (Rmult_lt_reg_r k); [lra|]. unfold Rdiv.
        rewrite Rmult_assoc, Rinv_l by lra. lra. }
    replace (2 + 5 * h / (2 * k) + h * h / (k * k))
      with (2 + 5 / 2 * (h / k) + (h / k) * (h / k)) by (field; lra).
    assert (Hb : 0 < 2 + 5 / 2 * (h / k) + h / k * (h / k) < 2) by nra.
    assert (Hcb : 0 < c * (2 + 5 / 2 * (h / k) + h / k * (h / k)) < 2) by nra.
    rewrite (Rabs_left h) by lra.
    replace (- c * (2 + 5 / 2 * (h / k) + h / k * (h / k)) * h)
      with (c * (2 + 5 / 2 * (h / k) + h / k * (h / k)) * - h) by ring.
    rewrite Rabs_right by nra. nra.
  - subst h. rewrite Rplus_0_r. unfold Rminus. rewrite Rplus_opp_r, Rabs_R0. lra.
  - pose proof (quotient_above h Hpos) as Hq.
    assert (E : gain (T + k / 2 + h) - gain (T + k / 2) = - c * h).
    { rewrite <- Hq. field. lra. }
    rewrite E. rewrite (Rabs_right h) by lra.
    replace (- c * h) with (- (c * h)) by ring. rewrite Rabs_Ropp.
    rewrite Rabs_right by nra. nra.
Qed.

Lemma continuous_at_kneeEnd : continuity_pt gain (T + k / 2).
Proof.
  intros eps Heps. exists (Rmin k (eps / 2)). split.
  - apply Rmin_pos; lra.
  - intros x [_ Hd]. simpl in *. unfold R_dist in *.
    assert (Hk' : Rabs (x - (T + k / 2)) < k)
      by (eapply Rlt_le_trans; [exact Hd|apply Rmin_l]).
    assert (He : Rabs (x - (T + k / 2)) < eps / 2)
      by (eapply Rlt_le_trans; [exact Hd|apply Rmin_r]).
    apply Rabs_def2 in Hk'.
    replace x with (T + k / 2 + (x - (T + k / 2))) at 1 by ring.
    eapply Rle_lt_trans; [apply increment_at_kneeEnd; lra|]. lra.
Qed.

(** At the upper boundary the two one-sided slopes differ by a factor
    of two, so the curve has no derivative there. *)
Lemma not_derivable_at_kneeEnd :
  (exists l, derivable_pt_lim gain (T + k / 2) l) -> False.
Proof.
  pose proof slope_bounds as Hc. intros [l Hl].
  destruct (Hl (c / 4)) as [delta Hdelta]; [lra|].
  pose proof (cond_pos delta) as Hpos.
  assert (Hm : 0 < Rmin (delta / 2) (k / 10)) by (apply Rmin_pos; lra).
  assert (Hm1 : Rmin (delta / 2) (k / 10) <= delta / 2) by apply Rmin_l.
  assert (Hm2 : Rmin (delta / 2) (k / 10) <= k / 10) by apply Rmin_r.
  set (m := Rmin (delta / 2) (k / 10)) in *.
  pose proof (Hdelta m) as Hright. pose proof (Hdelta (- m)) as Hleft.
  rewrite quotient_above in Hright by lra.
  rewrite quotient_below in Hleft by lra.
  assert (Hr1 : Rabs (- c - l) < c / 4).
  { apply Hright; [lra|]. rewrite Rabs_right by lra. lra. }
  assert (Hl1 : Rabs (- c * (2 + 5 * - m / (2 * k) + - m * - m / (k * k)) - l) < c / 4).
  { apply Hleft; [lra|]. rewrite Rabs_Ropp, Rabs_right by lra. lra. }
  apply Rabs_def2 in Hr1. apply Rabs_def2 in Hl1.
  assert (Hu : 0 < m / k <= 1 / 10).
  { split.
    - apply Rdiv_lt_0_compat; lra.
    - apply (Rmult_le_reg_r k); [lra|]. unfold Rdiv at 1.
      rewrite Rmult_assoc, Rinv_l by lra. lra. }
  replace (2 + 5 * - m / (2 * k) + - m * - m / (k * k))
    with (2 - 5 / 2 * (m / k) + (m / k) * (m / k)) in Hl1 by (field; lra).
  assert (Hb : 7 / 4 <= 2 - 5 / 2 * (m / k) + m / k * (m / k)) by nra.
  nra.
Qed.
End SoftKnee.

(** C3, on the code.  With the constructor's defaults (threshold -20 dB,
    ratio 4, knee 6 dB) the knee runs from -23 dB to -17 dB.  The curve is
    continuous at both boundaries and has derivative 0 at the lower one,
    but at the upper boundary the slope is -3/4 from above and tends to
    -3/2 from below, so no derivative exists there; inside the lower half
    of the knee the computed "reduction" is positive. *)
Theorem computeGainDb_slope_jump_at_kneeEnd :
  let gc := newGainComputer (-20) 4 6 in
  (kneeStart gc = -23 /\ kneeEnd gc = -17)
  /\ (continuity_pt (computeGainDb gc) (-23) /\ continuity_pt (computeGainDb gc) (-17))
  /\ derivable_pt_lim (computeGainDb gc) (-23) 0
  /\ (forall h, 0 < h ->
        (computeGainDb gc (-17 + h) - computeGainDb gc (-17)) / h = - (3 / 4))
  /\ (forall h, -6 < h < 0 ->
        (computeGainDb gc (-17 + h) - computeGainDb gc (-17)) / h
        = - (3 / 4) * (2 + 5 * h / 12 + h * h / 36))
  /\ ((exists l, derivable_pt_lim (computeGainDb gc) (-17) l) -> False)
  /\ computeGainDb gc (-21) = 1 / 12.
Proof.
  intros gc. subst gc.
  assert (Hr : 1 < 4) by lra. assert (Hk : 0 < 6) by lra.
  assert (Es : -23 = -20 - 6 / 2) by lra. assert (Ee : -17 = -20 + 6 / 2) by lra.
  split; [split; simpl; lra|].
  split; [split|].
  - rewrite Es. now apply continuous_at_kneeStart.
  - rewrite Ee. now apply continuous_at_kneeEnd.
  - split; [rewrite Es; now apply derivable_at_kneeStart|].
    split; [|split; [|split]].
    + intros h Hh. rewrite Ee. rewrite quotient_above by lra. lra.
    + intros h Hh. rewrite Ee. rewrite quotient_below by lra. lra.
    + rewrite Ee. now apply not_derivable_at_kneeEnd.
    + rewrite (gain_knee (-20) 4 6) by lra. lra.
Qed.

(** ** The normalizer (normalizer.js) *)

Lemma hopSizeOf_8000 : hopSizeOf 8000 = 800%nat.
Proof.
  unfold hopSizeOf, LUFS_CONSTANTS.BLOCK_SIZE_SEC, LUFS_CONSTANTS.BLOCK_OVERLAP.
  apply floor_unique. rewrite INR_IZR_INZ. simpl Z.of_nat. lra.
Qed.

Lemma aget_zero_prefix (n : nat) (l : list R) (i : nat) :
  (i < n)%nat -> aget (repeat 0 n ++ l) i = 0.
Proof.
  intros Hi. unfold aget. rewrite app_nth1 by (rewrite repeat_length; exact Hi).
  apply nth_repeat.
Qed.

Lemma kWeight_zero_prefix (sr : R) (n : nat) (l : list R) :
  exists l', kWeight sr (repeat 0 n ++ l) = repeat 0 n ++ l'.
Proof.
  unfold kWeight, applyBiquadFilter. rewrite !biquadLoop_zero_prefix.
  eexists. reflexivity.
Qed.

Lemma measureLUFS_clickAtEnd (fallbackLufs : jsnum) :
  measureLUFS clickAtEnd fallbackLufs = Some NegInfinity.
Proof.
  apply measureLUFS_zero_blocks.
  - unfold clickAtEnd; cbn [sampleRate]. lra.
  - unfold duration, clickAtEnd, LUFS_CONSTANTS.BLOCK_SIZE_SEC; cbn [sampleRate length].
    rewrite INR_IZR_INZ. simpl Z.of_nat. lra.
  - unfold clickAtEnd; cbn [sampleRate length channels map].
    rewrite blockSizeOf_8000, hopSizeOf_8000. intros j ch i Hj Hi.
    assert (j = 0%nat) by lia. subst j.
    destruct ch as [|ch].
    + cbn [nth]. destruct (kWeight_zero_prefix 8000 3998 [1]) as [l' ->].
      apply aget_zero_prefix. lia.
    + unfold aget. destruct ch; cbn [nth]; destruct i; reflexivity.
Qed.

Lemma measureLUFS_Some_shape (b b' : AudioBuffer) (fb fb' m : jsnum) :
  sampleRate b' = sampleRate b -> length b' = length b ->
  measureLUFS b fb = Some m -> exists m', measureLUFS b' fb' = Some m'.
Proof.
  intros Hsr Hlen. unfold measureLUFS, duration. rewrite Hsr, Hlen.
  destruct (Rlt_dec (INR (length b) / sampleRate b) LUFS_CONSTANTS.BLOCK_SIZE_SEC);
    [intros _; eexists; reflexivity|].
  destruct (blockLoop (S (length b)) (map (kWeight (sampleRate b)) (channels b))
                      (numberOfChannels b) (blockSizeOf (sampleRate b))
                      (hopSizeOf (sampleRate b)) (length b) 0) eqn:E; [|discriminate].
  intros _.
  destruct (blockLoop (S (length b)) (map (kWeight (sampleRate b)) (channels b'))
                      (numberOfChannels b') (blockSizeOf (sampleRate b))
                      (hopSizeOf (sampleRate b)) (length b) 0) eqn:E'.
  - eexists; reflexivity.
  - apply (blockLoop_None_shape _ (map (kWeight (sampleRate b)) (channels b))
                                _ (numberOfChannels b)) in E'.
    congruence.
Qed.

Lemma aget_gainedCopy (audioBuffer : AudioBuffer) (gainLinear : R) (ch i : nat) :
  aget (getChannelData (gainedCopy audioBuffer gainLinear) ch) i
  = aget (getChannelData audioBuffer ch) i * gainLinear.
Proof.
  unfold getChannelData, gainedCopy, aget; cbn [channels].
  change (@nil R) with (map (fun x => x * gainLinear) []) at 1.
  rewrite map_nth.
  replace 0 with (0 * gainLinear) at 1 by ring.
  apply (map_nth (fun x => x * gainLinear)).
Qed.

(** C8, as the code has it.  When the loudness measurement is a finite
    number, [normalizeToLUFS] multiplies every sample of every channel by
    [10^(gain/20)] with [gain = targetLUFS - measuredLUFS]; with
    [skipLimiter] it returns that buffer; otherwise it returns the
    limiter's output when [measuredPeakDb + gain > ceilingDB] and the
    gained buffer when not.  When the measurement is not finite
    ([-Infinity] for silence) it returns the input buffer untouched. *)
Theorem normalizeToLUFS_gain_then_conditional_limit (audioBuffer : AudioBuffer)
    (targetLUFS ceilingDB : R) (options : NormalizeOptions) (measuredLUFS : jsnum) :
  measureLUFS audioBuffer (Num targetLUFS) = Some measuredLUFS ->
  match measuredLUFS with
  | Num measured =>
      let gainDb := targetLUFS - measured in
      let gained := gainedCopy audioBuffer (pow10 (gainDb / 20)) in
      (forall ch i,
          aget (getChannelData gained ch) i
          = aget (getChannelData audioBuffer ch) i * pow10 (gainDb / 20))
      /\ normalizeToLUFS audioBuffer targetLUFS ceilingDB options
         = Some (if skipLimiter options then gained
                 else if jsGtNum (jsAddNum (findTruePeak audioBuffer) gainDb) ceilingDB
                      then applyLookaheadLimiter gained (pow10 (ceilingDB / 20)) 3 100
                             LIMITER_DEFAULTS.KNEE_DB LIMITER_DEFAULTS.PRESERVE_TRANSIENTS
                      else gained)
  | _ => normalizeToLUFS audioBuffer targetLUFS ceilingDB options = Some audioBuffer
  end.
Proof.
  intros Hm. unfold normalizeToLUFS. rewrite Hm.
  destruct measuredLUFS as [measured| | |]; try reflexivity.
  cbv zeta. split; [intros; apply aget_gainedCopy|].
  destruct (skipLimiter options); [reflexivity|].
  destruct (jsGtNum (jsAddNum (findTruePeak audioBuffer) (targetLUFS - measured)) ceilingDB);
    [|reflexivity].
  destruct (measureLUFS_Some_shape audioBuffer
              (applyLookaheadLimiter
                 (gainedCopy audioBuffer (pow10 ((targetLUFS - measured) / 20)))
                 (pow10 (ceilingDB / 20)) 3 100
                 LIMITER_DEFAULTS.KNEE_DB LIMITER_DEFAULTS.PRESERVE_TRANSIENTS)
              (Num targetLUFS) (Num (-14)) (Num measured) eq_refl eq_refl Hm) as [m' ->].
  reflexivity.
Qed.

Lemma normalizeToLUFS_gain_then_conditional_limit_example :
  normalizeToLUFS (mkAudioBuffer 48000 2 [[0.5; -0.5]]) (-9) (-1) (mkOptions true)
  = Some (gainedCopy (mkAudioBuffer 48000 2 [[0.5; -0.5]]) (pow10 ((-9 - -9) / 20))).
Proof.
  refine (proj2 (normalizeToLUFS_gain_then_conditional_limit
                   (mkAudioBuffer 48000 2 [[0.5; -0.5]]) (-9) (-1) (mkOptions true)
                   (Num (-9)) _)).
  unfold measureLUFS, duration, LUFS_CONSTANTS.BLOCK_SIZE_SEC; cbn [sampleRate length].
  destruct (Rlt_dec (INR 2 / 48000) 0.4) as [_|H]; [reflexivity|].
  exfalso. apply H. simpl. lra.
Defined.

(** C8, as stated, fails on [clickAtEnd]: its loudness reads [-Infinity],
    so the stated gain is [+Infinity] and the stated output sample at the
    click is [+Infinity]; the code returns the input buffer, click still
    at 1. *)
Lemma normalizeToLUFS_unmeasurable_returns_input :
  measureLUFS clickAtEnd (Num (-14)) = Some NegInfinity
  /\ normalizeToLUFS clickAtEnd (-14) (-1) (mkOptions true) = Some clickAtEnd
  /\ aget (getChannelData clickAtEnd 0) 3998 = 1
  /\ specifiedSample (aget (getChannelData clickAtEnd 0) 3998)
                     (specifiedGainLinear (specifiedGainDb (-14) NegInfinity))
     = PosInfinity.
Proof.
  assert (Hclick : aget (getChannelData clickAtEnd 0) 3998 = 1).
  { unfold clickAtEnd, getChannelData, aget; cbn [channels nth].
    rewrite app_nth2 by (rewrite repeat_length; lia).
    rewrite repeat_length, Nat.sub_diag. reflexivity. }
  split; [apply measureLUFS_clickAtEnd|].
  split; [|split; [exact Hclick|]].
  - unfold normalizeToLUFS. rewrite measureLUFS_clickAtEnd. reflexivity.
  - rewrite Hclick. cbn [specifiedGainDb specifiedGainLinear specifiedSample].
    destruct (Rlt_dec 0 1); [reflexivity|lra].
Qed.

(** ** The soft-knee curve keeps every sample under the ceiling *)

Lemma tanh_lt_1 (z : R) : tanh z < 1.
Proof.
  unfold tanh, sinh, cosh.
  pose proof (exp_pos z) as H1. pose proof (exp_pos (- z)) as H2.
  apply (Rmult_lt_reg_r ((exp z + exp (- z)) / 2)); [lra|].
  unfold Rdiv at 1. rewrite Rmult_assoc, Rinv_l by lra. lra.
Qed.

Lemma pow10_ge_1 (y : R) : 0 <= y -> 1 <= pow10 y.
Proof.
  intros Hy. unfold pow10, Rpower.
  assert (H10 : 0 < ln 10) by (rewrite <- ln_1; apply ln_increasing; lra).
  destruct (Req_dec y 0) as [->|Hne].
  - rewrite Rmult_0_l, exp_0. lra.
  - rewrite <- exp_0. left. apply exp_increasing. apply Rmult_lt_0_compat; lra.
Qed.

Lemma Rabs_sign_mult (x v : R) : 0 <= v -> Rabs (sign x * v) <= v.
Proof.
  intros Hv. unfold sign.
  destruct (Rlt_dec 0 x); [|destruct (Rlt_dec x 0)]; rcases; lra.
Qed.

Lemma applySoftKneeCurve_within_ceiling (sample ceiling kneeDB : R) :
  0 < ceiling -> 0 <= kneeDB ->
  Rabs (applySoftKneeCurve sample ceiling kneeDB) <= ceiling.
Proof.
  intros Hc Hk. unfold applySoftKneeCurve.
  assert (Hratio : 1 <= pow10 (kneeDB / 20)) by (apply pow10_ge_1; lra).
  assert (Hstart : ceiling / pow10 (kneeDB / 20) <= ceiling).
  { apply (Rmult_le_reg_r (pow10 (kneeDB / 20))); [lra|]. unfold Rdiv.
    rewrite Rmult_assoc, Rinv_l by lra. nra. }
  destruct (Rle_dec (Rabs sample) (ceiling * 0.9)); [lra|].
  destruct (Rle_dec (Rabs sample) (ceiling / pow10 (kneeDB / 20))); [lra|].
  destruct (Rle_dec (Rabs sample) ceiling) as [Hle|Hgt].
  - set (kneeStart := ceiling / pow10 (kneeDB / 20)) in *.
    set (t := (Rabs sample - kneeStart) / (ceiling - kneeStart)).
    assert (Ht : 0 <= t <= 1).
    { unfold t. split.
      - apply Rmult_le_pos; [lra|]. left. apply Rinv_0_lt_compat. lra.
      - apply (Rmult_le_reg_r (ceiling - kneeStart)); [lra|]. unfold Rdiv.
        rewrite Rmult_assoc, Rinv_l by lra. lra. }
    assert (Hblend : 0 <= t * t * (3 - 2 * t) <= 1).
    { split.
      - apply Rmult_le_pos; [apply Rle_0_sqr|lra].
      - assert (H : 0 <= (1 - t) * (1 - t) * (1 + 2 * t))
          by (apply Rmult_le_pos; [apply Rle_0_sqr|lra]).
        lra. }
    assert (Hout : 0 <= Rabs sample + (ceiling - Rabs sample) * (t * t * (3 - 2 * t)) * 0.5
                   <= ceiling).
    { pose proof (Rabs_pos sample). nra. }
    eapply Rle_trans; [apply Rabs_sign_mult; lra|lra].
  - set (compression := 1 - tanh ((Rabs sample - ceiling) / ceiling * 2) * 0.1).
    assert (Hcomp : 0 <= compression).
    { unfold compression.
      pose proof (tanh_lt_1 ((Rabs sample - ceiling) / ceiling * 2)). lra. }
    assert (Hout : 0 <= Rmin ceiling (Rabs sample * compression) <= ceiling).
    { split; [|apply Rmin_l].
      apply Rmin_glb; [lra|]. apply Rmult_le_pos; [apply Rabs_pos|exact Hcomp]. }
    eapply Rle_trans; [apply Rabs_sign_mult; lra|lra].
Qed.

Lemma softKneeLoop_within_ceiling (ceiling kneeDB : R) (input : list R) :
  0 < ceiling -> 0 <= kneeDB ->
  forall prevSamples i,
    Forall (fun y => Rabs y <= ceiling) (softKneeLoop ceiling kneeDB prevSamples i input).
Proof.
  intros Hc Hk. induction input as [|x rest IH]; intros prevSamples i;
    cbn [softKneeLoop]; constructor; [|apply IH].
  destruct (i <? 3)%nat; [now apply applySoftKneeCurve_within_ceiling|].
  destruct (Rgt_dec (maxInterpolatedOf (shiftIn prevSamples x)) ceiling);
    now apply applySoftKneeCurve_within_ceiling.
Qed.

(** What the limiter does guarantee: for a positive ceiling and a
    non-negative knee, no output sample exceeds the ceiling. *)
Lemma applyLookaheadLimiter_samples_within_ceiling (audioBuffer : AudioBuffer)
    (ceilingLinear lookaheadMs releaseMs kneeDB : R) (preserveTransients : bool) :
  0 < ceilingLinear -> 0 <= kneeDB ->
  Forall (Forall (fun y => Rabs y <= ceilingLinear))
         (channels (applyLookaheadLimiter audioBuffer ceilingLinear lookaheadMs releaseMs
                                          kneeDB preserveTransients)).
Proof.
  intros Hc Hk. unfold applyLookaheadLimiter. cbn [channels].
  apply Forall_forall. intros out Hin. apply in_map_iff in Hin.
  destruct Hin as [input [<- _]]. unfold limitChannel, applySoftKneeOversampled.
  now apply softKneeLoop_within_ceiling.
Qed.

(** ** The lookahead limiter on a burst at the start of a buffer *)

Lemma floor_lookahead : floor (48000 * 3 / 1000) = 144%nat.
Proof. apply floor_unique. rewrite INR_IZR_INZ. simpl Z.of_nat. lra. Qed.

Lemma INR_144 : INR 144 = 144.
Proof. rewrite INR_IZR_INZ. simpl Z.of_nat. reflexivity. Qed.

Lemma floor_window : floor (48000 * 10 / 1000) = 480%nat.
Proof. apply floor_unique. rewrite INR_IZR_INZ. simpl Z.of_nat. lra. Qed.

Lemma ln_le_0 (y : R) : y <= 1 -> ln y <= 0.
Proof.
  intros Hy. destruct (Rle_dec y 0) as [H0|H0].
  - unfold ln. destruct (Rlt_dec 0 y); [exfalso; lra|lra].
  - destruct (Req_dec y 1) as [->|Hne]; [rewrite ln_1; lra|].
    rewrite <- ln_1. left. apply ln_increasing; lra.
Qed.

Lemma transientEntry_zero (rmsEnv peakEnv : R) :
  0 < rmsEnv -> peakEnv <= rmsEnv -> transientEntry rmsEnv peakEnv = 0.
Proof.
  intros Hr Hp. unfold transientEntry.
  destruct (Rgt_dec rmsEnv 0.0001); [|reflexivity].
  assert (Hq : peakEnv / rmsEnv <= 1).
  { apply (Rmult_le_reg_r rmsEnv); [assumption|]. unfold Rdiv.
    rewrite Rmult_assoc, Rinv_l by lra. lra. }
  assert (Hl : log10 (peakEnv / rmsEnv) <= 0).
  { unfold log10. pose proof (ln_le_0 _ Hq) as H1.
    assert (H10 : 0 < ln 10) by (rewrite <- ln_1; apply ln_increasing; lra).
    assert (Hi : 0 < / ln 10) by (apply Rinv_0_lt_compat; assumption).
    unfold Rdiv. nra. }
  rcases; lra.
Qed.

Lemma peakLoop_bounded (chans : list (list R)) (numChannels : nat)
    (peakAttack peakRelease M : R) :
  0 <= peakAttack <= 1 -> 0 <= peakRelease <= 1 ->
  (forall i, peakAt chans numChannels i <= M) ->
  forall n i peakLevel, peakLevel <= M ->
    Forall (fun e => e <= M)
           (peakLoop chans numChannels peakAttack peakRelease peakLevel i n).
Proof.
  intros Ha Hr HM. induction n as [|n IH]; intros i peakLevel Hp; cbn [peakLoop];
    [constructor|].
  specialize (HM i).
  assert (Hnew : (if Rgt_dec (peakAt chans numChannels i) peakLevel
                  then peakAttack * peakLevel + (1 - peakAttack) * peakAt chans numChannels i
                  else peakRelease * peakLevel
                       + (1 - peakRelease) * peakAt chans numChannels i) <= M).
  { destruct (Rgt_dec (peakAt chans numChannels i) peakLevel); nra. }
  constructor; [exact Hnew|]. apply IH. exact Hnew.
Qed.

Lemma exp_neg_unit (x : R) : x < 0 -> 0 <= exp x <= 1.
Proof.
  intros Hx. split; [left; apply exp_pos|].
  rewrite <- exp_0. left. apply exp_increasing. exact Hx.
Qed.

Section Burst.
Variable c : R.
Hypothesis Hc : 0 < c.

Lemma peakAt_burst (i : nat) : peakAt [burst c] 1 i <= 0.88 * c.
Proof.
  unfold peakAt, burst, aget. cbn [seq fold_left nth].
  do 4 (destruct i as [|i]; [cbn [nth]; rcases; lra|]).
  destruct i; cbn [nth]; rcases; lra.
Qed.

Lemma rmsLoop_burst :
  rmsLoop [burst c] 1 480 0 0 4 = [0.88 * c; 0.88 * c; 0.88 * c; 0.88 * c].
Proof.
  unfold burst. cbn [rmsLoop]. unfold sumSquaresAt, aget. cbn [seq fold_left nth].
  cbn [Nat.leb Nat.min Nat.add Nat.sub INR].
  repeat match goal with
         | |- context [sqrt ?e] =>
             replace e with ((0.88 * c) * (0.88 * c)) by field;
             rewrite sqrt_square by lra
         end.
  reflexivity.
Qed.

Lemma transientMap_burst (i : nat) :
  aget (computeTransientMap [burst c] 1 4 48000) i = 0.
Proof.
  unfold computeTransientMap. rewrite floor_window, rmsLoop_burst.
  destruct (Nat.lt_ge_cases i 4) as [Hi|Hi].
  - rewrite aget_map_seq by exact Hi.
    apply transientEntry_zero.
    + unfold aget. do 4 (destruct i as [|i]; [cbn [nth]; lra|]). lia.
    + assert (Hb : Forall (fun e => e <= 0.88 * c)
                     (peakLoop [burst c] 1 (exp (-1 / (0.001 * 48000)))
                               (exp (-1 / (0.050 * 48000))) 0 0 4)).
      { apply peakLoop_bounded.
        - apply exp_neg_unit. lra.
        - apply exp_neg_unit. lra.
        - apply peakAt_burst.
        - lra. }
      assert (Ha : aget [0.88 * c; 0.88 * c; 0.88 * c; 0.88 * c] i = 0.88 * c).
      { unfold aget. do 4 (destruct i as [|i]; [reflexivity|]). lia. }
      rewrite Ha. rewrite Forall_forall in Hb. apply Hb. unfold aget. apply nth_In.
      cbn [peakLoop List.length]. exact Hi.
  - unfold aget. apply nth_overflow. rewrite length_map, length_seq. exact Hi.
Qed.

Lemma truePeak_burst :
  calculateTruePeakSample (- (0.88 * c), 0.88 * c, 0.88 * c, - (0.88 * c)) = 1.1 * c.
Proof.
  unfold calculateTruePeakSample. cbn [fold_left INR].
  rcases; lra.
Qed.

Lemma stage1_burst :
  stage1 [burst c] 1 4 c 144 (Some (computeTransientMap [burst c] 1 4 48000))
  = [1; 1583 / 1584; 1582 / 1584; 1581 / 1584].
Proof.
  unfold stage1. cbn [seq fold_left repeat].
  unfold stage1Step at 4. cbn [Nat.leb Nat.ltb andb prevSamplesL prevSamplesR gainEnvelope].
  rewrite transientMap_burst.
  unfold lookaheadSpread. cbn [Nat.sub aget nth].
  repeat rcase.
  unfold stage1Step at 3. cbn [Nat.leb Nat.ltb andb prevSamplesL prevSamplesR gainEnvelope].
  rewrite transientMap_burst.
  unfold lookaheadSpread. cbn [Nat.sub aget nth].
  repeat rcase.
  unfold stage1Step at 2. cbn [Nat.leb Nat.ltb andb prevSamplesL prevSamplesR gainEnvelope].
  rewrite transientMap_burst.
  unfold lookaheadSpread. cbn [Nat.sub aget nth].
  repeat rcase.
  unfold stage1Step. cbn [Nat.leb Nat.ltb andb prevSamplesL prevSamplesR gainEnvelope].
  rewrite transientMap_burst.
  unfold burst, emptyWindow, shiftIn, aget. cbn [nth].
  rewrite truePeak_burst.
  repeat rcase.
  replace (c / (1.1 * c)) with (10 / 11)
    by (replace 1.1 with (11 / 10) by lra; field; lra).
  unfold lookaheadSpread. cbn [Nat.sub Nat.add aget nth seq fold_left aset].
  rewrite INR_144. cbn [INR].
  rcases. list_lra.
Qed.

Lemma envelope_burst :
  limiterGainEnvelope (burstBuffer c) c 3 100 true
  = [1; 1583 / 1584; 1582 / 1584; 1581 / 1584].
Proof.
  unfold limiterGainEnvelope, burstBuffer, numberOfChannels.
  cbn [sampleRate length channels List.length].
  rewrite floor_lookahead, stage1_burst. cbn [releaseLoop].
  rcases; list_lra.
Qed.

Lemma applySoftKneeCurve_fast (sample kneeDB : R) :
  Rabs sample <= c * 0.9 -> applySoftKneeCurve sample c kneeDB = sample.
Proof.
  intros H. unfold applySoftKneeCurve.
  destruct (Rle_dec (Rabs sample) (c * 0.9)); [reflexivity|contradiction].
Qed.

Lemma maxInterpolated_burst :
  maxInterpolatedOf (- (0.88 * c) * 1, 0.88 * c * (1583 / 1584),
                     0.88 * c * (1582 / 1584), - (0.88 * c) * (1581 / 1584))
  = 211 / 192 * c.
Proof.
  unfold maxInterpolatedOf, interpolateCatmullRom. cbn [fold_left INR].
  rcases; lra.
Qed.

(** The limiter's output on the burst: the ramp of stage 1 is spread over
    144 samples although only 3 precede the peak, so it lowers the two
    middle samples by less than a thousandth; stage 2 then scales the
    fourth sample, not the two around the peak. *)
Lemma limited_burst :
  channels (applyLookaheadLimiter (burstBuffer c) c 3 100 3 true)
  = [[- (0.88 * c); 0.88 * c * (1583 / 1584); 0.88 * c * (1582 / 1584);
      - (0.88 * c * (1581 / 1584) * (192 / 211))]].
Proof.
  unfold applyLookaheadLimiter. rewrite envelope_burst.
  unfold burstBuffer. cbn [sampleRate length channels map].
  unfold limitChannel, burst, aget. cbn [seq map nth].
  unfold applySoftKneeOversampled. cbn [softKneeLoop Nat.ltb Nat.leb].
  unfold emptyWindow, shiftIn.
  rewrite maxInterpolated_burst.
  destruct (Rgt_dec (211 / 192 * c) c) as [_|H]; [|exfalso; lra].
  replace (c / (211 / 192 * c)) with (192 / 211) by (field; lra).
  rewrite !applySoftKneeCurve_fast by (rcases; lra).
  f_equal. list_lra.
Qed.

Lemma overshoot_burst :
  1.09 * c
  < interpolateCatmullRom (- (0.88 * c)) (0.88 * c * (1583 / 1584))
                          (0.88 * c * (1582 / 1584))
                          (- (0.88 * c * (1581 / 1584) * (192 / 211))) 0.5.
Proof. unfold interpolateCatmullRom. lra. Qed.
End Burst.

(** C4, on the code.  With the default ceiling [c = 0.891] (-1 dBTP),
    lookahead 3 ms, release 100 ms, knee 3 dB and transient preservation on,
    the limiter maps the four-sample burst at 88% of the ceiling to four
    samples that each stay under the ceiling: the gain envelope barely
    leaves 1.  The curve through the output at [t = 0.5], between the two
    middle samples, exceeds the ceiling by more than 9%, far above a margin
    of 1e-4, and the detector [findChannelTruePeak] reads that overshoot
    on the output.  The same happens with the ceiling [10^(20/20)]. *)
Theorem applyLookaheadLimiter_intersample_overshoot :
  let c := LIMITER_DEFAULTS.CEILING_LINEAR in
  let out :=
    applyLookaheadLimiter (burstBuffer c) c LIMITER_DEFAULTS.LOOKAHEAD_MS
      LIMITER_DEFAULTS.RELEASE_MS LIMITER_DEFAULTS.KNEE_DB
      LIMITER_DEFAULTS.PRESERVE_TRANSIENTS in
  let c' := pow10 (20 / 20) in
  let out' := applyLookaheadLimiter (burstBuffer c') c' 3 100 3 true in
  (limiterGainEnvelope (burstBuffer c) c 3 100 true
   = [1; 1583 / 1584; 1582 / 1584; 1581 / 1584]
   /\ channels out
      = [[- (0.88 * c); 0.88 * c * (1583 / 1584); 0.88 * c * (1582 / 1584);
          - (0.88 * c * (1581 / 1584) * (192 / 211))]]
   /\ c + 1e-4
      < interpolateCatmullRom (aget (getChannelData out 0) 0) (aget (getChannelData out 0) 1)
                              (aget (getChannelData out 0) 2) (aget (getChannelData out 0) 3)
                              0.5
   /\ c + 1e-4 < findChannelTruePeak (getChannelData out 0))
  /\ (channels out'
      = [[- (0.88 * c'); 0.88 * c' * (1583 / 1584); 0.88 * c' * (1582 / 1584);
          - (0.88 * c' * (1581 / 1584) * (192 / 211))]]
      /\ c' + 1e-4
         < interpolateCatmullRom (aget (getChannelData out' 0) 0)
                                 (aget (getChannelData out' 0) 1)
                                 (aget (getChannelData out' 0) 2)
                                 (aget (getChannelData out' 0) 3) 0.5).
Proof.
  intros c out c' out'.
  assert (Hc : 0 < c) by (unfold c, LIMITER_DEFAULTS.CEILING_LINEAR; lra).
  assert (Hc' : 0 < c') by apply pow10_pos.
  assert (Hout : channels out
                 = [[- (0.88 * c); 0.88 * c * (1583 / 1584); 0.88 * c * (1582 / 1584);
                     - (0.88 * c * (1581 / 1584) * (192 / 211))]])
    by exact (limited_burst c Hc).
  assert (Hout' : channels out'
                  = [[- (0.88 * c'); 0.88 * c' * (1583 / 1584); 0.88 * c' * (1582 / 1584);
                      - (0.88 * c' * (1581 / 1584) * (192 / 211))]])
    by exact (limited_burst c' Hc').
  pose proof (overshoot_burst c Hc) as Hover.
  pose proof (overshoot_burst c' Hc') as Hover'.
  assert (Hm : c + 1e-4 < 1.09 * c) by (unfold c, LIMITER_DEFAULTS.CEILING_LINEAR; lra).
  assert (Hm' : c' + 1e-4 < 1.09 * c').
  { unfold c'. replace (20 / 20) with 1 by lra. rewrite pow10_1. lra. }
  split; [split; [exact (envelope_burst c Hc)|split; [exact Hout|split]]|split].
  - unfold getChannelData. rewrite Hout. cbn [nth aget]. lra.
  - unfold getChannelData. rewrite Hout. cbn [nth].
    unfold findChannelTruePeak. cbn [truePeakLoop Nat.leb].
    unfold emptyWindow, shiftIn.
    match goal with
    | |- _ < (if Rgt_dec ?tp 0 then _ else _) =>
        assert (Htp : 1.09 * c < tp);
        [|destruct (Rgt_dec tp 0); lra]
    end.
    eapply Rlt_le_trans; [exact Hover|].
    unfold calculateTruePeakSample, interpolateCatmullRom. cbn [fold_left INR].
    eapply Rle_trans; [|apply Rmax_l]. eapply Rle_trans; [|apply Rmax_r].
    eapply Rle_trans; [|apply Rle_abs]. lra.
  - exact Hout'.
  - unfold getChannelData. rewrite Hout'. cbn [nth aget]. lra.
Qed.

(** * Further properties of the code *)

(** ** True-peak detection: bounds, scaling and peak normalisation *)

Lemma Rabs_le_of_bounds (x m : R) : - m <= x <= m -> Rabs x <= m.
Proof. intros H. apply Rabs_le. exact H. Qed.

Lemma bounds_of_Rabs_le (x m : R) : Rabs x <= m -> - m <= x <= m.
Proof. unfold Rabs. destruct (Rcase_abs x); lra. Qed.

Lemma calculateTruePeakSample_range (y0 y1 y2 y3 M : R) :
  Rabs y0 <= M -> Rabs y1 <= M -> Rabs y2 <= M -> Rabs y3 <= M ->
  Rabs y2 <= calculateTruePeakSample (y0, y1, y2, y3)
  /\ calculateTruePeakSample (y0, y1, y2, y3)
     = Rmax (Rabs y2) (maxInterpolatedOf (y0, y1, y2, y3))
  /\ calculateTruePeakSample (y0, y1, y2, y3) <= 1.25 * M.
Proof.
  intros H0 H1 H2 H3.
  apply bounds_of_Rabs_le in H0. apply bounds_of_Rabs_le in H1.
  apply bounds_of_Rabs_le in H2. apply bounds_of_Rabs_le in H3.
  unfold calculateTruePeakSample, maxInterpolatedOf, interpolateCatmullRom.
  cbn [fold_left INR].
  set (a0 := -0.5 * y0 + 1.5 * y1 - 1.5 * y2 + 0.5 * y3).
  set (a1 := y0 - 2.5 * y1 + 2 * y2 - 0.5 * y3).
  set (a2 := -0.5 * y0 + 0.5 * y2).
  set (e1 := a0 * (1 * 0.25 * (1 * 0.25) * (1 * 0.25)) + a1 * (1 * 0.25 * (1 * 0.25))
             + a2 * (1 * 0.25) + y1).
  set (e2 := a0 * ((1 + 1) * 0.25 * ((1 + 1) * 0.25) * ((1 + 1) * 0.25))
             + a1 * ((1 + 1) * 0.25 * ((1 + 1) * 0.25)) + a2 * ((1 + 1) * 0.25) + y1).
  set (e3 := a0 * ((1 + 1 + 1) * 0.25 * ((1 + 1 + 1) * 0.25) * ((1 + 1 + 1) * 0.25))
             + a1 * ((1 + 1 + 1) * 0.25 * ((1 + 1 + 1) * 0.25))
             + a2 * ((1 + 1 + 1) * 0.25) + y1).
  assert (B1 : Rabs e1 <= 1.25 * M)
    by (apply Rabs_le_of_bounds; unfold e1, a0, a1, a2; lra).
  assert (B2 : Rabs e2 <= 1.25 * M)
    by (apply Rabs_le_of_bounds; unfold e2, a0, a1, a2; lra).
  assert (B3 : Rabs e3 <= 1.25 * M)
    by (apply Rabs_le_of_bounds; unfold e3, a0, a1, a2; lra).
  assert (B2' : Rabs y2 <= 1.25 * M) by (apply Rabs_le_of_bounds; lra).
  set (n1 := Rabs e1) in *. set (n2 := Rabs e2) in *. set (n3 := Rabs e3) in *.
  set (m := Rabs y2) in *.
  assert (P1 : 0 <= n1) by apply Rabs_pos. assert (P2 : 0 <= n2) by apply Rabs_pos.
  assert (P3 : 0 <= n3) by apply Rabs_pos. assert (P0 : 0 <= m) by apply Rabs_pos.
  clearbody n1 n2 n3 m.
  unfold Rmax. repeat rcase; repeat split; lra.
Qed.

Lemma log10_pow10 (x : R) : log10 (pow10 x) = x.
Proof.
  unfold log10, pow10, Rpower. rewrite ln_exp.
  assert (H10 : 0 < ln 10) by (rewrite <- ln_1; apply ln_increasing; lra).
  field. lra.
Qed.

Lemma log10_mult (x y : R) : 0 < x -> 0 < y -> log10 (x * y) = log10 x + log10 y.
Proof.
  intros Hx Hy. unfold log10. rewrite ln_mult by assumption.
  assert (H10 : 0 < ln 10) by (rewrite <- ln_1; apply ln_increasing; lra).
  field. lra.
Qed.

Lemma interpolateCatmullRom_scale (g y0 y1 y2 y3 t : R) :
  interpolateCatmullRom (y0 * g) (y1 * g) (y2 * g) (y3 * g) t
  = interpolateCatmullRom y0 y1 y2 y3 t * g.
Proof. unfold interpolateCatmullRom. ring. Qed.

Lemma calculateTruePeakSample_interpolate (y0 y1 y2 y3 : R) :
  calculateTruePeakSample (y0, y1, y2, y3)
  = Rmax (Rmax (Rmax (Rabs y2)
                     (Rabs (interpolateCatmullRom y0 y1 y2 y3 (INR 1 * 0.25))))
               (Rabs (interpolateCatmullRom y0 y1 y2 y3 (INR 2 * 0.25))))
         (Rabs (interpolateCatmullRom y0 y1 y2 y3 (INR 3 * 0.25))).
Proof. reflexivity. Qed.

Lemma Rmax_scale (g p q : R) : 0 <= g -> Rmax (p * g) (q * g) = Rmax p q * g.
Proof.
  intros Hg. rewrite !(Rmult_comm _ g). now apply RmaxRmult.
Qed.

Lemma calculateTruePeakSample_scale (g y0 y1 y2 y3 : R) :
  0 <= g ->
  calculateTruePeakSample (y0 * g, y1 * g, y2 * g, y3 * g)
  = calculateTruePeakSample (y0, y1, y2, y3) * g.
Proof.
  intros Hg. rewrite !calculateTruePeakSample_interpolate.
  rewrite !interpolateCatmullRom_scale, !Rabs_mult, (Rabs_right g) by lra.
  now rewrite !Rmax_scale.
Qed.

Lemma truePeakLoop_scale (g : R) (channelData : list R) :
  0 < g ->
  forall p0 p1 p2 p3 maxPeak i,
    truePeakLoop (p0 * g, p1 * g, p2 * g, p3 * g) (maxPeak * g) i
                 (map (fun x => x * g) channelData)
    = truePeakLoop (p0, p1, p2, p3) maxPeak i channelData * g.
Proof.
  intros Hg. induction channelData as [|x rest IH]; intros p0 p1 p2 p3 maxPeak i;
    cbn [truePeakLoop map shiftIn]; [reflexivity|].
  rewrite <- IH. f_equal.
  destruct (3 <=? i)%nat; [|reflexivity].
  rewrite calculateTruePeakSample_scale by lra.
  destruct (Rgt_dec (calculateTruePeakSample (p1, p2, p3, x)) maxPeak);
    destruct (Rgt_dec (calculateTruePeakSample (p1, p2, p3, x) * g) (maxPeak * g));
    try reflexivity; exfalso; nra.
Qed.

Lemma findTruePeakLinear_scale (g : R) (chans : list (list R)) :
  0 < g ->
  findTruePeakLinear (map (map (fun x => x * g)) chans) = findTruePeakLinear chans * g.
Proof.
  intros Hg. unfold findTruePeakLinear.
  assert (H : forall maxPeak,
             fold_left (fun maxPeak channelData =>
                          truePeakLoop emptyWindow maxPeak 0 channelData)
                       (map (map (fun x => x * g)) chans) (maxPeak * g)
             = fold_left (fun maxPeak channelData =>
                            truePeakLoop emptyWindow maxPeak 0 channelData)
                         chans maxPeak * g).
  { induction chans as [|ch chans IH]; intros maxPeak; cbn [fold_left map];
      [reflexivity|].
    rewrite <- IH. f_equal. unfold emptyWindow.
    rewrite <- truePeakLoop_scale by exact Hg. now rewrite Rmult_0_l. }
  rewrite <- H. now rewrite Rmult_0_l.
Qed.

Lemma findTruePeak_gained (audioBuffer : AudioBuffer) (gainDB : R) :
  findTruePeak (applyGain audioBuffer gainDB)
  = jsAddNum (findTruePeak audioBuffer) gainDB.
Proof.
  unfold findTruePeak, applyGain, gainedCopy. cbn [channels].
  pose proof (pow10_pos (gainDB / 20)) as Hg.
  rewrite findTruePeakLinear_scale by exact Hg.
  destruct (Rgt_dec (findTruePeakLinear (channels audioBuffer)) 0) as [Hp|Hp];
    destruct (Rgt_dec (findTruePeakLinear (channels audioBuffer) * pow10 (gainDB / 20)) 0)
      as [Hq|Hq]; cbn [jsAddNum]; try reflexivity; try (exfalso; nra).
  f_equal. rewrite log10_mult by lra. rewrite log10_pow10. lra.
Qed.

(** When the peak is measurable, [normalizeToPeak] returns the buffer
    gained by [targetPeakDB - currentPeakDB], and the true peak of that
    buffer is exactly the target. *)
Theorem normalizeToPeak_reaches_target (audioBuffer : AudioBuffer)
    (targetPeakDB currentPeakDB : R) :
  findTruePeak audioBuffer = Num currentPeakDB ->
  exists normalized,
    normalizeToPeak audioBuffer targetPeakDB = inl normalized
    /\ findTruePeak normalized = Num targetPeakDB.
Proof.
  intros Hpeak. unfold normalizeToPeak. rewrite Hpeak.
  eexists. split; [reflexivity|].
  rewrite findTruePeak_gained, Hpeak. cbn [jsAddNum]. f_equal. lra.
Qed.
Lemma truePeakLoop_ge_maxPeak (channelData : list R) :
  forall prevSamples maxPeak i,
    maxPeak <= truePeakLoop prevSamples maxPeak i channelData.
Proof.
  induction channelData as [|x rest IH]; intros prevSamples maxPeak i;
    cbn [truePeakLoop]; [lra|].
  eapply Rle_trans; [|apply IH].
  destruct (3 <=? i)%nat; [|lra]. rcase; lra.
Qed.

Lemma truePeakLoop_ge_window (channelData : list R) :
  forall prevSamples maxPeak i k,
    (k < List.length channelData)%nat -> (3 <= i + k)%nat ->
    calculateTruePeakSample (fold_left shiftIn (firstn (S k) channelData) prevSamples)
    <= truePeakLoop prevSamples maxPeak i channelData.
Proof.
  induction channelData as [|x rest IH]; intros prevSamples maxPeak i k Hk Hi;
    cbn [List.length] in Hk; [lia|].
  cbn [truePeakLoop firstn fold_left].
  destruct k as [|k].
  - cbn [firstn fold_left]. eapply Rle_trans; [|apply truePeakLoop_ge_maxPeak].
    destruct (3 <=? i)%nat eqn:E; [|apply Nat.leb_gt in E; lia].
    rcase; lra.
  - apply IH; lia.
Qed.

Lemma truePeakLoop_le_bound (M : R) (channelData : list R) :
  Forall (fun x => Rabs x <= M) channelData ->
  forall p0 p1 p2 p3 maxPeak i,
    Rabs p0 <= M -> Rabs p1 <= M -> Rabs p2 <= M -> Rabs p3 <= M ->
    maxPeak <= 1.25 * M ->
    truePeakLoop (p0, p1, p2, p3) maxPeak i channelData <= 1.25 * M.
Proof.
  induction 1 as [|x rest Hx _ IH]; intros p0 p1 p2 p3 maxPeak i H0 H1 H2 H3 Hm;
    cbn [truePeakLoop shiftIn]; [exact Hm|].
  apply IH; try assumption.
  destruct (3 <=? i)%nat; [|exact Hm].
  destruct (calculateTruePeakSample_range p1 p2 p3 x M) as [_ [_ Hb]]; try assumption.
  rcase; lra.
Qed.

Lemma nominal_firstn (channelData : list R) (k : nat) :
  (k < List.length channelData)%nat -> (1 <= k)%nat ->
  nominal (fold_left shiftIn (firstn (S k) channelData) emptyWindow)
  = aget channelData (k - 1).
Proof.
  intros Hk H1. change (fold_left shiftIn ?l emptyWindow) with (historyAfter l).
  rewrite historyAfter_recent. cbn [nominal]. unfold recent.
  rewrite length_firstn, Nat.min_l by lia.
  destruct (2 <=? S k)%nat eqn:E; [|apply Nat.leb_gt in E; lia].
  replace (S k - 2)%nat with (k - 1)%nat by lia.
  unfold aget. rewrite <- (firstn_skipn (S k) channelData) at 2.
  rewrite app_nth1; [reflexivity|]. rewrite length_firstn. lia.
Qed.

Lemma findChannelTruePeak_range (channelData : list R) (M : R) :
  Forall (fun x => Rabs x <= M) channelData ->
  0 <= M ->
  (forall k, (2 <= k)%nat -> (k + 1 < List.length channelData)%nat ->
             Rabs (aget channelData k) <= findChannelTruePeak channelData)
  /\ 0 <= findChannelTruePeak channelData <= 1.25 * M.
Proof.
  intros Hall HM. unfold findChannelTruePeak. split; [|split].
  - intros k Hk2 Hk.
    pose proof (truePeakLoop_ge_window channelData emptyWindow 0 0 (k + 1)) as Hw.
    cbn [Nat.add] in Hw. specialize (Hw Hk ltac:(lia)).
    eapply Rle_trans; [|exact Hw].
    replace (S (k + 1)) with (S (S k)) by lia.
    pose proof (nominal_firstn channelData (S k) ltac:(lia) ltac:(lia)) as Hn.
    replace (S k - 1)%nat with k in Hn by lia. rewrite <- Hn.
    destruct (fold_left shiftIn (firstn (S (S k)) channelData) emptyWindow)
      as [[[y0 y1] y2] y3].
    cbn [nominal].
    set (B := Rmax (Rmax (Rabs y0) (Rabs y1)) (Rmax (Rabs y2) (Rabs y3))).
    destruct (calculateTruePeakSample_range y0 y1 y2 y3 B) as [Hlow _];
      [unfold B, Rmax; repeat rcase; lra ..|exact Hlow].
  - apply truePeakLoop_ge_maxPeak.
  - unfold emptyWindow. apply truePeakLoop_le_bound; try assumption;
      try (rewrite Rabs_R0; exact HM). lra.
Qed.

Lemma truePeakLoop_mono (channelData : list R) :
  forall prevSamples m m' i,
    m <= m' ->
    truePeakLoop prevSamples m i channelData <= truePeakLoop prevSamples m' i channelData.
Proof.
  induction channelData as [|x rest IH]; intros prevSamples m m' i Hm;
    cbn [truePeakLoop]; [exact Hm|].
  apply IH. destruct (3 <=? i)%nat; [|exact Hm]. repeat rcase; lra.
Qed.

Lemma findTruePeakLinear_fold_ge (chans : list (list R)) :
  forall maxPeak,
    maxPeak <= fold_left (fun maxPeak channelData =>
                            truePeakLoop emptyWindow maxPeak 0 channelData)
                         chans maxPeak.
Proof.
  induction chans as [|c chans IH]; intros maxPeak; cbn [fold_left]; [lra|].
  eapply Rle_trans; [|apply IH]. apply truePeakLoop_ge_maxPeak.
Qed.

Lemma findTruePeakLinear_ge_channel (chans : list (list R)) (channelData : list R) :
  In channelData chans -> findChannelTruePeak channelData <= findTruePeakLinear chans.
Proof.
  unfold findTruePeakLinear, findChannelTruePeak.
  assert (G : forall maxPeak, 0 <= maxPeak -> In channelData chans ->
              truePeakLoop emptyWindow 0 0 channelData
              <= fold_left (fun maxPeak channelData =>
                              truePeakLoop emptyWindow maxPeak 0 channelData)
                           chans maxPeak).
  { induction chans as [|c chans IH]; intros maxPeak Hm Hin; [destruct Hin|].
    cbn [fold_left]. destruct Hin as [->|Hin].
    - eapply Rle_trans; [|apply findTruePeakLinear_fold_ge].
      now apply truePeakLoop_mono.
    - apply IH; [|exact Hin].
      eapply Rle_trans; [exact Hm|apply truePeakLoop_ge_maxPeak]. }
  apply G. lra.
Qed.

Lemma findTruePeakLinear_le_bound (chans : list (list R)) (M : R) :
  Forall (Forall (fun x => Rabs x <= M)) chans -> 0 <= M ->
  findTruePeakLinear chans <= 1.25 * M.
Proof.
  intros Hall HM. unfold findTruePeakLinear.
  assert (G : forall maxPeak, maxPeak <= 1.25 * M ->
              fold_left (fun maxPeak channelData =>
                           truePeakLoop emptyWindow maxPeak 0 channelData)
                        chans maxPeak <= 1.25 * M).
  { induction Hall as [|c chans Hc _ IH]; intros maxPeak Hm; cbn [fold_left];
      [exact Hm|].
    apply IH. unfold emptyWindow.
    apply truePeakLoop_le_bound; try assumption; rewrite Rabs_R0; exact HM. }
  apply G. lra.
Qed.

Lemma log10_le (x y : R) : 0 < x -> x <= y -> log10 x <= log10 y.
Proof.
  intros Hx Hxy. unfold log10.
  assert (H10 : 0 < ln 10) by (rewrite <- ln_1; apply ln_increasing; lra).
  apply Rmult_le_compat_r; [left; now apply Rinv_0_lt_compat|].
  destruct Hxy as [Hlt| ->]; [left; now apply ln_increasing | right; reflexivity].
Qed.

(** A sample from the third to the last but one that is not zero makes
    the true peak of the buffer measurable: the reading is at least the
    level of that sample and at most [20 log10 1.25] (about 1.94 dB) above
    the level [M] that bounds all samples. *)
Theorem findTruePeak_between (audioBuffer : AudioBuffer) (channelData : list R)
    (k : nat) (M : R) :
  Forall (Forall (fun x => Rabs x <= M)) (channels audioBuffer) ->
  In channelData (channels audioBuffer) ->
  (2 <= k)%nat -> (k + 1 < List.length channelData)%nat ->
  aget channelData k <> 0 ->
  exists peakDB,
    findTruePeak audioBuffer = Num peakDB
    /\ 20 * log10 (Rabs (aget channelData k)) <= peakDB <= 20 * log10 (1.25 * M).
Proof.
  intros Hall Hin Hk2 Hk Hnz.
  assert (Hpos : 0 < Rabs (aget channelData k)) by now apply Rabs_pos_lt.
  assert (HcM : Forall (fun x => Rabs x <= M) channelData)
    by (rewrite Forall_forall in Hall; now apply Hall).
  assert (HM : 0 <= M).
  { rewrite Forall_forall in HcM.
    assert (Hi : In (aget channelData k) channelData) by (apply nth_In; lia).
    specialize (HcM _ Hi). lra. }
  destruct (findChannelTruePeak_range channelData M HcM HM) as [Hlow _].
  specialize (Hlow k Hk2 Hk).
  pose proof (findTruePeakLinear_ge_channel _ _ Hin) as Hge.
  pose proof (findTruePeakLinear_le_bound _ _ Hall HM) as Hle.
  unfold findTruePeak. destruct (Rgt_dec (findTruePeakLinear (channels audioBuffer)) 0);
    [|exfalso; lra].
  eexists. split; [reflexivity|].
  split; (apply Rmult_le_compat_l; [lra|apply log10_le; lra]).
Qed.

Lemma findTruePeak_between_example :
  exists peakDB,
    findTruePeak (mkAudioBuffer 48000 4 [[0; 0; 1; 0]]) = Num peakDB
    /\ 20 * log10 (Rabs 1) <= peakDB <= 20 * log10 (1.25 * 1).
Proof.
  assert (H01 : Rabs 0 <= 1) by (rewrite Rabs_R0; lra).
  assert (H11 : Rabs 1 <= 1) by (rewrite Rabs_R1; lra).
  apply (findTruePeak_between (mkAudioBuffer 48000 4 [[0; 0; 1; 0]]) [0; 0; 1; 0] 2 1).
  - constructor; [|constructor].
    constructor; [exact H01|]. constructor; [exact H01|].
    constructor; [exact H11|]. constructor; [exact H01|]. constructor.
  - left. reflexivity.
  - lia.
  - simpl. lia.
  - unfold aget. simpl. lra.
Defined.

Lemma findTruePeakLinear_allZero (chans : list (list R)) :
  Forall allZero chans -> findTruePeakLinear chans = 0.
Proof.
  intros Hall.
  assert (Hb : Forall (Forall (fun x => Rabs x <= 0)) chans).
  { eapply Forall_impl; [|exact Hall]. intros c Hc.
    eapply Forall_impl; [|exact Hc]. intros x ->. rewrite Rabs_R0. lra. }
  pose proof (findTruePeakLinear_le_bound chans 0 Hb ltac:(lra)) as Hle.
  pose proof (findTruePeakLinear_fold_ge chans 0) as Hge.
  unfold findTruePeakLinear in *. lra.
Qed.

(** On digital silence the peak is [-Infinity], so [normalizeToPeak]
    computes an infinite gain and returns a buffer in which every sample
    is [0 * Infinity = NaN]. *)
Theorem normalizeToPeak_silence_is_NaN (audioBuffer : AudioBuffer) (targetPeakDB : R) :
  Forall allZero (channels audioBuffer) ->
  findTruePeak audioBuffer = NegInfinity
  /\ normalizeToPeak audioBuffer targetPeakDB
     = inr (map (map (fun _ => NaN)) (channels audioBuffer)).
Proof.
  intros Hall.
  assert (Hpeak : findTruePeak audioBuffer = NegInfinity).
  { unfold findTruePeak. rewrite findTruePeakLinear_allZero by exact Hall.
    destruct (Rgt_dec 0 0); [exfalso; lra|reflexivity]. }
  split; [exact Hpeak|].
  unfold normalizeToPeak. rewrite Hpeak. f_equal.
  apply map_ext_in. intros c Hc. apply map_ext_in. intros x Hx.
  rewrite Forall_forall in Hall. specialize (Hall c Hc).
  unfold allZero in Hall. rewrite Forall_forall in Hall. rewrite (Hall x Hx).
  unfold timesInfinity. repeat rcase; reflexivity.
Qed.

Lemma normalizeToPeak_silence_is_NaN_example :
  normalizeToPeak (mkAudioBuffer 48000 5 [[0; 0; 0; 0; 0]]) (-1)
  = inr [[NaN; NaN; NaN; NaN; NaN]].
Proof.
  apply (normalizeToPeak_silence_is_NaN (mkAudioBuffer 48000 5 [[0; 0; 0; 0; 0]]) (-1)).
  constructor; [|constructor]. repeat constructor.
Defined.

Lemma Forall_Rabs_impulse : Forall (fun x => Rabs x <= 1) [0; 0; 1; 0].
Proof.
  assert (H01 : Rabs 0 <= 1) by (rewrite Rabs_R0; lra).
  assert (H11 : Rabs 1 <= 1) by (rewrite Rabs_R1; lra).
  constructor; [exact H01|]. constructor; [exact H01|].
  constructor; [exact H11|]. constructor; [exact H01|]. constructor.
Qed.

Lemma findTruePeak_impulse :
  exists peakDB, findTruePeak (mkAudioBuffer 48000 4 [[0; 0; 1; 0]]) = Num peakDB.
Proof.
  destruct (findChannelTruePeak_range [0; 0; 1; 0] 1 Forall_Rabs_impulse ltac:(lra))
    as [Hlow _].
  specialize (Hlow 2%nat ltac:(lia) ltac:(simpl; lia)).
  change (aget [0; 0; 1; 0] 2) with 1 in Hlow. rewrite Rabs_R1 in Hlow.
  pose proof (findTruePeakLinear_ge_channel [[0; 0; 1; 0]] [0; 0; 1; 0]
                ltac:(left; reflexivity)) as Hge.
  unfold findTruePeak. cbn [channels].
  destruct (Rgt_dec (findTruePeakLinear [[0; 0; 1; 0]]) 0); [|exfalso; lra].
  eexists. reflexivity.
Qed.

(** The true peak of a window is at least its nominal sample, is the larger
    of the nominal sample and the limiter's [maxInterpolatedOf], and
    exceeds the largest sample of the window by at most a quarter. *)
Theorem calculateTruePeakSample_bounds (w : Window) (M : R) :
  windowWithin M w ->
  Rabs (nominal w) <= calculateTruePeakSample w
  /\ calculateTruePeakSample w = Rmax (Rabs (nominal w)) (maxInterpolatedOf w)
  /\ calculateTruePeakSample w <= 1.25 * M.
Proof.
  destruct w as [[[y0 y1] y2] y3]. intros [H0 [H1 [H2 H3]]]. cbn [nominal].
  now apply calculateTruePeakSample_range.
Qed.

Lemma calculateTruePeakSample_bounds_example :
  Rabs 1 <= calculateTruePeakSample (0, 0, 1, 0)
  /\ calculateTruePeakSample (0, 0, 1, 0) <= 1.25 * 1.
Proof.
  assert (H01 : Rabs 0 <= 1) by (rewrite Rabs_R0; lra).
  assert (H11 : Rabs 1 <= 1) by (rewrite Rabs_R1; lra).
  destruct (calculateTruePeakSample_bounds (0, 0, 1, 0) 1) as [Hlow [_ Hup]].
  - cbn [windowWithin]. repeat split; assumption.
  - split; [exact Hlow | exact Hup].
Defined.

(** What [findChannelTruePeak] guarantees and what it does not exceed:
    every sample from the third to the last but one is at most the true
    peak, and the true peak is never negative and at most 1.25 times a
    bound on the samples. *)
Theorem findChannelTruePeak_bounds (channelData : list R) (M : R) :
  Forall (fun x => Rabs x <= M) channelData ->
  0 <= M ->
  (forall k, (2 <= k)%nat -> (k + 1 < List.length channelData)%nat ->
             Rabs (aget channelData k) <= findChannelTruePeak channelData)
  /\ 0 <= findChannelTruePeak channelData <= 1.25 * M.
Proof.
  intros Hall HM. exact (findChannelTruePeak_range channelData M Hall HM).
Qed.

Lemma findChannelTruePeak_bounds_example :
  Rabs (aget [0; 0; 1; 0] 2) <= findChannelTruePeak [0; 0; 1; 0]
  /\ findChannelTruePeak [0; 0; 1; 0] <= 1.25 * 1.
Proof.
  destruct (findChannelTruePeak_bounds [0; 0; 1; 0] 1 Forall_Rabs_impulse) as [Hlow [_ Hup]].
  - lra.
  - split; [apply Hlow; simpl; lia | exact Hup].
Defined.

(** The true peak follows the gain exactly: after [applyGain] by [gainDB]
    the detector reads [gainDB] more, and still [-Infinity] on a buffer
    that read [-Infinity].  So the normalizer's projection
    [currentPeakDB + lufsGainDB] is the true peak of its gained buffer. *)
Theorem findTruePeak_applyGain (audioBuffer : AudioBuffer) (gainDB : R) :
  findTruePeak (applyGain audioBuffer gainDB)
  = jsAddNum (findTruePeak audioBuffer) gainDB.
Proof. exact (findTruePeak_gained audioBuffer gainDB). Qed.

Lemma normalizeToPeak_reaches_target_example :
  exists normalized,
    normalizeToPeak (mkAudioBuffer 48000 4 [[0; 0; 1; 0]]) (-1) = inl normalized
    /\ findTruePeak normalized = Num (-1).
Proof.
  destruct findTruePeak_impulse as [peakDB Hpeak].
  exact (normalizeToPeak_reaches_target _ (-1) peakDB Hpeak).
Defined.

(** ** The lookahead limiter: what it leaves alone *)

Lemma aget_within (M : R) (l : list R) (i : nat) :
  0 <= M -> Forall (fun x => Rabs x <= M) l -> Rabs (aget l i) <= M.
Proof.
  intros HM Hall. unfold aget. destruct (Nat.lt_ge_cases i (List.length l)) as [Hi|Hi].
  - rewrite Forall_forall in Hall. apply Hall. now apply nth_In.
  - rewrite nth_overflow by exact Hi. now rewrite Rabs_R0.
Qed.

Lemma nth_channel_within (M : R) (chans : list (list R)) (ch : nat) :
  Forall (Forall (fun x => Rabs x <= M)) chans ->
  Forall (fun x => Rabs x <= M) (nth ch chans []).
Proof.
  intros Hall. destruct (Nat.lt_ge_cases ch (List.length chans)) as [Hc|Hc].
  - rewrite Forall_forall in Hall. apply Hall. now apply nth_In.
  - rewrite nth_overflow by exact Hc. constructor.
Qed.







Lemma releaseLoop_unity (releaseCoef : R) (n : nat) :
  forall currentGain, currentGain = 1.0 ->
    releaseLoop releaseCoef currentGain (repeat 1.0 n) = repeat 1.0 n.
Proof.
  induction n as [|n IH]; intros currentGain Hg; cbn [repeat releaseLoop];
    [reflexivity|].
  assert (E : (if Rlt_dec 1.0 currentGain then 1.0
               else Rmin (releaseCoef * currentGain + (1 - releaseCoef) * 1.0) 1.0) = 1.0).
  { destruct (Rlt_dec 1.0 currentGain); [reflexivity|]. subst currentGain.
    unfold Rmin. destruct (Rle_dec _ _); lra. }
  rewrite E. f_equal. apply IH. reflexivity.
Qed.





Lemma applyLookaheadLimiter_samples_within_ceiling_example :
  Forall (Forall (fun y => Rabs y <= 1))
         (channels (applyLookaheadLimiter (burstBuffer 2) 1 3 100 3 true)).
Proof.
  apply applyLookaheadLimiter_samples_within_ceiling; lra.
Defined.

(** ** Loudness: the range of a measurement, and the windowed measurements *)

Lemma log10_lt (x y : R) : 0 < x -> x < y -> log10 x < log10 y.
Proof.
  intros Hx Hxy. unfold log10.
  assert (H10 : 0 < ln 10) by (rewrite <- ln_1; apply ln_increasing; lra).
  apply Rmult_lt_compat_r; [now apply Rinv_0_lt_compat|now apply ln_increasing].
Qed.

Lemma pow10_neg7 : pow10 (-7) = 1e-7.
Proof.
  unfold pow10. replace (-7) with (- INR 7) by (simpl; lra).
  rewrite Rpower_Ropp, Rpower_pow by lra. simpl. lra.
Qed.

Lemma log10_gate : log10 LUFS_CONSTANTS.ABSOLUTE_GATE_LINEAR = -7.
Proof.
  unfold LUFS_CONSTANTS.ABSOLUTE_GATE_LINEAR. rewrite <- pow10_neg7. apply log10_pow10.
Qed.

Lemma fold_left_Rplus_gt (t : R) (l : list R) :
  l <> [] -> Forall (fun x => t < x) l ->
  forall acc, acc + INR (List.length l) * t < fold_left Rplus l acc.
Proof.
  induction l as [|x rest IH]; intros Hne Hall acc; [congruence|].
  inversion Hall as [|? ? Hx Hrest]; subst. cbn [fold_left].
  destruct rest as [|y rest'].
  - cbn. lra.
  - specialize (IH ltac:(discriminate) Hrest (acc + x)).
    change (List.length (x :: y :: rest')) with (S (List.length (y :: rest'))).
    rewrite S_INR. lra.
Qed.

Lemma mean_gt (t : R) (l : list R) :
  l <> [] -> Forall (fun x => t < x) l -> t < sumOf l / INR (List.length l).
Proof.
  intros Hne Hall. pose proof (fold_left_Rplus_gt t l Hne Hall 0) as H.
  assert (Hn : 0 < INR (List.length l)).
  { destruct l; [congruence|]. apply lt_0_INR. simpl. lia. }
  unfold sumOf. apply (Rmult_lt_reg_r (INR (List.length l))); [exact Hn|].
  unfold Rdiv. rewrite Rmult_assoc, Rinv_l by lra. lra.
Qed.

Lemma filter_gtb_Forall (t : R) (l : list R) :
  Forall (fun x => t < x) (filter (gtb t) l).
Proof.
  apply Forall_forall. intros x Hx. apply filter_In in Hx. destruct Hx as [_ Hx].
  unfold gtb in Hx. destruct (Rgt_dec x t); [lra|discriminate].
Qed.

Lemma gateBlocks_range (blocks : list R) :
  gateBlocks blocks = NegInfinity
  \/ exists x, gateBlocks blocks = Num x /\ -70.691 < x.
Proof.
  unfold gateBlocks. destruct blocks as [|e rest]; [now left|].
  set (gated := filter (gtb LUFS_CONSTANTS.ABSOLUTE_GATE_LINEAR) (e :: rest)).
  assert (Hg : Forall (fun x => LUFS_CONSTANTS.ABSOLUTE_GATE_LINEAR < x) gated)
    by apply filter_gtb_Forall.
  destruct gated as [|g gs] eqn:Eg; [now left|].
  set (gated' := filter _ (g :: gs)).
  assert (Hg' : Forall (fun x => LUFS_CONSTANTS.ABSOLUTE_GATE_LINEAR < x) gated').
  { apply Forall_forall. intros x Hx. apply filter_In in Hx. destruct Hx as [Hx _].
    rewrite Forall_forall in Hg. now apply Hg. }
  destruct gated' as [|g' gs'] eqn:Eg'; [now left|].
  right. eexists. split; [reflexivity|].
  pose proof (mean_gt _ (g' :: gs') ltac:(discriminate) Hg') as Hmean.
  assert (Hpos : 0 < LUFS_CONSTANTS.ABSOLUTE_GATE_LINEAR)
    by (unfold LUFS_CONSTANTS.ABSOLUTE_GATE_LINEAR; lra).
  pose proof (log10_lt _ _ Hpos Hmean) as Hlog. rewrite log10_gate in Hlog.
  unfold LUFS_CONSTANTS.LOUDNESS_OFFSET. lra.
Qed.

(** [measureLUFS] returns for every sample rate of at least 10 Hz (the
    hop is then at least one sample), and what it returns is the fallback
    for audio under 400 ms and otherwise either [-Infinity] or a number
    above -70.691: the absolute gate leaves no finite reading at or below
    -70 LUFS plus the offset, and no reading is [NaN] or [+Infinity]. *)
Theorem measureLUFS_result_range (audioBuffer : AudioBuffer) (fallbackLufs : jsnum) :
  10 <= sampleRate audioBuffer ->
  exists result,
    measureLUFS audioBuffer fallbackLufs = Some result
    /\ (duration audioBuffer < LUFS_CONSTANTS.BLOCK_SIZE_SEC -> result = fallbackLufs)
    /\ (LUFS_CONSTANTS.BLOCK_SIZE_SEC <= duration audioBuffer ->
        result = NegInfinity \/ exists x, result = Num x /\ -70.691 < x).
Proof.
  intros Hsr. unfold measureLUFS.
  destruct (Rlt_dec (duration audioBuffer) LUFS_CONSTANTS.BLOCK_SIZE_SEC) as [Hlt|Hge].
  - eexists. split; [reflexivity|]. split; [reflexivity|lra].
  - destruct (blockLoop_terminates
                (map (kWeight (sampleRate audioBuffer)) (channels audioBuffer))
                (numberOfChannels audioBuffer) (blockSizeOf (sampleRate audioBuffer))
                (hopSizeOf (sampleRate audioBuffer)) (length audioBuffer)
                (hopSizeOf_ge_1 _ Hsr) (S (length audioBuffer)) 0%nat ltac:(lia))
      as [blocks [E _]].
    rewrite E. eexists. split; [reflexivity|]. split; [lra|].
    intros _. apply gateBlocks_range.
Qed.

Lemma measureLUFS_result_range_example :
  exists result,
    measureLUFS clickAtEnd (Num (-14)) = Some result
    /\ (duration clickAtEnd < LUFS_CONSTANTS.BLOCK_SIZE_SEC -> result = Num (-14))
    /\ (LUFS_CONSTANTS.BLOCK_SIZE_SEC <= duration clickAtEnd ->
        result = NegInfinity \/ exists x, result = Num x /\ -70.691 < x).
Proof.
  apply measureLUFS_result_range. unfold clickAtEnd. cbn [sampleRate]. lra.
Defined.

Lemma gainedCopy_unity (audioBuffer : AudioBuffer) (gainLinear : R) :
  gainLinear = 1 -> gainedCopy audioBuffer gainLinear = audioBuffer.
Proof.
  intros ->. unfold gainedCopy. destruct audioBuffer as [sr len chans].
  cbn [sampleRate length channels]. f_equal.
  rewrite <- (map_id chans) at 2. apply map_ext. intros c.
  rewrite <- (map_id c) at 2. apply map_ext. intros x. ring.
Qed.

Lemma measureLUFS_short (audioBuffer : AudioBuffer) (fallbackLufs : jsnum) :
  duration audioBuffer < LUFS_CONSTANTS.BLOCK_SIZE_SEC ->
  measureLUFS audioBuffer fallbackLufs = Some fallbackLufs.
Proof.
  intros Hd. unfold measureLUFS.
  destruct (Rlt_dec (duration audioBuffer) LUFS_CONSTANTS.BLOCK_SIZE_SEC);
    [reflexivity|contradiction].
Qed.

(** Audio shorter than 400 ms is never gained by [normalizeToLUFS]: the
    measurement answers the fallback, which is the target itself, so the
    gain is 0 dB.  The result is the input, or the limiter's output on the
    input when limiting is on and the true peak exceeds the ceiling. *)
Theorem normalizeToLUFS_short_audio_not_gained (audioBuffer : AudioBuffer)
    (targetLUFS ceilingDB : R) (options : NormalizeOptions) :
  0 < sampleRate audioBuffer ->
  duration audioBuffer < LUFS_CONSTANTS.BLOCK_SIZE_SEC ->
  normalizeToLUFS audioBuffer targetLUFS ceilingDB options
  = Some (if skipLimiter options then audioBuffer
          else if jsGtNum (findTruePeak audioBuffer) ceilingDB
               then applyLookaheadLimiter audioBuffer (pow10 (ceilingDB / 20)) 3 100
                      LIMITER_DEFAULTS.KNEE_DB LIMITER_DEFAULTS.PRESERVE_TRANSIENTS
               else audioBuffer).
Proof.
  intros _ Hd. unfold normalizeToLUFS. rewrite (measureLUFS_short _ _ Hd).
  rewrite gainedCopy_unity
    by (replace ((targetLUFS - targetLUFS) / 20) with 0 by lra; apply pow10_0).
  destruct (skipLimiter options); [reflexivity|].
  assert (E : jsAddNum (findTruePeak audioBuffer) (targetLUFS - targetLUFS)
              = findTruePeak audioBuffer).
  { destruct (findTruePeak audioBuffer); cbn [jsAddNum]; try reflexivity.
    f_equal. lra. }
  rewrite E. destruct (jsGtNum (findTruePeak audioBuffer) ceilingDB); [|reflexivity].
  rewrite measureLUFS_short; [reflexivity|].
  unfold duration, applyLookaheadLimiter. cbn [sampleRate length]. exact Hd.
Qed.

Lemma normalizeToLUFS_short_audio_not_gained_example :
  normalizeToLUFS (burstBuffer 1) (-14) (-1) (mkOptions true) = Some (burstBuffer 1).
Proof.
  apply (normalizeToLUFS_short_audio_not_gained (burstBuffer 1) (-14) (-1) (mkOptions true)).
  { unfold burstBuffer. cbn [sampleRate]. lra. }
  unfold duration, burstBuffer, LUFS_CONSTANTS.BLOCK_SIZE_SEC. cbn [sampleRate length].
  simpl. lra.
Defined.

Lemma limitChannel_within_ceiling (gainEnvelope : list R) (len : nat)
    (ceilingLinear kneeDB : R) (input : list R) :
  0 < ceilingLinear -> 0 <= kneeDB ->
  Forall (fun y => Rabs y <= ceilingLinear)
         (limitChannel gainEnvelope len ceilingLinear kneeDB input).
Proof.
  intros Hc Hk. unfold limitChannel, applySoftKneeOversampled.
  now apply softKneeLoop_within_ceiling.
Qed.

(** What [normalizeToLUFS] guarantees about peaks when limiting is on and
    the loudness is measurable: it returns, and either the result is the
    gained buffer and its true peak reads at most the ceiling, or the
    gained buffer read above the ceiling and no sample of the result
    exceeds the linear ceiling. *)
Theorem normalizeToLUFS_peak_guarantee (audioBuffer : AudioBuffer)
    (targetLUFS ceilingDB currentLUFS : R) :
  0 < sampleRate audioBuffer ->
  measureLUFS audioBuffer (Num targetLUFS) = Some (Num currentLUFS) ->
  exists normalized,
    normalizeToLUFS audioBuffer targetLUFS ceilingDB (mkOptions false) = Some normalized
    /\ ((normalized = applyGain audioBuffer (targetLUFS - currentLUFS)
         /\ jsGtNum (findTruePeak normalized) ceilingDB = false)
        \/ (jsGtNum (findTruePeak (applyGain audioBuffer (targetLUFS - currentLUFS)))
                    ceilingDB = true
            /\ Forall (Forall (fun y => Rabs y <= dbToLinear ceilingDB))
                      (channels normalized))).
Proof.
  intros _ Hm. unfold normalizeToLUFS. rewrite Hm. cbn [skipLimiter].
  rewrite <- findTruePeak_gained.
  change (gainedCopy audioBuffer (pow10 ((targetLUFS - currentLUFS) / 20)))
    with (applyGain audioBuffer (targetLUFS - currentLUFS)).
  set (gained := applyGain audioBuffer (targetLUFS - currentLUFS)).
  destruct (jsGtNum (findTruePeak gained) ceilingDB) eqn:Epeak.
  - destruct (measureLUFS_Some_shape audioBuffer
                (applyLookaheadLimiter gained (pow10 (ceilingDB / 20)) 3 100
                   LIMITER_DEFAULTS.KNEE_DB LIMITER_DEFAULTS.PRESERVE_TRANSIENTS)
                (Num targetLUFS) (Num (-14)) (Num currentLUFS) eq_refl eq_refl Hm)
      as [m' ->].
    eexists. split; [reflexivity|]. right. split; [reflexivity|].
    unfold applyLookaheadLimiter. cbn [channels].
    apply Forall_forall. intros out Hin. apply in_map_iff in Hin.
    destruct Hin as [input [<- _]]. apply limitChannel_within_ceiling.
    + apply pow10_pos.
    + unfold LIMITER_DEFAULTS.KNEE_DB. lra.
  - eexists. split; [reflexivity|]. left. split; [reflexivity|exact Epeak].
Qed.

Lemma normalizeToLUFS_peak_guarantee_example :
  exists normalized,
    normalizeToLUFS (burstBuffer 1) (-14) (-1) (mkOptions false) = Some normalized
    /\ ((normalized = applyGain (burstBuffer 1) (-14 - -14)
         /\ jsGtNum (findTruePeak normalized) (-1) = false)
        \/ (jsGtNum (findTruePeak (applyGain (burstBuffer 1) (-14 - -14))) (-1) = true
            /\ Forall (Forall (fun y => Rabs y <= dbToLinear (-1)))
                      (channels normalized))).
Proof.
  apply (normalizeToLUFS_peak_guarantee (burstBuffer 1) (-14) (-1) (-14)).
  { unfold burstBuffer. cbn [sampleRate]. lra. }
  apply measureLUFS_short.
  unfold duration, burstBuffer, LUFS_CONSTANTS.BLOCK_SIZE_SEC. cbn [sampleRate length].
  simpl. lra.
Defined.

(** The gain [calculateLufsGain] asks for: with a sample rate of at least
    10 Hz it returns; audio under 400 ms counts as -14 LUFS, so the gain
    is [targetLUFS + 14]; silence of at least 400 ms gives 0; and in every
    case the gain is 0 or below [targetLUFS + 70.691]. *)
Theorem calculateLufsGain_cases (audioBuffer : AudioBuffer) (targetLUFS : R) :
  10 <= sampleRate audioBuffer ->
  exists gain,
    calculateLufsGain audioBuffer targetLUFS = Some gain
    /\ (duration audioBuffer < LUFS_CONSTANTS.BLOCK_SIZE_SEC -> gain = targetLUFS + 14)
    /\ (LUFS_CONSTANTS.BLOCK_SIZE_SEC <= duration audioBuffer ->
        Forall allZero (channels audioBuffer) -> gain = 0)
    /\ (gain = 0 \/ gain < targetLUFS + 70.691).
Proof.
  intros Hsr. unfold calculateLufsGain.
  destruct (Rlt_dec (duration audioBuffer) LUFS_CONSTANTS.BLOCK_SIZE_SEC) as [Hlt|Hge].
  - rewrite (measureLUFS_short _ _ Hlt). eexists. split; [reflexivity|].
    split; [intros _; lra|]. split; [intros; lra|]. right. lra.
  - assert (Hge' : LUFS_CONSTANTS.BLOCK_SIZE_SEC <= duration audioBuffer) by lra.
    unfold measureLUFS.
    destruct (Rlt_dec (duration audioBuffer) LUFS_CONSTANTS.BLOCK_SIZE_SEC);
      [contradiction|].
    destruct (blockLoop_terminates
                (map (kWeight (sampleRate audioBuffer)) (channels audioBuffer))
                (numberOfChannels audioBuffer) (blockSizeOf (sampleRate audioBuffer))
                (hopSizeOf (sampleRate audioBuffer)) (length audioBuffer)
                (hopSizeOf_ge_1 _ Hsr) (S (length audioBuffer)) 0%nat ltac:(lia))
      as [blocks [E _]].
    pose proof (measureLUFS_silent audioBuffer (Num (-14)) Hsr Hge') as Hsilent.
    unfold measureLUFS in Hsilent.
    destruct (Rlt_dec (duration audioBuffer) LUFS_CONSTANTS.BLOCK_SIZE_SEC);
      [contradiction|].
    rewrite E in Hsilent |- *.
    destruct (gateBlocks_range blocks) as [Hr|[x [Hr Hx]]]; rewrite Hr in Hsilent |- *.
    + eexists. split; [reflexivity|]. split; [intros; lra|].
      split; [reflexivity|now left].
    + eexists. split; [reflexivity|]. split; [intros; lra|].
      split; [|right; lra].
      intros _ Hz. specialize (Hsilent Hz). discriminate.
Qed.

Lemma calculateLufsGain_cases_example :
  exists gain,
    calculateLufsGain (burstBuffer 1) (-9) = Some gain
    /\ (duration (burstBuffer 1) < LUFS_CONSTANTS.BLOCK_SIZE_SEC -> gain = -9 + 14)
    /\ (LUFS_CONSTANTS.BLOCK_SIZE_SEC <= duration (burstBuffer 1) ->
        Forall allZero (channels (burstBuffer 1)) -> gain = 0)
    /\ (gain = 0 \/ gain < -9 + 70.691).
Proof.
  apply (calculateLufsGain_cases (burstBuffer 1) (-9)).
  unfold burstBuffer. cbn [sampleRate]. lra.
Defined.

Lemma floor_0 : floor 0 = 0%nat.
Proof. apply floor_unique. simpl. lra. Qed.

Lemma length_biquadLoop (c : BiquadCoeffs) (samples : list R) :
  forall x1 x2 y1 y2,
    List.length (biquadLoop c x1 x2 y1 y2 samples) = List.length samples.
Proof.
  induction samples as [|x rest IH]; intros x1 x2 y1 y2; cbn [biquadLoop List.length];
    [reflexivity|]. now rewrite IH.
Qed.

Lemma biquadLoop_firstn (c : BiquadCoeffs) (n : nat) :
  forall samples x1 x2 y1 y2,
    biquadLoop c x1 x2 y1 y2 (firstn n samples)
    = firstn n (biquadLoop c x1 x2 y1 y2 samples).
Proof.
  induction n as [|n IH]; intros [|x rest] x1 x2 y1 y2; cbn [firstn biquadLoop];
    try reflexivity. now rewrite IH.
Qed.






Lemma nth_map_lt (f : list R -> list R) (l : list (list R)) (ch : nat) :
  (ch < List.length l)%nat -> nth ch (map f l) [] = f (nth ch l []).
Proof.
  intros Hch. rewrite (nth_indep _ [] (f [])) by (rewrite length_map; exact Hch).
  apply map_nth.
Qed.









(** On a buffer between 1.5 and 3 seconds long, the short-term loudness
    at position 0 is the integrated loudness of the whole buffer (with the
    default fallback): the 3-second window is cut to the buffer, and the
    copy it measures is the buffer itself. *)
Theorem measureShortTermLUFS_whole_buffer (audioBuffer : AudioBuffer) :
  wfBuffer audioBuffer ->
  INR (floor (sampleRate audioBuffer * 3000 / 1000)) * 0.5 <= INR (length audioBuffer) ->
  (length audioBuffer <= floor (sampleRate audioBuffer * 3000 / 1000))%nat ->
  measureShortTermLUFS audioBuffer 0 = measureLUFS audioBuffer (Num (-14)).
Proof.
  intros [Hsr Hlen] Hhalf Hfit. unfold measureShortTermLUFS.
  rewrite Rmult_0_l, floor_0. cbn [Nat.add]. rewrite Nat.min_r by exact Hfit.
  cbn [INR]. rewrite Rminus_0_r.
  destruct (Rlt_dec (INR (length audioBuffer))
                    (INR (floor (sampleRate audioBuffer * 3000 / 1000)) * 0.5));
    [exfalso; lra|].
  f_equal. rewrite Nat.sub_0_r.
  destruct audioBuffer as [sr len chans]. cbn [sampleRate length channels] in *.
  f_equal. rewrite <- (map_id chans) at 2. apply map_ext_in. intros source Hin.
  rewrite Forall_forall in Hlen. specialize (Hlen source Hin).
  apply map_seq_eq; [now symmetry|]. intros i _. reflexivity.
Qed.

Lemma measureShortTermLUFS_whole_buffer_example :
  measureShortTermLUFS (mkAudioBuffer 10 20 [repeat 0.5 20]) 0
  = measureLUFS (mkAudioBuffer 10 20 [repeat 0.5 20]) (Num (-14)).
Proof.
  assert (Hw : floor (10 * 3000 / 1000) = 30%nat)
    by (apply floor_unique; rewrite INR_IZR_INZ; simpl Z.of_nat; lra).
  apply measureShortTermLUFS_whole_buffer; cbn [sampleRate length channels].
  - split; cbn [sampleRate length channels]; [lra|].
    constructor; [apply repeat_length|constructor].
  - rewrite Hw, !INR_IZR_INZ. simpl Z.of_nat. lra.
  - rewrite Hw. lia.
Defined.

(** A position at or past the end of the buffer reads [-Infinity] in both
    windowed measurements: the window is empty, which is less than half a
    window. *)
Theorem windowed_loudness_past_the_end (audioBuffer : AudioBuffer) (position : R) :
  3 <= sampleRate audioBuffer ->
  0 <= position ->
  INR (length audioBuffer) <= position * sampleRate audioBuffer ->
  measureMomentaryLUFS audioBuffer position = NegInfinity
  /\ measureShortTermLUFS audioBuffer position = Some NegInfinity.
Proof.
  intros Hsr Hpos Hend.
  pose proof (floor_ge_nat _ _ Hend) as Hstart.
  assert (Hw1 : (1 <= floor (sampleRate audioBuffer * 400 / 1000))%nat)
    by (apply floor_ge_nat; simpl; lra).
  assert (Hw2 : (1 <= floor (sampleRate audioBuffer * 3000 / 1000))%nat)
    by (apply floor_ge_nat; simpl; lra).
  apply le_INR in Hstart, Hw1, Hw2. simpl in Hw1, Hw2.
  split.
  - unfold measureMomentaryLUFS. rewrite Nat.min_r by (apply INR_le; rewrite plus_INR; lra).
    destruct (Rlt_dec _ _); [reflexivity|exfalso; lra].
  - unfold measureShortTermLUFS. rewrite Nat.min_r by (apply INR_le; rewrite plus_INR; lra).
    destruct (Rlt_dec _ _); [reflexivity|exfalso; lra].
Qed.

Lemma windowed_loudness_past_the_end_example :
  measureMomentaryLUFS (burstBuffer 1) 1 = NegInfinity
  /\ measureShortTermLUFS (burstBuffer 1) 1 = Some NegInfinity.
Proof.
  apply windowed_loudness_past_the_end; unfold burstBuffer; cbn [sampleRate length].
  - lra.
  - lra.
  - simpl. lra.
Defined.

(** ** utils.js: interpolation, decibels, peaks and the biquad filter *)

(** Catmull-Rom interpolation passes through [y1] at [t = 0] and [y2] at
    [t = 1], and anywhere between them it overshoots samples bounded by
    [M] by at most a quarter: [|p(t)| <= (1 + t - t^2) M <= 1.25 M]. *)
Theorem interpolateCatmullRom_overshoot (y0 y1 y2 y3 t M : R) :
  Rabs y0 <= M -> Rabs y1 <= M -> Rabs y2 <= M -> Rabs y3 <= M ->
  0 <= t <= 1 ->
  interpolateCatmullRom y0 y1 y2 y3 0 = y1
  /\ interpolateCatmullRom y0 y1 y2 y3 1 = y2
  /\ Rabs (interpolateCatmullRom y0 y1 y2 y3 t) <= (1 + t - t * t) * M
  /\ (1 + t - t * t) * M <= 1.25 * M.
Proof.
  intros H0 H1 H2 H3 Ht.
  apply bounds_of_Rabs_le in H0, H1, H2, H3.
  assert (HM : 0 <= M) by lra.
  split; [unfold interpolateCatmullRom; lra|].
  split; [unfold interpolateCatmullRom; lra|].
  split.
  - set (c0 := 0.5 * t * ((1 - t) * (1 - t))).
    set (c1 := (1 - t) * (1 + t - 1.5 * (t * t))).
    set (c2 := t * (0.5 + 2 * t - 1.5 * (t * t))).
    set (c3 := 0.5 * (t * t) * (1 - t)).
    assert (P0 : 0 <= c0)
      by (unfold c0; apply Rmult_le_pos; [lra|apply Rle_0_sqr]).
    assert (P1 : 0 <= c1) by (unfold c1; apply Rmult_le_pos; nra).
    assert (P2 : 0 <= c2) by (unfold c2; apply Rmult_le_pos; nra).
    assert (P3 : 0 <= c3)
      by (unfold c3; apply Rmult_le_pos; [|lra]; apply Rmult_le_pos; [lra|apply Rle_0_sqr]).
    assert (E : interpolateCatmullRom y0 y1 y2 y3 t
                = - c0 * y0 + c1 * y1 + c2 * y2 - c3 * y3)
      by (unfold interpolateCatmullRom, c0, c1, c2, c3; lra).
    assert (S : c0 + c1 + c2 + c3 = 1 + t - t * t) by (unfold c0, c1, c2, c3; lra).
    rewrite E, <- S. apply Rabs_le_of_bounds.
    assert (B0 : - (c0 * M) <= c0 * y0 <= c0 * M) by (split; nra).
    assert (B1 : - (c1 * M) <= c1 * y1 <= c1 * M) by (split; nra).
    assert (B2 : - (c2 * M) <= c2 * y2 <= c2 * M) by (split; nra).
    assert (B3 : - (c3 * M) <= c3 * y3 <= c3 * M) by (split; nra).
    split; lra.
  - assert (Hq : 1 + t - t * t <= 1.25).
    { assert (Hs : 0 <= (t - 0.5) * (t - 0.5)) by apply Rle_0_sqr. lra. }
    nra.
Qed.

Lemma interpolateCatmullRom_overshoot_example :
  interpolateCatmullRom (-1) 1 1 (-1) 0 = 1
  /\ interpolateCatmullRom (-1) 1 1 (-1) 1 = 1
  /\ Rabs (interpolateCatmullRom (-1) 1 1 (-1) 0.5) <= (1 + 0.5 - 0.5 * 0.5) * 1
  /\ (1 + 0.5 - 0.5 * 0.5) * 1 <= 1.25 * 1.
Proof.
  apply interpolateCatmullRom_overshoot;
    try (unfold Rabs; destruct (Rcase_abs _); lra); lra.
Defined.

(** Decibels and linear gain are inverse to each other: [linearToDb]
    undoes [dbToLinear], [dbToLinear] undoes [linearToDb] on a positive
    gain, and a gain that is not positive reads [-Infinity]. *)
Theorem linearToDb_dbToLinear_inverse (db linear : R) :
  linearToDb (dbToLinear db) = Num db
  /\ (0 < linear ->
      exists d, linearToDb linear = Num d /\ dbToLinear d = linear)
  /\ (linear <= 0 -> linearToDb linear = NegInfinity).
Proof.
  assert (H10 : 0 < ln 10) by (rewrite <- ln_1; apply ln_increasing; lra).
  split; [|split].
  - unfold linearToDb, dbToLinear. pose proof (pow10_pos (db / 20)).
    destruct (Rlt_dec 0 (pow10 (db / 20))); [|contradiction].
    f_equal. rewrite log10_pow10. lra.
  - intros Hpos. unfold linearToDb. destruct (Rlt_dec 0 linear); [|contradiction].
    eexists. split; [reflexivity|].
    unfold dbToLinear, pow10, log10, Rpower.
    replace (20 * (ln linear / ln 10) / 20 * ln 10) with (ln linear) by (field; lra).
    now apply exp_ln.
  - intros Hle. unfold linearToDb. destruct (Rlt_dec 0 linear); [exfalso; lra|reflexivity].
Qed.

Lemma findPeak_fold_ge (samples : list R) :
  forall peak,
    peak <= fold_left (fun peak x => let abs := Rabs x in
                                     if Rgt_dec abs peak then abs else peak)
                      samples peak.
Proof.
  induction samples as [|x rest IH]; intros peak; cbn [fold_left]; [lra|].
  eapply Rle_trans; [|apply IH]. cbv zeta. destruct (Rgt_dec (Rabs x) peak); lra.
Qed.

Lemma findPeak_fold_bounds (samples : list R) :
  forall peak,
    Forall (fun x => Rabs x
                     <= fold_left (fun peak x => let abs := Rabs x in
                                                 if Rgt_dec abs peak then abs else peak)
                                  samples peak) samples.
Proof.
  induction samples as [|x rest IH]; intros peak; cbn [fold_left]; constructor;
    [|apply IH].
  eapply Rle_trans; [|apply findPeak_fold_ge]. cbv zeta.
  destruct (Rgt_dec (Rabs x) peak); lra.
Qed.

Lemma findPeak_fold_attained (samples : list R) :
  forall peak,
    fold_left (fun peak x => let abs := Rabs x in
                             if Rgt_dec abs peak then abs else peak) samples peak
    = peak
    \/ exists x, In x samples
                 /\ fold_left (fun peak x => let abs := Rabs x in
                                             if Rgt_dec abs peak then abs else peak)
                              samples peak
                    = Rabs x.
Proof.
  induction samples as [|x rest IH]; intros peak; cbn [fold_left]; [now left|].
  cbv zeta in *. destruct (Rgt_dec (Rabs x) peak) as [Hg|Hg].
  - destruct (IH (Rabs x)) as [E|[y [Hy E]]].
    + right. exists x. split; [now left|exact E].
    + right. exists y. split; [now right|exact E].
  - destruct (IH peak) as [E|[y [Hy E]]].
    + now left.
    + right. exists y. split; [now right|exact E].
Qed.

(** [findPeak] is the largest magnitude of the array: it bounds every
    sample, it is the magnitude of one of them (0 on an empty array), and
    the true peak of the same samples is at most 1.25 times it. *)
Theorem findPeak_is_max_magnitude (samples : list R) :
  Forall (fun x => Rabs x <= findPeak samples) samples
  /\ (samples = [] -> findPeak samples = 0)
  /\ (samples <> [] -> exists x, In x samples /\ findPeak samples = Rabs x)
  /\ findChannelTruePeak samples <= 1.25 * findPeak samples.
Proof.
  assert (Hb : Forall (fun x => Rabs x <= findPeak samples) samples)
    by apply findPeak_fold_bounds.
  split; [exact Hb|]. split; [intros ->; reflexivity|]. split.
  - intros Hne. destruct (findPeak_fold_attained samples 0) as [E|H]; [|exact H].
    destruct samples as [|x rest]; [congruence|].
    exists x. split; [now left|].
    inversion Hb as [|? ? Hx _]; subst. change (findPeak (x :: rest) = 0) in E.
    rewrite E in Hx |- *. pose proof (Rabs_pos x). lra.
  - apply findChannelTruePeak_range; [exact Hb|]. apply findPeak_fold_ge.
Qed.

Lemma biquadLoop_superpose (c : BiquadCoeffs) (a b : R) (xs : list R) :
  forall ys x1 x2 y1 y2 x1' x2' y1' y2' X1 X2 Y1 Y2,
    List.length xs = List.length ys ->
    X1 = a * x1 + b * x1' -> X2 = a * x2 + b * x2' ->
    Y1 = a * y1 + b * y1' -> Y2 = a * y2 + b * y2' ->
    biquadLoop c X1 X2 Y1 Y2 (map (fun p => a * fst p + b * snd p) (combine xs ys))
    = map (fun p => a * fst p + b * snd p)
          (combine (biquadLoop c x1 x2 y1 y2 xs) (biquadLoop c x1' x2' y1' y2' ys)).
Proof.
  induction xs as [|x xs IH]; intros [|y ys] x1 x2 y1 y2 x1' x2' y1' y2' X1 X2 Y1 Y2
    Hlen E1 E2 E3 E4; cbn [List.length] in Hlen; try discriminate; [reflexivity|].
  cbn [combine map biquadLoop fst snd]. f_equal.
  - subst. ring.
  - apply IH; [lia|reflexivity|exact E1| |exact E3]. subst. ring.
Qed.

(** The biquad filter is linear, keeps the length of its input, and is
    causal: filtering [a x + b y] gives [a] times the filtered [x] plus
    [b] times the filtered [y], and the first [n] outputs depend on the
    first [n] inputs only. *)
Theorem applyBiquadFilter_linear_causal (coeffs : BiquadCoeffs) (a b : R)
    (xs ys : list R) (n : nat) :
  List.length xs = List.length ys ->
  applyBiquadFilter (map (fun p => a * fst p + b * snd p) (combine xs ys)) coeffs
  = map (fun p => a * fst p + b * snd p)
        (combine (applyBiquadFilter xs coeffs) (applyBiquadFilter ys coeffs))
  /\ List.length (applyBiquadFilter xs coeffs) = List.length xs
  /\ applyBiquadFilter (firstn n xs) coeffs = firstn n (applyBiquadFilter xs coeffs).
Proof.
  intros Hlen. unfold applyBiquadFilter. split; [|split].
  - apply biquadLoop_superpose; try exact Hlen; ring.
  - apply length_biquadLoop.
  - apply biquadLoop_firstn.
Qed.

Lemma applyBiquadFilter_linear_causal_example :
  applyBiquadFilter (map (fun p => 2 * fst p + 3 * snd p) (combine [1; 0] [0; 1]))
                    (mkCoeffs 1 0.5 0 0 0)
  = map (fun p => 2 * fst p + 3 * snd p)
        (combine (applyBiquadFilter [1; 0] (mkCoeffs 1 0.5 0 0 0))
                 (applyBiquadFilter [0; 1] (mkCoeffs 1 0.5 0 0 0))).
Proof.
  exact (proj1 (applyBiquadFilter_linear_causal (mkCoeffs 1 0.5 0 0 0) 2 3
                  [1; 0] [0; 1] 0 eq_refl)).
Defined.

Lemma biquadLoop_identity (c : BiquadCoeffs) (samples : list R) :
  b0 c = 1 -> b1 c = a1 c -> b2 c = a2 c ->
  forall x1 x2 y1 y2, y1 = x1 -> y2 = x2 -> biquadLoop c x1 x2 y1 y2 samples = samples.
Proof.
  intros H0 H1 H2. induction samples as [|x rest IH]; intros x1 x2 y1 y2 E1 E2;
    cbn [biquadLoop]; [reflexivity|].
  assert (E : b0 c * x + b1 c * x1 + b2 c * x2 - a1 c * y1 - a2 c * y2 = x)
    by (subst; rewrite H0, H1, H2; ring).
  rewrite E. f_equal. apply IH; [reflexivity|exact E1].
Qed.

(** A high shelf of 0 dB is no filter at all: below the Nyquist frequency
    and with a positive Q, [applyBiquadFilter] with the coefficients of
    [calcHighShelfCoeffs(sampleRate, frequency, 0, Q)] returns its input. *)
Theorem calcHighShelfCoeffs_zero_gain_is_identity (sampleRate frequency Q : R)
    (samples : list R) :
  0 < frequency -> 2 * frequency < sampleRate -> 0 < Q ->
  applyBiquadFilter samples (calcHighShelfCoeffs sampleRate frequency 0 Q) = samples.
Proof.
  intros Hf Hny HQ. unfold applyBiquadFilter.
  assert (HA : Rpower 10 (0 / 40) = 1)
    by (replace (0 / 40) with 0 by lra; apply Rpower_O; lra).
  assert (Hw : 0 < 2 * PI * frequency / sampleRate < PI).
  { pose proof PI_RGT_0 as Hpi. split.
    - apply Rmult_lt_0_compat; [|apply Rinv_0_lt_compat; lra].
      apply Rmult_lt_0_compat; lra.
    - apply (Rmult_lt_reg_r sampleRate); [lra|]. unfold Rdiv.
      rewrite Rmult_assoc, Rinv_l by lra. nra. }
  pose proof (sin_gt_0 _ (proj1 Hw) (proj2 Hw)) as Hsin.
  assert (Halpha : 0 < sin (2 * PI * frequency / sampleRate) / (2 * Q))
    by (apply Rmult_lt_0_compat; [exact Hsin|apply Rinv_0_lt_compat; lra]).
  apply biquadLoop_identity; try reflexivity;
    unfold calcHighShelfCoeffs; cbn [b0 b1 b2 a1 a2]; rewrite HA, sqrt_1.
  - field. lra.
  - f_equal. ring.
  - f_equal. ring.
Qed.

Lemma calcHighShelfCoeffs_zero_gain_is_identity_example :
  applyBiquadFilter [1; -0.5; 0.25] (calcHighShelfCoeffs 48000 1681.97 0 0.71)
  = [1; -0.5; 0.25].
Proof.
  apply calcHighShelfCoeffs_zero_gain_is_identity; lra.
Defined.

Lemma biquadLoop_scale (c : BiquadCoeffs) (g : R) (xs : list R) :
  forall x1 x2 y1 y2,
    biquadLoop c (x1 * g) (x2 * g) (y1 * g) (y2 * g) (map (fun x => x * g) xs)
    = map (fun x => x * g) (biquadLoop c x1 x2 y1 y2 xs).
Proof.
  induction xs as [|x xs IH]; intros x1 x2 y1 y2; cbn [map biquadLoop]; [reflexivity|].
  assert (E : b0 c * (x * g) + b1 c * (x1 * g) + b2 c * (x2 * g)
              - a1 c * (y1 * g) - a2 c * (y2 * g)
              = (b0 c * x + b1 c * x1 + b2 c * x2 - a1 c * y1 - a2 c * y2) * g) by ring.
  rewrite E. f_equal. apply IH.
Qed.

Lemma kWeight_scale (sr g : R) (ch : list R) :
  kWeight sr (map (fun x => x * g) ch) = map (fun x => x * g) (kWeight sr ch).
Proof.
  unfold kWeight, applyBiquadFilter.
  assert (E : forall c l, biquadLoop c 0 0 0 0 (map (fun x => x * g) l)
                          = map (fun x => x * g) (biquadLoop c 0 0 0 0 l)).
  { intros c l. rewrite <- biquadLoop_scale. now rewrite Rmult_0_l. }
  now rewrite !E.
Qed.

Lemma fold_squares_scale (g : R) (l : list R) :
  forall s, fold_left (fun s x => s + x * x) (map (fun x => x * g) l) (s * (g * g))
            = fold_left (fun s x => s + x * x) l s * (g * g).
Proof.
  induction l as [|x l IH]; intros s; cbn [map fold_left]; [reflexivity|].
  rewrite <- IH. f_equal. ring.
Qed.

(** The momentary loudness follows the gain exactly: after [applyGain] by
    [gainDB] the reading at any position is [gainDB] higher, and a
    reading of [-Infinity] or [NaN] stays what it was. *)
Theorem measureMomentaryLUFS_applyGain (audioBuffer : AudioBuffer)
    (gainDB position : R) :
  measureMomentaryLUFS (applyGain audioBuffer gainDB) position
  = jsAddNum (measureMomentaryLUFS audioBuffer position) gainDB.
Proof.
  unfold measureMomentaryLUFS, applyGain, gainedCopy, numberOfChannels.
  cbn [sampleRate length channels]. rewrite length_map.
  set (g := pow10 (gainDB / 20)). assert (Hg : 0 < g) by apply pow10_pos.
  set (startSample := floor (position * sampleRate audioBuffer)).
  set (endSample := Nat.min _ (length audioBuffer)).
  destruct (Rlt_dec _ _); [reflexivity|].
  destruct (_ =? 0)%nat; [reflexivity|].
  match goal with
  | |- context [fold_left ?f (seq 0 (List.length (channels audioBuffer))) 0 / ?d] =>
      match f with
      | context [map (map _)] => set (scaled := fold_left f _ 0); set (den := d)
      end
  end.
  match goal with
  | |- context [fold_left ?f (seq 0 (List.length (channels audioBuffer))) 0 / den] =>
      set (plain := fold_left f _ 0)
  end.
  assert (E : scaled = plain * (g * g)).
  { unfold scaled, plain.
    match goal with
    | |- fold_left ?f1 _ 0 = fold_left ?f2 _ 0 * _ =>
        assert (G : forall idxs s,
                   (forall ch, In ch idxs ->
                               (ch < List.length (channels audioBuffer))%nat) ->
                   fold_left f1 idxs (s * (g * g)) = fold_left f2 idxs s * (g * g))
    end.
    { induction idxs as [|ch idxs IH]; intros s Hin; cbn [fold_left]; [reflexivity|].
      rewrite <- IH by (intros ch' Hch'; apply Hin; now right). f_equal.
      assert (Hch : (ch < List.length (channels audioBuffer))%nat)
        by (apply Hin; now left).
      rewrite (nth_map_lt (fun c => subarray c startSample endSample)
                 (map (map (fun x => x * g)) (channels audioBuffer)))
        by (rewrite length_map; exact Hch).
      rewrite (nth_map_lt (map (fun x => x * g))) by exact Hch.
      rewrite (nth_map_lt (fun c => subarray c startSample endSample)) by exact Hch.
      unfold subarray. rewrite skipn_map, firstn_map, kWeight_scale.
      apply fold_squares_scale. }
    rewrite <- G by (intros ch Hch; apply in_seq in Hch; lia).
    now rewrite Rmult_0_l. }
  rewrite E.
  assert (Hd : plain * (g * g) / den = plain / den * (g * g)) by (unfold Rdiv; ring).
  rewrite Hd. assert (Hgg : 0 < g * g) by nra.
  destruct (Rle_dec (plain / den) 0) as [Hle|Hgt];
    destruct (Rle_dec (plain / den * (g * g)) 0) as [Hle'|Hgt'];
    cbn [jsAddNum]; try reflexivity; try (exfalso; nra).
  f_equal. rewrite !log10_mult by lra. unfold g. rewrite log10_pow10. lra.
Qed.

(** ** dynamic-processor.js: envelope follower, gain computer, resonance detector *)

Lemma smoothing_coefficient_range (x : R) : 0 < x -> 0 < exp (-1 / x) < 1.
Proof.
  intros Hx. split; [apply exp_pos|].
  rewrite <- exp_0. apply exp_increasing.
  assert (H : 0 < / x) by now apply Rinv_0_lt_compat.
  unfold Rdiv. lra.
Qed.

Lemma followerProcess_between (this : EnvelopeFollower) (input : R) :
  0 < attackCoef this < 1 -> 0 < releaseCoef this < 1 ->
  Rmin (envelope this) (Rabs input) <= snd (followerProcess this input)
  <= Rmax (envelope this) (Rabs input).
Proof.
  intros Ha Hr. unfold followerProcess. cbn [snd].
  set (e := envelope this). set (x := Rabs input).
  destruct (Rgt_dec x e) as [Hg|Hg].
  - assert (P : 0 <= (1 - attackCoef this) * (x - e)) by (apply Rmult_le_pos; lra).
    assert (Q : 0 <= attackCoef this * (x - e)) by (apply Rmult_le_pos; lra).
    unfold Rmin, Rmax. destruct (Rle_dec e x); [|exfalso; lra]. split; lra.
  - assert (P : 0 <= (1 - releaseCoef this) * (e - x)) by (apply Rmult_le_pos; lra).
    assert (Q : 0 <= releaseCoef this * (e - x)) by (apply Rmult_le_pos; lra).
    unfold Rmin, Rmax. destruct (Rle_dec e x); split; lra.
Qed.

Lemma followerRun_within (M : R) (inputs : list R) :
  Forall (fun x => Rabs x <= M) inputs ->
  forall this,
    0 < attackCoef this < 1 -> 0 < releaseCoef this < 1 ->
    0 <= envelope this <= M ->
    Forall (fun e => 0 <= e <= M) (followerRun this inputs).
Proof.
  induction 1 as [|x rest Hx _ IH]; intros this Ha Hr He; cbn [followerRun];
    [constructor|].
  pose proof (followerProcess_between this x Ha Hr) as Hb.
  pose proof (Rabs_pos x) as Hp.
  assert (Hout : 0 <= snd (followerProcess this x) <= M).
  { unfold Rmin, Rmax in Hb. destruct (Rle_dec (envelope this) (Rabs x)); lra. }
  unfold followerProcess in *. cbn [snd] in Hout. cbv zeta.
  constructor; [exact Hout|]. apply IH; cbn [attackCoef releaseCoef envelope]; assumption.
Qed.

Lemma followerRun_step (c a r : R) (n : nat) :
  0 <= c -> 0 < a < 1 ->
  forall k sr,
    followerRun (mkEnvelopeFollower sr (c * (1 - a ^ k)) a r) (repeat c n)
    = map (fun j => c * (1 - a ^ (k + S j))) (seq 0 n).
Proof.
  intros Hc Ha. induction n as [|n IH]; intros k sr; cbn [repeat followerRun seq map];
    [reflexivity|].
  unfold followerProcess. cbn [envelope attackCoef releaseCoef ef_sampleRate].
  assert (Hpow : 0 < a ^ k <= 1).
  { split; [apply pow_lt; lra|].
    rewrite <- (pow1 k). apply pow_incr. lra. }
  assert (E : (if Rgt_dec (Rabs c) (c * (1 - a ^ k))
               then a * (c * (1 - a ^ k)) + (1 - a) * Rabs c
               else r * (c * (1 - a ^ k)) + (1 - r) * Rabs c)
              = c * (1 - a ^ (k + 1))).
  { rewrite Rabs_right by lra. rewrite pow_add, pow_1.
    destruct (Rgt_dec c (c * (1 - a ^ k))) as [Hg|Hg]; [ring|].
    assert (c = 0) by nra. subst c. ring. }
  rewrite E. f_equal.
  rewrite <- seq_shift, map_map. rewrite IH.
  apply map_ext. intros j.
  replace (k + 1 + S j)%nat with (k + S (S j))%nat by lia. reflexivity.
Qed.

(** The envelope follower, built with a positive sample rate and positive
    attack and release times: both smoothing coefficients lie strictly
    between 0 and 1; on inputs bounded by [M] every envelope value is
    between 0 and [M]; and on a constant input [c >= 0] the envelope after
    [j + 1] samples is [c (1 - attackCoef^(j+1))], the exponential step
    response. *)
Theorem followerRun_bounds_and_step_response (sampleRate attackMs releaseMs M c : R)
    (inputs : list R) (n : nat) :
  0 < sampleRate -> 0 < attackMs -> 0 < releaseMs ->
  Forall (fun x => Rabs x <= M) inputs -> 0 <= c ->
  let follower := newEnvelopeFollower sampleRate attackMs releaseMs in
  (0 < attackCoef follower < 1 /\ 0 < releaseCoef follower < 1)
  /\ Forall (fun e => 0 <= e <= M) (followerRun follower inputs)
  /\ followerRun follower (repeat c n)
     = map (fun j => c * (1 - attackCoef follower ^ S j)) (seq 0 n).
Proof.
  intros Hsr Ha Hr Hall Hc follower.
  assert (Hac : 0 < attackCoef follower < 1).
  { unfold follower, newEnvelopeFollower. cbn [attackCoef].
    apply smoothing_coefficient_range. apply Rmult_lt_0_compat; [nra|lra]. }
  assert (Hrc : 0 < releaseCoef follower < 1).
  { unfold follower, newEnvelopeFollower. cbn [releaseCoef].
    apply smoothing_coefficient_range. apply Rmult_lt_0_compat; [nra|lra]. }
  split; [split; assumption|]. split.
  - destruct inputs as [|x rest]; [constructor|].
    assert (HM : 0 <= M)
      by (inversion Hall; subst; pose proof (Rabs_pos x); lra).
    apply (followerRun_within M (x :: rest) Hall follower Hac Hrc).
    unfold follower, newEnvelopeFollower. cbn [envelope]. lra.
  - pose proof (followerRun_step c (attackCoef follower) (releaseCoef follower) n Hc Hac
                  0%nat sampleRate) as Hstep.
    cbn [pow Nat.add] in Hstep.
    replace (c * (1 - 1)) with 0 in Hstep by ring. exact Hstep.
Qed.

Lemma followerRun_bounds_and_step_response_example :
  Forall (fun e => 0 <= e <= 1) (followerRun (newEnvelopeFollower 48000 5 50) [0.5; -1]).
Proof.
  refine (proj1 (proj2 (followerRun_bounds_and_step_response 48000 5 50 1 0.5
                          [0.5; -1] 2 _ _ _ _ _))); try lra.
  constructor; [unfold Rabs; destruct (Rcase_abs _); lra|].
  constructor; [unfold Rabs; destruct (Rcase_abs _); lra|]. constructor.
Defined.

(** The sign and size of the gain [computeGainDb] returns, for any
    threshold, a ratio above 1 and a positive knee: 0 up to the start of
    the knee; a boost, of at most [(1 - 1/ratio) kneeDb / 54] dB, between
    the start of the knee and the threshold; 0 at the threshold; and above
    the threshold a reduction that never exceeds the hard-knee reduction
    [(inputDb - thresholdDb) (1 - 1/ratio)]. *)
Theorem computeGainDb_sign_and_size (thresholdDb ratio kneeDb inputDb : R) :
  1 < ratio -> 0 < kneeDb ->
  let gainDb := computeGainDb (newGainComputer thresholdDb ratio kneeDb) inputDb in
  (inputDb <= thresholdDb - kneeDb / 2 -> gainDb = 0)
  /\ (thresholdDb - kneeDb / 2 < inputDb < thresholdDb ->
      0 < gainDb <= (1 - 1 / ratio) * kneeDb / 54)
  /\ (inputDb = thresholdDb -> gainDb = 0)
  /\ (thresholdDb < inputDb ->
      - ((inputDb - thresholdDb) * (1 - 1 / ratio)) <= gainDb < 0).
Proof.
  intros Hr Hk gainDb.
  pose proof (slope_bounds ratio Hr) as Hc.
  set (c := 1 - 1 / ratio) in *.
  set (T := thresholdDb) in *. set (k := kneeDb) in *. set (x := inputDb) in *.
  assert (Hlow : x <= T - k / 2 -> gainDb = 0) by (intros H; now apply gain_below).
  assert (Hknee : T - k / 2 < x < T + k / 2 ->
                  gainDb = - ((x - T) * c) * ((x - (T - k / 2)) / k)
                           * ((x - (T - k / 2)) / k))
    by (intros H; now apply gain_knee).
  assert (Hhigh : T + k / 2 <= x -> gainDb = - ((x - T) * c))
    by (intros H; now apply gain_above).
  clearbody gainDb.
  split; [exact Hlow|]. split; [|split].
  - intros Hx. rewrite Hknee by lra.
    set (u := x - (T - k / 2)).
    assert (Hu : 0 < u < k / 2) by (unfold u; lra).
    assert (E : - ((x - T) * c) * (u / k) * (u / k) = c * ((k / 2 - u) * (u * u)) / (k * k))
      by (unfold u; field; lra).
    rewrite E.
    assert (Hkk : 0 < k * k) by nra.
    assert (Hpos : 0 < (k / 2 - u) * (u * u)) by (apply Rmult_lt_0_compat; nra).
    assert (Hmax : (k / 2 - u) * (u * u) <= k * (k * k) / 54).
    { assert (Hsq : 0 <= (u - k / 3) * (u - k / 3) * (u + k / 6))
        by (apply Rmult_le_pos; [apply Rle_0_sqr|lra]).
      lra. }
    split.
    + apply Rmult_lt_0_compat; [|now apply Rinv_0_lt_compat].
      apply Rmult_lt_0_compat; lra.
    + apply (Rmult_le_reg_r (k * k)); [exact Hkk|]. unfold Rdiv at 1.
      rewrite Rmult_assoc, Rinv_l by lra.
      replace (c * k / 54 * (k * k)) with (c * (k * (k * k) / 54)) by lra.
      rewrite Rmult_1_r. apply Rmult_le_compat_l; lra.
  - intros Hx. rewrite Hknee by lra. rewrite Hx. unfold Rdiv. ring.
  - intros Hx. destruct (Rle_dec (T + k / 2) x) as [Ha|Hb].
    + rewrite Hhigh by lra. split; [lra|]. nra.
    + rewrite Hknee by lra.
      set (p := (x - (T - k / 2)) / k).
      assert (Hp : 0 < p < 1).
      { unfold p. split.
        - apply Rmult_lt_0_compat; [lra|now apply Rinv_0_lt_compat].
        - apply (Rmult_lt_reg_r k); [lra|]. unfold Rdiv.
          rewrite Rmult_assoc, Rinv_l by lra. lra. }
      assert (Hf : 0 < (x - T) * c) by (apply Rmult_lt_0_compat; lra).
      assert (Hpp : 0 < p * p < 1) by nra.
      split; nra.
Qed.

Lemma computeGainDb_sign_and_size_example :
  0 < computeGainDb (newGainComputer (-20) 4 6) (-21) <= (1 - 1 / 4) * 6 / 54.
Proof.
  refine (proj1 (proj2 (computeGainDb_sign_and_size (-20) 4 6 (-21) _ _)) _); lra.
Defined.

Lemma length_fold_aset (f : nat -> R) (idxs : list nat) :
  forall a, List.length (fold_left (fun a i => aset a i (f i)) idxs a) = List.length a.
Proof.
  induction idxs as [|i idxs IH]; intros a; cbn [fold_left]; [reflexivity|].
  now rewrite IH, length_aset.
Qed.

Lemma aget_fold_aset_seq (f : nat -> R) (n : nat) (a : list R) (j : nat) :
  aget (fold_left (fun a i => aset a i (f i)) (seq 0 n) a) j
  = if ((j <? n) && (j <? List.length a))%nat then f j else aget a j.
Proof.
  induction n as [|n IH]; [reflexivity|].
  rewrite seq_S, fold_left_app. cbn [fold_left Nat.add].
  rewrite aget_aset, length_fold_aset, IH.
  destruct (n =? j)%nat eqn:E1; destruct (n <? List.length a)%nat eqn:E2;
    destruct (j <? n)%nat eqn:E3; destruct (j <? S n)%nat eqn:E4;
    destruct (j <? List.length a)%nat eqn:E5; cbn [andb]; try reflexivity;
    repeat match goal with
           | H : (_ =? _)%nat = true |- _ => apply Nat.eqb_eq in H
           | H : (_ =? _)%nat = false |- _ => apply Nat.eqb_neq in H
           | H : (_ <? _)%nat = true |- _ => apply Nat.ltb_lt in H
           | H : (_ <? _)%nat = false |- _ => apply Nat.ltb_ge in H
           end; try lia; subst; reflexivity.
Qed.

Lemma analyzeBin_resonance_range (this : ResonanceDetector) (magnitudes : list R)
    (i : nat) :
  0 < smoothingFactor this <= 1 ->
  0 <= aget (averageSpectrum this) i -> 0 <= aget magnitudes i ->
  0 <= snd (analyzeBin this magnitudes i)
       <= Rmin 1 (Rmax 0 ((1 / smoothingFactor this - 1.5) / 2)).
Proof.
  intros Hs Hold Hmag. unfold analyzeBin. cbn [snd].
  set (s := smoothingFactor this) in *. set (mag := aget magnitudes i) in *.
  set (old := aget (averageSpectrum this) i) in *.
  set (avg := s * mag + (1 - s) * old).
  assert (Hb : 0 <= Rmin 1 (Rmax 0 ((1 / s - 1.5) / 2)))
    by (apply Rmin_glb; [lra|apply Rmax_l]).
  destruct (Rgt_dec avg 1e-10) as [Havg|_]; [|lra].
  destruct (Rgt_dec mag (avg * 1.5)) as [Hres|_]; [|lra].
  assert (Havg0 : 0 < avg) by lra.
  assert (Hlow : s * mag <= avg) by (unfold avg; nra).
  assert (Hex : 1.5 < mag / avg <= 1 / s).
  { split.
    - apply (Rmult_lt_reg_r avg); [exact Havg0|]. unfold Rdiv.
      rewrite Rmult_assoc, Rinv_l by lra. lra.
    - apply (Rmult_le_reg_r avg); [exact Havg0|]. unfold Rdiv at 1.
      rewrite Rmult_assoc, Rinv_l by lra.
      apply (Rmult_le_reg_l s); [lra|].
      replace (s * (1 / s * avg)) with avg by (field; lra). lra. }
  split.
  - apply Rmin_glb; lra.
  - apply Rmin_glb; [apply Rmin_l|].
    eapply Rle_trans; [apply Rmin_r|].
    apply Rle_trans with ((1 / s - 1.5) / 2); [lra|apply Rmax_r].
Qed.

(** The resonance detector.  The first call returns all zeros and stores
    the frame as the running average.  Later calls, with a smoothing
    factor in (0, 1] and non-negative spectra, return per bin a value
    between 0 and 1 that is also at most [(1/smoothingFactor - 1.5) / 2]:
    the updated average already holds [smoothingFactor] times the new
    magnitude, so the ratio of magnitude to average stays under
    [1/smoothingFactor] (0.9167 at the default 0.3). *)
Theorem analyze_resonance_range (this : ResonanceDetector) (magnitudes : list R) :
  0 < smoothingFactor this <= 1 ->
  List.length (averageSpectrum this) = numBins this ->
  (numBins this <= List.length magnitudes)%nat ->
  Forall (fun a => 0 <= a) (averageSpectrum this) ->
  Forall (fun m => 0 <= m) magnitudes ->
  List.length (snd (analyze this magnitudes)) = numBins this
  /\ (initialized this = false ->
      snd (analyze this magnitudes) = repeat 0 (numBins this)
      /\ initialized (fst (analyze this magnitudes)) = true
      /\ forall i, (i < numBins this)%nat ->
                   aget (averageSpectrum (fst (analyze this magnitudes))) i
                   = aget magnitudes i)
  /\ Forall (fun resonance =>
               0 <= resonance
                 <= Rmin 1 (Rmax 0 ((1 / smoothingFactor this - 1.5) / 2)))
            (snd (analyze this magnitudes)).
Proof.
  intros Hs Hlen Hbins Havg Hmag.
  assert (Hb : 0 <= Rmin 1 (Rmax 0 ((1 / smoothingFactor this - 1.5) / 2)))
    by (apply Rmin_glb; [lra|apply Rmax_l]).
  assert (Hnn : forall (l : list R) i, Forall (fun a => 0 <= a) l -> 0 <= aget l i).
  { intros l i Hl. unfold aget. destruct (Nat.lt_ge_cases i (List.length l)) as [Hi|Hi].
    - rewrite Forall_forall in Hl. apply Hl. now apply nth_In.
    - rewrite nth_overflow by exact Hi. lra. }
  unfold analyze. destruct (initialized this); cbn [negb fst snd].
  - split; [now rewrite length_map, length_seq|]. split; [discriminate|].
    apply Forall_forall. intros r Hr. apply in_map_iff in Hr.
    destruct Hr as [i [<- _]]. apply analyzeBin_resonance_range; auto.
  - split; [apply repeat_length|]. split.
    + intros _. split; [reflexivity|]. split; [reflexivity|].
      intros i Hi. cbn [averageSpectrum]. rewrite aget_fold_aset_seq.
      destruct (i <? numBins this)%nat eqn:E1; [|apply Nat.ltb_ge in E1; lia].
      destruct (i <? List.length (averageSpectrum this))%nat eqn:E2;
        [reflexivity|apply Nat.ltb_ge in E2; lia].
    + apply Forall_forall. intros r Hr. apply repeat_spec in Hr. subst r. lra.
Qed.

Lemma analyze_resonance_range_example :
  snd (analyze (newResonanceDetector 2 0.3) [1; 0.5]) = repeat 0 2.
Proof.
  refine (proj1 (proj1 (proj2 (analyze_resonance_range (newResonanceDetector 2 0.3)
                                 [1; 0.5] _ _ _ _ _)) eq_refl));
    unfold newResonanceDetector;
    cbn [smoothingFactor averageSpectrum numBins repeat List.length].
  - lra.
  - reflexivity.
  - lia.
  - repeat constructor; lra.
  - repeat constructor; lra.
Defined.

(** ** stereo.js: what the width stage does to mid and side *)

Lemma aget_map_scale (g : R) (l : list R) (i : nat) :
  aget (map (fun x => x * g) l) i = aget l i * g.
Proof.
  unfold aget. replace 0 with (0 * g) at 1 by ring.
  apply (map_nth (fun x => x * g)).
Qed.

Lemma process_stereo_samples (this : StereoProcessor) (sr : R) (len : nat)
    (left right : list R) (onProgress : bool) (i : nat) :
  (i < List.length left)%nat ->
  let out := fst (process this (mkAudioBuffer sr len [left; right]) onProgress) in
  let side := map (fun i => (aget left i - aget right i) * 0.5)
                  (seq 0 (List.length left)) in
  let processedSide :=
    if bassMono this && (if Rgt_dec (bassFreq this) 0 then true else false)
    then applyFilter side (calcHighpassCoeffs sr (bassFreq this)) else side in
  let m := (aget left i + aget right i) * 0.5 * dbToLinear (midGain this) in
  let s := aget processedSide i * (dbToLinear (sideGain this) * width this) in
  aget (getChannelData out 0) i
  = (m + s) * (if Rlt_dec (balance this) 0 then 1 else 1 - balance this)
  /\ aget (getChannelData out 1) i
     = (m - s) * (if Rgt_dec (balance this) 0 then 1 else 1 + balance this).
Proof.
  intros Hi. unfold process, numberOfChannels.
  cbn [channels List.length Nat.eqb negb getChannelData nth sampleRate].
  unfold encodeMS, applyWidth, decodeMS. cbv beta iota zeta.
  cbn [fst channels getChannelData nth].
  rewrite !length_map, !length_seq. rewrite !aget_map_scale.
  rewrite !(aget_map_seq (List.length left)) by exact Hi.
  split; reflexivity.
Qed.

(** With the balance centred, [process] scales the mid signal by the mid
    gain and nothing else: at every sample the sum of the outputs is the
    sum of the inputs times [dbToLinear(midGain)], whatever the width, the
    side gain and the bass-mono filter are.  Without the bass-mono filter
    the difference of the outputs is the difference of the inputs times
    [dbToLinear(sideGain) * width]. *)
Theorem process_scales_mid_and_side (this : StereoProcessor) (buffer : AudioBuffer)
    (left right : list R) (onProgress : bool) (i : nat) :
  channels buffer = [left; right] ->
  List.length right = List.length left ->
  balance this = 0 ->
  (i < List.length left)%nat ->
  let out := fst (process this buffer onProgress) in
  aget (getChannelData out 0) i + aget (getChannelData out 1) i
  = (aget left i + aget right i) * dbToLinear (midGain this)
  /\ (bassMono this = false ->
      aget (getChannelData out 0) i - aget (getChannelData out 1) i
      = (aget left i - aget right i) * (dbToLinear (sideGain this) * width this)).
Proof.
  intros Hch _ Hbal Hi. destruct buffer as [sr len chans].
  cbn [channels] in Hch. subst chans.
  destruct (process_stereo_samples this sr len left right onProgress i Hi) as [EL ER].
  cbv zeta in EL, ER |- *. rewrite EL, ER, Hbal.
  destruct (Rlt_dec 0 0); [exfalso; lra|]. destruct (Rgt_dec 0 0); [exfalso; lra|].
  split; [lra|].
  intros Hbm. rewrite Hbm. cbn [andb].
  rewrite (aget_map_seq (List.length left)) by exact Hi. lra.
Qed.

Lemma process_scales_mid_and_side_example :
  aget (getChannelData
          (fst (process (mkStereoProcessor 1.5 true 200 0 0 0)
                        (mkAudioBuffer 48000 2 [[1; 0.5]; [0; -0.5]]) false)) 0) 1
  + aget (getChannelData
            (fst (process (mkStereoProcessor 1.5 true 200 0 0 0)
                          (mkAudioBuffer 48000 2 [[1; 0.5]; [0; -0.5]]) false)) 1) 1
  = (aget [1; 0.5] 1 + aget [0; -0.5] 1) * dbToLinear 0.
Proof.
  refine (proj1 (process_scales_mid_and_side (mkStereoProcessor 1.5 true 200 0 0 0)
                   (mkAudioBuffer 48000 2 [[1; 0.5]; [0; -0.5]])
                   [1; 0.5] [0; -0.5] false 1 eq_refl eq_refl eq_refl _)).
  simpl. lia.
Defined.

Lemma applyPreset_mono :
  applyPreset defaultStereoProcessor "mono"
  = mkStereoProcessor 0 false 200 STEREO_DEFAULTS.BALANCE STEREO_DEFAULTS.MID_GAIN
                      STEREO_DEFAULTS.SIDE_GAIN.
Proof. reflexivity. Qed.

(** The two ends of the width control, on a stereo buffer whose channels
    hold [length] samples: [stereoToMono] puts the mid signal
    [(left + right) / 2] on both channels, and [adjustStereoWidth] with
    width 1 and bass mono off returns the samples unchanged. *)
Theorem stereoToMono_and_unit_width (buffer : AudioBuffer) (left right : list R)
    (bassFreq : R) (onProgress : bool) :
  channels buffer = [left; right] ->
  List.length left = length buffer -> List.length right = length buffer ->
  fst (stereoToMono buffer onProgress)
  = mkAudioBuffer (sampleRate buffer) (length buffer)
      [map (fun i => (aget left i + aget right i) * 0.5) (seq 0 (length buffer));
       map (fun i => (aget left i + aget right i) * 0.5) (seq 0 (length buffer))]
  /\ fst (adjustStereoWidth buffer 1.0 false bassFreq onProgress) = buffer.
Proof.
  intros Hch HL HR. destruct buffer as [sr len chans].
  cbn [channels length sampleRate] in *. subst chans.
  assert (Hout : forall this,
             exists outL outR,
               fst (process this (mkAudioBuffer sr len [left; right]) onProgress)
               = mkAudioBuffer sr len [outL; outR]
               /\ List.length outL = len /\ List.length outR = len).
  { intros this. unfold process, numberOfChannels.
    cbn [channels List.length Nat.eqb negb getChannelData nth sampleRate length].
    unfold encodeMS, applyWidth, decodeMS. cbv beta iota zeta. cbn [fst].
    eexists. eexists. split; [reflexivity|].
    rewrite !length_map, !length_seq. split; exact HL. }
  assert (Hd0 : dbToLinear 0 = 1) by apply dbToLinear_0.
  split.
  - unfold stereoToMono, applyStereoPreset. rewrite applyPreset_mono.
    set (this := mkStereoProcessor 0 false 200 _ _ _).
    destruct (Hout this) as [outL [outR [E [EL ER]]]]. rewrite E.
    assert (Hs : forall i, (i < len)%nat ->
                   aget outL i = (aget left i + aget right i) * 0.5
                   /\ aget outR i = (aget left i + aget right i) * 0.5).
    { intros i Hi. rewrite <- HL in Hi.
      destruct (process_stereo_samples this sr len left right onProgress i Hi) as [A B].
      cbv zeta in A, B. rewrite E in A, B. cbn [getChannelData channels nth] in A, B.
      rewrite A, B. unfold this, defaultStereoProcessor.
      cbn [balance midGain sideGain width bassMono andb].
      unfold STEREO_DEFAULTS.BALANCE, STEREO_DEFAULTS.MID_GAIN, STEREO_DEFAULTS.SIDE_GAIN.
      rewrite Hd0. destruct (Rlt_dec 0.0 0); [exfalso; lra|].
      destruct (Rgt_dec 0.0 0); [exfalso; lra|]. split; lra. }
    f_equal. f_equal; [|f_equal]; symmetry; apply map_seq_eq; try (symmetry; assumption);
      intros i Hi; symmetry; apply Hs; exact Hi.
  - unfold adjustStereoWidth.
    set (this := mkStereoProcessor 1.0 false bassFreq _ _ _).
    destruct (Hout this) as [outL [outR [E [EL ER]]]]. rewrite E.
    assert (Hs : forall i, (i < len)%nat ->
                   aget outL i = aget left i /\ aget outR i = aget right i).
    { intros i Hi. rewrite <- HL in Hi.
      destruct (process_stereo_samples this sr len left right onProgress i Hi) as [A B].
      cbv zeta in A, B. rewrite E in A, B. cbn [getChannelData channels nth] in A, B.
      rewrite A, B. unfold this.
      cbn [balance midGain sideGain width bassMono andb].
      unfold STEREO_DEFAULTS.BALANCE, STEREO_DEFAULTS.MID_GAIN, STEREO_DEFAULTS.SIDE_GAIN.
      rewrite (aget_map_seq (List.length left)) by exact Hi.
      rewrite Hd0. destruct (Rlt_dec 0.0 0); [exfalso; lra|].
      destruct (Rgt_dec 0.0 0); [exfalso; lra|]. split; lra. }
    f_equal. f_equal; [|f_equal].
    + rewrite <- (map_aget_seq outL), <- (map_aget_seq left), EL, HL.
      apply map_ext_in. intros i Hi. apply in_seq in Hi. apply Hs. lia.
    + rewrite <- (map_aget_seq outR), <- (map_aget_seq right), ER, HR.
      apply map_ext_in. intros i Hi. apply in_seq in Hi. apply Hs. lia.
Qed.

Lemma stereoToMono_and_unit_width_example :
  fst (stereoToMono (mkAudioBuffer 48000 2 [[1; 0.5]; [0; -0.5]]) false)
  = mkAudioBuffer 48000 2
      [map (fun i => (aget [1; 0.5] i + aget [0; -0.5] i) * 0.5) (seq 0 2);
       map (fun i => (aget [1; 0.5] i + aget [0; -0.5] i) * 0.5) (seq 0 2)].
Proof.
  exact (proj1 (stereoToMono_and_unit_width (mkAudioBuffer 48000 2 [[1; 0.5]; [0; -0.5]])
                  [1; 0.5] [0; -0.5] 200 false eq_refl eq_refl eq_refl)).
Defined.

(** ** The worker's mastering soft clipper and glue compressor *)

Lemma pow10_lt (x y : R) : x < y -> pow10 x < pow10 y.
Proof.
  intros H. unfold pow10, Rpower. apply exp_increasing.
  assert (H10 : 0 < ln 10) by (rewrite <- ln_1; apply ln_increasing; lra).
  now apply Rmult_lt_compat_r.
Qed.

Lemma pow10_le_1 (y : R) : y <= 0 -> pow10 y <= 1.
Proof.
  intros Hy. destruct Hy as [Hlt| ->]; [|rewrite pow10_0; lra].
  rewrite <- pow10_0. left. now apply pow10_lt.
Qed.

Lemma softClipFinal_within (ceilingLin sample : R) :
  0 < ceilingLin -> Rabs (softClipFinal ceilingLin sample) <= ceilingLin.
Proof.
  intros Hc. unfold softClipFinal.
  destruct (Rgt_dec (Rabs sample) ceilingLin) as [Hg|Hg]; [|lra].
  set (reduction := 1 - tanh ((Rabs sample - ceilingLin) / ceilingLin * 2) * 0.1).
  assert (Hred : 0 <= reduction).
  { unfold reduction.
    pose proof (tanh_lt_1 ((Rabs sample - ceilingLin) / ceilingLin * 2)). lra. }
  eapply Rle_trans; [apply Rabs_sign_mult|apply Rmin_r].
  apply Rmin_glb; [|lra].
  apply Rmult_le_pos; [apply Rabs_pos|exact Hred].
Qed.

(** The soft clipper never lets a sample out above the ceiling: on a
    non-empty list of channels of one length it returns as many channels
    as it was given, each of that length, and every output sample is
    within [10^(ceilingDB/20)] in magnitude, whatever the lookahead,
    release and drive are.  On an empty channel list it throws. *)
Theorem applyMasteringSoftClipToChannels_within_ceiling (chans : list (list R))
    (sampleRate ceilingDB lookaheadMs releaseMs drive : R) :
  (chans = [] ->
   applyMasteringSoftClipToChannels chans sampleRate ceilingDB lookaheadMs releaseMs drive
   = None)
  /\ (chans <> [] ->
      Forall (fun c => List.length c = List.length (nth 0 chans [])) chans ->
      exists out,
        applyMasteringSoftClipToChannels chans sampleRate ceilingDB lookaheadMs
                                         releaseMs drive = Some out
        /\ List.length out = List.length chans
        /\ Forall (fun c => List.length c = List.length (nth 0 chans [])) out
        /\ Forall (Forall (fun y => Rabs y <= dbToLinear ceilingDB)) out).
Proof.
  split; [intros ->; reflexivity|].
  intros Hne _. destruct chans as [|first rest]; [congruence|].
  unfold applyMasteringSoftClipToChannels. eexists. split; [reflexivity|].
  split; [apply length_map|]. cbn [nth]. split.
  - apply Forall_forall. intros c Hc. apply in_map_iff in Hc.
    destruct Hc as [input [<- _]]. now rewrite length_map, length_seq.
  - apply Forall_forall. intros c Hc. apply in_map_iff in Hc.
    destruct Hc as [input [<- _]]. apply Forall_forall. intros y Hy.
    apply in_map_iff in Hy. destruct Hy as [i [<- _]].
    apply softClipFinal_within. apply pow10_pos.
Qed.

Lemma softClipStep_idle (input : list R) (ceilingLin thresholdLin drive : R)
    (lookaheadSamples : nat) (gainEnvelope : list R) (i : nat) :
  Rabs (aget input i) <= thresholdLin ->
  softClipStep input ceilingLin thresholdLin drive lookaheadSamples gainEnvelope i
  = gainEnvelope.
Proof.
  intros H. unfold softClipStep.
  destruct (Rgt_dec (Rabs (aget input i)) thresholdLin); [exfalso; lra|reflexivity].
Qed.

(** The soft clipper is transparent up to the ceiling: when the channels
    all have the same length and no sample exceeds [10^(ceilingDB/20)],
    the output is the input.  (The detection stage only starts 3 dB above
    the ceiling.) *)
Theorem applyMasteringSoftClipToChannels_transparent (chans : list (list R))
    (sampleRate ceilingDB lookaheadMs releaseMs drive : R) :
  chans <> [] ->
  Forall (fun c => List.length c = List.length (nth 0 chans [])) chans ->
  Forall (Forall (fun x => Rabs x <= dbToLinear ceilingDB)) chans ->
  applyMasteringSoftClipToChannels chans sampleRate ceilingDB lookaheadMs releaseMs drive
  = Some chans.
Proof.
  intros Hne Hlen Hall. destruct chans as [|first rest]; [congruence|].
  cbn [nth] in Hlen. unfold applyMasteringSoftClipToChannels.
  set (chans := first :: rest) in *.
  f_equal. unfold softClipEnvelope.
  set (ceilingLin := pow10 (ceilingDB / 20)) in *.
  set (thresholdLin := pow10 ((ceilingDB + 3) / 20)).
  assert (Hc : 0 < ceilingLin) by apply pow10_pos.
  assert (Hthr : ceilingLin < thresholdLin) by (apply pow10_lt; lra).
  assert (Hdet : forall cs env,
             Forall (Forall (fun x => Rabs x <= ceilingLin)) cs ->
             fold_left
               (fun env input =>
                  fold_left (softClipStep input ceilingLin thresholdLin drive
                               (floor (sampleRate * lookaheadMs / 1000)))
                            (seq 0 (List.length first)) env)
               cs env = env).
  { induction cs as [|input cs IH]; intros env Hcs; cbn [fold_left]; [reflexivity|].
    inversion Hcs as [|? ? Hin Hrest]; subst.
    assert (Hidle : forall idxs e,
               fold_left (softClipStep input ceilingLin thresholdLin drive
                            (floor (sampleRate * lookaheadMs / 1000))) idxs e = e).
    { induction idxs as [|i idxs IHi]; intros e; cbn [fold_left]; [reflexivity|].
      rewrite softClipStep_idle; [apply IHi|].
      pose proof (aget_within ceilingLin input i ltac:(lra) Hin). lra. }
    rewrite Hidle. now apply IH. }
  rewrite Hdet by exact Hall. rewrite releaseLoop_unity by reflexivity.
  rewrite <- (map_id chans) at 2. apply map_ext_in. intros input Hin.
  rewrite Forall_forall in Hlen, Hall. specialize (Hlen input Hin).
  specialize (Hall input Hin).
  apply map_seq_eq; [now symmetry|]. intros i Hi.
  replace (aget input i * aget (repeat 1.0 (List.length first)) i) with (aget input i).
  - unfold softClipFinal.
    pose proof (aget_within ceilingLin input i ltac:(lra) Hall).
    destruct (Rgt_dec (Rabs (aget input i)) ceilingLin); [exfalso; lra|reflexivity].
  - replace (aget (repeat 1.0 (List.length first)) i) with 1; [ring|].
    unfold aget. rewrite nth_repeat_lt by exact Hi. lra.
Qed.

Lemma applyMasteringSoftClipToChannels_transparent_example :
  applyMasteringSoftClipToChannels [[0.5; -0.5]; [0; 0.25]] 48000 0 0.5 10 1.5
  = Some [[0.5; -0.5]; [0; 0.25]].
Proof.
  assert (H1 : dbToLinear 0 = 1) by apply dbToLinear_0.
  apply applyMasteringSoftClipToChannels_transparent.
  - discriminate.
  - repeat constructor.
  - rewrite H1.
    repeat (constructor; [repeat (constructor; [unfold Rabs; destruct (Rcase_abs _); lra|]);
                          constructor|]).
    constructor.
Defined.

Lemma length_glueGainLoop (thresholdLin ratio attackCoef releaseCoef : R)
    (sidechain : list R) :
  forall envelope,
    List.length (glueGainLoop thresholdLin ratio attackCoef releaseCoef envelope sidechain)
    = List.length sidechain.
Proof.
  induction sidechain as [|s rest IH]; intros envelope;
    cbn [glueGainLoop List.length]; [reflexivity|]. now rewrite IH.
Qed.

Lemma glueGainLoop_gain_range (thresholdLin ratio attackCoef releaseCoef : R)
    (sidechain : list R) :
  0 < thresholdLin -> 1 <= ratio ->
  forall envelope,
    Forall (fun gain => 0 < gain <= 1)
           (glueGainLoop thresholdLin ratio attackCoef releaseCoef envelope sidechain).
Proof.
  intros Hthr Hratio. induction sidechain as [|s rest IH]; intros envelope;
    cbn [glueGainLoop]; constructor; [|apply IH].
  cbv zeta.
  match goal with
  | |- context [Rgt_dec ?e thresholdLin] => set (envelope' := e)
  end.
  destruct (Rgt_dec envelope' thresholdLin) as [Hover|_]; [|lra].
  split; [apply pow10_pos|]. apply pow10_le_1.
  assert (Hq : 1 < envelope' / thresholdLin).
  { apply (Rmult_lt_reg_r thresholdLin); [exact Hthr|]. unfold Rdiv.
    rewrite Rmult_assoc, Rinv_l by lra. lra. }
  assert (Hlog : 0 < log10 (envelope' / thresholdLin)).
  { replace 0 with (log10 1) by (unfold log10; rewrite ln_1; lra).
    apply log10_lt; lra. }
  assert (Hc : 0 <= 1 - 1 / ratio).
  { assert (H : / ratio <= 1) by (rewrite <- Rinv_1; apply Rinv_le_contravar; lra).
    lra. }
  assert (Hred : 0 <= 20 * log10 (envelope' / thresholdLin) * (1 - 1 / ratio))
    by (apply Rmult_le_pos; lra).
  lra.
Qed.

Lemma glueGainLoop_idle (thresholdLin ratio attackCoef releaseCoef : R)
    (sidechain : list R) :
  0 < attackCoef < 1 -> 0 < releaseCoef < 1 ->
  Forall (fun s => Rabs s <= thresholdLin) sidechain ->
  forall envelope,
    0 <= envelope <= thresholdLin ->
    glueGainLoop thresholdLin ratio attackCoef releaseCoef envelope sidechain
    = repeat 1.0 (List.length sidechain).
Proof.
  intros Ha Hr. induction 1 as [|s rest Hs _ IH]; intros envelope He;
    cbn [glueGainLoop List.length repeat]; [reflexivity|].
  cbv zeta.
  match goal with
  | |- context [Rgt_dec ?e thresholdLin] => set (envelope' := e)
  end.
  assert (He' : 0 <= envelope' <= thresholdLin).
  { unfold envelope'. pose proof (Rabs_pos s) as Hp.
    destruct (Rgt_dec (Rabs s) envelope); split; nra. }
  destruct (Rgt_dec envelope' thresholdLin); [exfalso; lra|].
  f_equal. now apply IH.
Qed.

Lemma glueSidechain_within (M : R) (chans : list (list R)) (len : nat) :
  0 <= M -> Forall (Forall (fun x => Rabs x <= M)) chans ->
  Forall (fun s => Rabs s <= M) (glueSidechain chans len).
Proof.
  intros HM Hall. unfold glueSidechain.
  destruct (2 <=? List.length chans)%nat; apply Forall_forall; intros s Hs;
    apply in_map_iff in Hs; destruct Hs as [i [<- _]].
  - pose proof (aget_within M (nth 0 chans []) i HM (nth_channel_within M chans 0 Hall)) as H0.
    pose proof (aget_within M (nth 1 chans []) i HM (nth_channel_within M chans 1 Hall)) as H1.
    apply bounds_of_Rabs_le in H0, H1. apply Rabs_le_of_bounds. lra.
  - apply aget_within; [exact HM|now apply nth_channel_within].
Qed.

(** The glue compressor never boosts: with a ratio of at least 1, on a
    buffer with at least one channel whose channels hold [length]
    samples, it returns a buffer of the same shape in which every sample
    is the input sample times a gain in (0, 1]. *)
Theorem applyGlueCompressor_never_boosts (buffer : AudioBuffer) (options : GlueOptions) :
  wfBuffer buffer -> channels buffer <> [] ->
  0 < glue_attack options -> 0 < glue_release options ->
  1 <= glue_ratio options ->
  exists out gainCurve,
    applyGlueCompressor buffer options = Some out
    /\ sampleRate out = sampleRate buffer /\ length out = length buffer
    /\ List.length gainCurve = length buffer
    /\ Forall (fun gain => 0 < gain <= 1) gainCurve
    /\ channels out
       = map (fun input => map (fun i => aget input i * aget gainCurve i)
                               (seq 0 (length buffer)))
             (channels buffer).
Proof.
  intros [_ Hlen] Hne _ _ Hratio. unfold applyGlueCompressor.
  destruct (channels buffer) as [|first rest] eqn:Ech; [congruence|].
  assert (Hfirst : List.length first = length buffer)
    by (inversion Hlen; assumption).
  rewrite Hfirst.
  eexists. eexists. split; [reflexivity|]. cbn [sampleRate length channels].
  split; [reflexivity|]. split; [reflexivity|].
  split; [|split; [|reflexivity]].
  - rewrite length_glueGainLoop. unfold glueSidechain.
    destruct (2 <=? _)%nat; now rewrite length_map, length_seq.
  - apply glueGainLoop_gain_range; [apply pow10_pos|exact Hratio].
Qed.

Lemma applyGlueCompressor_never_boosts_example :
  exists out gainCurve,
    applyGlueCompressor (mkAudioBuffer 48000 2 [[1; 0.5]; [0; -0.5]])
                        (mkGlueOptions (-20) 4 0.01 0.1 6) = Some out
    /\ sampleRate out = 48000 /\ length out = 2%nat
    /\ List.length gainCurve = 2%nat
    /\ Forall (fun gain => 0 < gain <= 1) gainCurve
    /\ channels out
       = map (fun input => map (fun i => aget input i * aget gainCurve i) (seq 0 2))
             [[1; 0.5]; [0; -0.5]].
Proof.
  apply (applyGlueCompressor_never_boosts (mkAudioBuffer 48000 2 [[1; 0.5]; [0; -0.5]])
           (mkGlueOptions (-20) 4 0.01 0.1 6));
    cbn [glue_attack glue_release glue_ratio channels]; try lra.
  - split; [cbn [sampleRate]; lra|repeat constructor].
  - discriminate.
Defined.

(** The glue compressor is transparent below its threshold: when no
    sample exceeds [10^(threshold/20)], the gain stays at 1 and the result
    is the input buffer. *)
Theorem applyGlueCompressor_transparent_below_threshold (buffer : AudioBuffer)
    (options : GlueOptions) :
  wfBuffer buffer -> channels buffer <> [] ->
  0 < glue_attack options -> 0 < glue_release options ->
  Forall (Forall (fun x => Rabs x <= dbToLinear (glue_threshold options)))
         (channels buffer) ->
  applyGlueCompressor buffer options = Some buffer.
Proof.
  intros [Hsr Hlen] Hne Ha Hr Hall. unfold applyGlueCompressor.
  destruct buffer as [sr len chans]. cbn [sampleRate length channels] in *.
  destruct chans as [|first rest]; [congruence|].
  set (chans := first :: rest) in *.
  assert (Hfirst : List.length first = len) by (inversion Hlen; assumption).
  rewrite Hfirst. f_equal. f_equal.
  set (thresholdLin := pow10 (glue_threshold options / 20)) in *.
  assert (Hthr : 0 < thresholdLin) by apply pow10_pos.
  rewrite glueGainLoop_idle.
  - transitivity (map (fun c : list R => c) chans); [|apply map_id].
    apply map_ext_in. intros input Hin.
    rewrite Forall_forall in Hlen. specialize (Hlen input Hin).
    apply map_seq_eq; [now symmetry|]. intros i Hi.
    replace (aget (repeat 1.0 (List.length (glueSidechain chans len))) i) with 1; [ring|].
    unfold aget. rewrite nth_repeat_lt; [lra|].
    unfold glueSidechain. destruct (2 <=? _)%nat; now rewrite length_map, length_seq.
  - apply smoothing_coefficient_range. now apply Rmult_lt_0_compat.
  - apply smoothing_coefficient_range. now apply Rmult_lt_0_compat.
  - apply glueSidechain_within; [lra|exact Hall].
  - lra.
Qed.

Lemma applyGlueCompressor_transparent_below_threshold_example :
  applyGlueCompressor (mkAudioBuffer 48000 2 [[1; 0.5]; [0; -0.5]])
                      (mkGlueOptions 0 4 0.01 0.1 6)
  = Some (mkAudioBuffer 48000 2 [[1; 0.5]; [0; -0.5]]).
Proof.
  assert (H1 : dbToLinear 0 = 1) by apply dbToLinear_0.
  apply applyGlueCompressor_transparent_below_threshold;
    cbn [glue_attack glue_release glue_threshold channels]; try lra.
  - split; [cbn [sampleRate]; lra|repeat constructor].
  - discriminate.
  - rewrite H1.
    repeat (constructor; [repeat (constructor; [unfold Rabs; destruct (Rcase_abs _); lra|]);
                          constructor|]).
    constructor.
Defined.
